(** * The sentence pipeline: batch reconciliation of a sheet against
      generated audio and translations

    A shallow embedding of [audio_generator.py] and of the polling loop of
    [translate_sheet_generator.py], and the properties of the reconciliation
    engine proved over it.

    Conventions of the embedding.
    - A Python [str] is a [string]; its characters are the code points below
      256, and whitespace is what [str.isspace] accepts among them.
    - A Python [int] is a [Z].  A [float] delay is a rational [Q].
    - A function that calls a remote service, logs, sleeps or exits is a
      state transformer over a [World]: the sheet, the hidden state of the
      remote services, and the trace of what the process did. *)

From Stdlib Require Import List String Ascii ZArith QArith Qminmax Lia Bool Arith.
From Stdlib Require Import DecimalString DecimalPos DecimalN Sorted.
Import ListNotations.

Local Open Scope string_scope.
Local Open Scope list_scope.
Local Open Scope Z_scope.

(** ** Python strings *)

Module Py.

(** [str.isspace] of one character, for the code points below 256:
    TAB, LF, VT, FF, CR, the separators FS GS RS US, space, NEL and the
    no-break space. *)
Definition is_space (c : ascii) : bool :=
  let n := nat_of_ascii c in
  (((9 <=? n) && (n <=? 13)) || ((28 <=? n) && (n <=? 32))
   || (n =? 133) || (n =? 160))%nat.

Fixpoint lstrip (s : string) : string :=
  match s with
  | EmptyString => EmptyString
  | String c r => if is_space c then lstrip r else s
  end.

Fixpoint rstrip (s : string) : string :=
  match s with
  | EmptyString => EmptyString
  | String c r =>
      match rstrip r with
      | EmptyString => if is_space c then EmptyString else String c EmptyString
      | r' => String c r'
      end
  end.

(** [s.strip()] with no argument. *)
Definition strip (s : string) : string := rstrip (lstrip s).

(** Truth value of a string: [bool(s)], true unless [s] is empty. *)
Definition truthy (s : string) : bool :=
  match s with EmptyString => false | String _ _ => true end.

(** A string made of whitespace only (the empty string included). *)
Fixpoint blank (s : string) : bool :=
  match s with
  | EmptyString => true
  | String c r => is_space c && blank r
  end.

(** [enumerate(l)], indices counted from [i]. *)
Fixpoint enumerate_from {A : Type} (i : Z) (l : list A) : list (Z * A) :=
  match l with
  | [] => []
  | x :: r => (i, x) :: enumerate_from (i + 1) r
  end.

Definition enumerate {A : Type} (l : list A) : list (Z * A) := enumerate_from 0 l.

(** [zip(a, b)] stops at the shorter list, as [combine] does. *)
Definition zip {A B : Type} (a : list A) (b : list B) : list (A * B) := combine a b.

(** [s.lower()], for the code points below 256: the ASCII capitals and the
    Latin-1 capitals (all of 192..222 but the multiplication sign). *)
Definition lower_char (c : ascii) : ascii :=
  let n := nat_of_ascii c in
  if (((65 <=? n) && (n <=? 90))
      || ((192 <=? n) && (n <=? 222) && negb (n =? 215)))%nat
  then ascii_of_nat (n + 32) else c.

Fixpoint lower (s : string) : string :=
  match s with
  | EmptyString => EmptyString
  | String c r => String (lower_char c) (lower r)
  end.

(** [s.startswith(p)] *)
Definition startswith (s p : string) : bool := String.prefix p s.

(** [s.split(sep)] for a separator of one character. *)
Fixpoint split (sep : ascii) (s : string) : list string :=
  match s with
  | EmptyString => [EmptyString]
  | String c r =>
      if Ascii.eqb c sep then EmptyString :: split sep r
      else match split sep r with
           | [] => [String c EmptyString]
           | w :: ws => String c w :: ws
           end
  end.

(** [sep.join(l)] *)
Fixpoint join (sep : string) (l : list string) : string :=
  match l with
  | [] => EmptyString
  | [w] => w
  | w :: ws => w ++ sep ++ join sep ws
  end.

Definition digit_of (c : ascii) : option Z :=
  let n := nat_of_ascii c in
  if ((48 <=? n) && (n <=? 57))%nat then Some (Z.of_nat (n - 48)) else None.

(** The digits of a decimal literal, where single underscores may separate
    digits; [after_digit] tells that the character before was a digit. *)
Fixpoint parse_digits (s : string) (acc : Z) (after_digit : bool) : option Z :=
  match s with
  | EmptyString => if after_digit then Some acc else None
  | String c r =>
      if Ascii.eqb c "_" then
        if after_digit then parse_digits r acc false else None
      else match digit_of c with
           | Some d => parse_digits r (10 * acc + d) true
           | None => None
           end
  end.

(** The whitespace [int] skips around a number.  It is not that of
    [str.strip]: of the code points below 128 [int] skips the C whitespace
    only (TAB, LF, VT, FF, CR and the space), so the separators FS, GS, RS
    and US are not skipped; the whitespace from 128 on, NEL and the no-break
    space, is turned into spaces first and skipped. *)
Definition is_int_space (c : ascii) : bool :=
  let n := nat_of_ascii c in
  (((9 <=? n) && (n <=? 13)) || (n =? 32) || (n =? 133) || (n =? 160))%nat.

Fixpoint int_lstrip (s : string) : string :=
  match s with
  | EmptyString => EmptyString
  | String c r => if is_int_space c then int_lstrip r else s
  end.

Fixpoint int_rstrip (s : string) : string :=
  match s with
  | EmptyString => EmptyString
  | String c r =>
      match int_rstrip r with
      | EmptyString => if is_int_space c then EmptyString else String c EmptyString
      | r' => String c r'
      end
  end.

(** [int(s)] in base ten: the whitespace around the number is dropped, one
    sign is allowed; [None] stands for the [ValueError]. *)
Definition int_of_string (s : string) : option Z :=
  match int_rstrip (int_lstrip s) with
  | String "+" r => parse_digits r 0 false
  | String "-" r => option_map Z.opp (parse_digits r 0 false)
  | t => parse_digits t 0 false
  end.

(** [x[:n]] *)
Definition slice_to {A : Type} (l : list A) (n : Z) : list A :=
  if 0 <=? n then firstn (Z.to_nat n) l
  else firstn (List.length l - Z.to_nat (- n)) l.

(** [l[i]], with [None] for the [IndexError]; a negative index counts from
    the end. *)
Definition index {A : Type} (l : list A) (i : Z) : option A :=
  if 0 <=? i then nth_error l (Z.to_nat i)
  else if (- Z.of_nat (List.length l)) <=? i
       then nth_error l (List.length l - Z.to_nat (- i))
       else None.

(** [range(n)] *)
Definition range (n : Z) : list Z := map Z.of_nat (seq 0 (Z.to_nat n)).

Definition zero_pad (width : nat) (digits : string) : string :=
  string_of_list_ascii (repeat "0"%char (width - String.length digits)) ++ digits.

(** [format(n, '06')]: at least six characters, zeros after the sign. *)
Definition format_06 (n : Z) : string :=
  let digits := NilZero.string_of_uint (N.to_uint (Z.abs_N n)) in
  if n <? 0 then "-" ++ zero_pad 5 digits else zero_pad 6 digits.

End Py.

(** ** The row gap detector *)

(** A diagnostic of the gap detector: the row has empty or missing text. *)
Inductive gap_warning := EmptyTextRow (row : Z).

(** One iteration of the loop of [find_rows_needing_audio]: the state is
    the list built so far and the warnings logged so far. *)
Definition gap_step (start_row : Z) (st : list Z * list gap_warning)
    (it : Z * (string * string)) : list Z * list gap_warning :=
  let '(rows_needing_audio, warned) := st in
  let '(idx, (audio_link, text)) := it in
  if negb (Py.truthy (Py.strip text)) then
    (rows_needing_audio, warned ++ [EmptyTextRow (start_row + idx)])
  else if negb (Py.truthy (Py.strip audio_link)) then
    (rows_needing_audio ++ [start_row + idx], warned)
  else (rows_needing_audio, warned).

Definition find_rows_loop (audio_column_values text_column_values : list string)
    (start_row : Z) : list Z * list gap_warning :=
  fold_left (gap_step start_row)
    (Py.enumerate (Py.zip audio_column_values text_column_values)) ([], []).

(** [find_rows_needing_audio(audio_column_values, text_column_values, start_row)]:
    the value returned. *)
Definition find_rows_needing_audio (audio_column_values text_column_values : list string)
    (start_row : Z) : list Z :=
  fst (find_rows_loop audio_column_values text_column_values start_row).

(** The warnings it logs on the way. *)
Definition find_rows_warnings (audio_column_values text_column_values : list string)
    (start_row : Z) : list gap_warning :=
  snd (find_rows_loop audio_column_values text_column_values start_row).

(** The gap as the specification words it: the positions [i] whose source
    is not blank and whose marker is blank, as absolute rows, in order. *)
Definition in_gap (markers sources : list string) (i : nat) : bool :=
  negb (Py.blank (nth i sources "")) && Py.blank (nth i markers "").

Definition gap_rows (markers sources : list string) (start_row : Z) : list Z :=
  map (fun i => start_row + Z.of_nat i)
      (filter (in_gap markers sources) (seq 0 (List.length sources))).

(** ** Exceptions, outcomes and the trace of a run *)

(** The exceptions that reach the program. *)
Inductive exn :=
| HttpError (content : string)   (* googleapiclient.errors.HttpError *)
| ValueError (msg : string)      (* [int] applied to text that is no integer *)
| IndexError                     (* a list indexed beyond its end *)
| OtherError (msg : string).     (* any other subclass of [Exception] *)

(** How a call ends: it returns, it raises an [Exception], or the process
    exits ([sys.exit] raises [SystemExit], which no [except Exception]
    clause catches). *)
Inductive outcome (A : Type) :=
| Return (a : A)
| Raise (e : exn)
| Exit (code : Z).
Arguments Return {A} a.
Arguments Raise {A} e.
Arguments Exit {A} code.

Inductive encoding := MP3 | OGG_OPUS | LINEAR16.

(** A range of one column, [col first : col last] in A1 notation; with no
    [last] the range is open ended.  Every call of the program names the
    same spreadsheet and the same tab, which the range leaves out. *)
Record Range := { rg_col : string; rg_first : Z; rg_last : option Z }.

(** A request to the speech service. *)
Record TtsRequest := {
  tts_text : string;
  tts_language : string;
  tts_voice : string;
  tts_encoding : encoding;
  tts_rate : option Q
}.

(** An upload to the blob store. *)
Record Upload := {
  up_folder : string;
  up_name : string;
  up_content : string;
  up_mime : string
}.

(** Log records, one constructor for each message of the program. *)
Inductive log_record :=
| SpeakingRateNotPositive
| TestingServices
| SheetsApiWorking
| DriveApiWorking
| TtsApiWorking
| ServicesTestFailed (e : exn)
| AudioFolderReady (name folder_id : string)
| RetryingAfter (delay : Q) (e : exn)
| SheetsUpdateFailed (rg : Range) (content : string)
| SheetsUpdateUnexpected (rg : Range) (e : exn)
| TtsFailed (text : string) (content : string)
| TtsUnexpected (text : string) (e : exn)
| UploadFailed (filename : string) (content : string)
| UploadUnexpected (filename : string) (e : exn)
| UploadedFile (filename folder_id : string)
| RowHasNoText (row : Z)
| RowTextEmpty (row : Z)
| Synthesizing (row : Z) (text : string)
| SynthesisError (row : Z) (e : exn)
| MissingSentenceId (row : Z)
| UploadedRow (row : Z) (link : string)
| UploadError (row : Z) (e : exn)
| HeaderMissing (col : string)
| HeaderMismatch (expected found : string)
| StructureValidated
| ColumnLengthMismatch (audio_len text_len : nat)
| NoRowsNeedAudio
| FoundRows (n : nat)
| UploadingTo (folder_id : string)
| LimitingRows (n : Z)
| GenerationComplete.

Inductive level := Info | Warning | Error.

(** What the process does that can be seen from outside. *)
Inductive event :=
| Authenticate
| SheetsGet (rg : Range)
| SheetsUpdate (rg : Range) (values : list string)
| SheetsMetadata
| DriveList (folder : option (string * string))
| DriveCreateFolder (name parent : string)
| DriveUpload (u : Upload)
| TtsSynthesize (rq : TtsRequest)
| Slept (seconds : Q)
| Logged (lvl : level) (r : log_record)
| Printed (msg : string).

(** ** The sheet *)

(** The tab of the spreadsheet the run works on: for each column letter
    the text entered in its cells, row 1 first; a cell beyond the end of the
    list, or holding the empty string, is an empty cell. *)
Definition Sheet := string -> list string.

Definition cell (s : Sheet) (col : string) (row : Z) : string :=
  if row <? 1 then "" else nth (Z.to_nat (row - 1)) (s col) "".

(** [cells] with [vals] written from index [i] on, the list grown with empty
    cells when it is too short. *)
Definition write_cells (cells : list string) (i : nat) (vals : list string) : list string :=
  firstn i (cells ++ repeat "" (i - List.length cells))
  ++ vals ++ skipn (i + List.length vals) cells.

Definition write_column (s : Sheet) (col : string) (row : Z) (vals : list string) : Sheet :=
  fun c => if String.eqb c col then write_cells (s c) (Z.to_nat (row - 1)) vals else s c.

(** The cells a range covers. *)
Definition range_cells (s : Sheet) (rg : Range) : list string :=
  let below := skipn (Z.to_nat (rg_first rg - 1)) (s (rg_col rg)) in
  match rg_last rg with
  | None => below
  | Some last => firstn (Z.to_nat (last - rg_first rg + 1)) below
  end.

Fixpoint drop_trailing (p : string -> bool) (l : list string) : list string :=
  match l with
  | [] => []
  | v :: r =>
      match drop_trailing p r with
      | [] => if p v then [] else [v]
      | r' => v :: r'
      end
  end.

(** The state of the world a run acts on: the sheet, and the hidden state
    of the remote services, which decides their faults and their answers. *)
Record World (E : Type) := { sheet : Sheet; remote : E }.
Arguments sheet {E} w.
Arguments remote {E} w.

(** The answer of a remote service to one request: a value, or a failure
    that the client library raises as an exception. *)
Inductive reply (A : Type) :=
| Ok (a : A)
| Failed (e : exn).
Arguments Ok {A} a.
Arguments Failed {A} e.

(** The remote services.  [render] is the sheet's formula engine: the value
    a cell shows for the text entered in it.  The other fields answer one
    request each from the hidden state; [sheets_fault] tells whether the
    next request to the sheet fails. *)
Record Remote (E : Type) := {
  render : string -> string;
  oauth : E -> reply unit * E;
  sheets_fault : E -> option exn * E;
  sheets_title : E -> option string;
  drive_list : option (string * string) -> E -> reply (list string) * E;
  drive_create_folder : string -> string -> E -> reply string * E;
  drive_upload : Upload -> E -> reply (option string) * E;
  tts_synthesize : TtsRequest -> E -> reply string * E;
  random_bits : E -> N * E
}.
Arguments render {E} r.
Arguments oauth {E} r.
Arguments sheets_fault {E} r.
Arguments sheets_title {E} r.
Arguments drive_list {E} r.
Arguments drive_create_folder {E} r.
Arguments drive_upload {E} r.
Arguments tts_synthesize {E} r.
Arguments random_bits {E} r.

(** ** The monad of the program: state, trace and exceptions *)

Record run (E A : Type) := Run { out : outcome A; after : World E; emitted : list event }.
Arguments Run {E A} out after emitted.
Arguments out {E A} r.
Arguments after {E A} r.
Arguments emitted {E A} r.

Definition M (E A : Type) := World E -> run E A.

Definition ret {E A} (a : A) : M E A := fun w => Run (Return a) w [].

Definition raise {E A} (e : exn) : M E A := fun w => Run (Raise e) w [].

(** [sys.exit(code)] *)
Definition sys_exit {E A} (code : Z) : M E A := fun w => Run (Exit code) w [].

Definition bind {E A B} (c : M E A) (k : A -> M E B) : M E B :=
  fun w =>
    let r := c w in
    match out r with
    | Return a =>
        let r' := k a (after r) in
        Run (out r') (after r') (emitted r ++ emitted r')
    | Raise e => Run (Raise e) (after r) (emitted r)
    | Exit code => Run (Exit code) (after r) (emitted r)
    end.

(** [try: c  except Exception as e: h e] *)
Definition try_except {E A} (c : M E A) (h : exn -> M E A) : M E A :=
  fun w =>
    let r := c w in
    match out r with
    | Raise e =>
        let r' := h e (after r) in
        Run (out r') (after r') (emitted r ++ emitted r')
    | _ => r
    end.

Definition emit {E} (ev : event) : M E unit := fun w => Run (Return tt) w [ev].

Definition log {E} (lvl : level) (r : log_record) : M E unit := emit (Logged lvl r).

(** [time.sleep(seconds)] *)
Definition sleep {E} (seconds : Q) : M E unit := emit (Slept seconds).

Declare Scope prog_scope.
Delimit Scope prog_scope with prog.
Notation "x <- c ;; k" := (bind c (fun x => k))
  (at level 61, c at next level, right associativity) : prog_scope.
Notation "c ;; k" := (bind c (fun _ => k))
  (at level 61, right associativity) : prog_scope.
Local Open Scope prog_scope.

(** ** The command line *)

Record Args := {
  sheet_id : string;
  source_tab_name : string;
  text_column : string;
  start_row : Z;
  audio_link_column : string;
  dest_folder_id : string;
  voice_name : string;
  speaking_rate : Q;
  audio_encoding : encoding;
  max_rows : option Z;
  id_column : string
}.

(** The double quote character, for building formulas. *)
Definition dquote : string := String (ascii_of_nat 34) EmptyString.

(** ** The engine *)

Section Engine.

Context {E : Type} (R : Remote E).

(** *** The tabular store adapter *)

(** One request to a remote service: the answer and the next hidden state
    come from [f]; the sheet is not touched. *)
Definition remote_call {A : Type} (ev : event) (f : E -> reply A * E) : M E A :=
  fun w =>
    let '(o, e') := f (remote w) in
    Run (match o with Ok a => Return a | Failed e => Raise e end)
        {| sheet := sheet w; remote := e' |} [ev].

(** What a cell shows: an empty cell shows nothing. *)
Definition shown (v : string) : string :=
  if Py.truthy v then render R v else "".

(** The rows [values.get] answers for a range: one row for each cell, [[]]
    for an empty cell, the empty rows at the end left out. *)
Definition range_values (s : Sheet) (rg : Range) : list (list string) :=
  map (fun v => if Py.truthy v then [v] else [])
      (drop_trailing (fun v => negb (Py.truthy v)) (map shown (range_cells s rg))).

(** [spreadsheets().values().get(range=rg).execute().get('values', [])] *)
Definition values_get (rg : Range) : M E (list (list string)) :=
  fun w =>
    let '(fault, e') := sheets_fault R (remote w) in
    let w' := {| sheet := sheet w; remote := e' |} in
    match fault with
    | Some x => Run (Raise x) w' [SheetsGet rg]
    | None =>
        if rg_first rg <? 1
        then Run (Raise (HttpError "Unable to parse range")) w' [SheetsGet rg]
        else Run (Return (range_values (sheet w) rg)) w' [SheetsGet rg]
    end.

(** [spreadsheets().values().update(range=rg, body=[[v] for v in vals])]:
    a request that fails leaves the sheet as it was. *)
Definition values_update (rg : Range) (vals : list string) : M E unit :=
  fun w =>
    let '(fault, e') := sheets_fault R (remote w) in
    let w' := {| sheet := sheet w; remote := e' |} in
    match fault with
    | Some x => Run (Raise x) w' [SheetsUpdate rg vals]
    | None =>
        if rg_first rg <? 1
        then Run (Raise (HttpError "Unable to parse range")) w' [SheetsUpdate rg vals]
        else Run (Return tt)
                 {| sheet := write_column (sheet w) (rg_col rg) (rg_first rg) vals;
                    remote := e' |}
                 [SheetsUpdate rg vals]
    end.

(** [spreadsheets().get().execute()]: the title, when there is one. *)
Definition spreadsheet_get : M E (option string) :=
  fun w =>
    let '(fault, e') := sheets_fault R (remote w) in
    let w' := {| sheet := sheet w; remote := e' |} in
    match fault with
    | Some x => Run (Raise x) w' [SheetsMetadata]
    | None => Run (Return (sheets_title R e')) w' [SheetsMetadata]
    end.

(** [row[0] if row else ''] *)
Definition first_or_empty (row : list string) : string :=
  match row with v :: _ => v | [] => "" end.

(** Truth value of [force_row_count]: given, and not zero. *)
Definition forced (force_row_count : option Z) : bool :=
  match force_row_count with Some n => negb (n =? 0) | None => false end.

(** The range [read_sheet_column] asks for. *)
Definition column_range (column_letter : string) (start_row : Z)
    (force_row_count : option Z) : Range :=
  let range_end :=
    match force_row_count with
    | Some n => if forced force_row_count then Some (start_row + n - 1) else None
    | None => None
    end in
  {| rg_col := column_letter; rg_first := start_row; rg_last := range_end |}.

(** What [read_sheet_column] makes of the rows it got: one value for each
    row, then the padding when a row count is forced, or the trailing blank
    values dropped when none is given. *)
Definition column_of_values (force_row_count : option Z) (values : list (list string))
    : list string :=
  let column_values := map first_or_empty values in
  let column_values :=
    match force_row_count with
    | Some n =>
        if forced force_row_count
        then column_values ++ repeat "" (Z.to_nat n - List.length column_values)
        else column_values
    | None => column_values
    end in
  match force_row_count with
  | None => drop_trailing (fun v => negb (Py.truthy (Py.strip v))) column_values
  | Some _ => column_values
  end.

Definition read_sheet_column (column_letter : string) (start_row : Z)
    (force_row_count : option Z) : M E (list string) :=
  values <- values_get (column_range column_letter start_row force_row_count) ;;
  ret (column_of_values force_row_count values).

(** *** The retry executor *)

(** [random.random()]: a multiple of 2^-53 in [0, 1). *)
Definition random_random : M E Q :=
  fun w =>
    let '(n, e') := random_bits R (remote w) in
    Run (Return (Z.of_N (n mod 2 ^ 53) # 2 ^ 53))
        {| sheet := sheet w; remote := e' |} [].

(** [random.uniform(a, b)] is [a + (b - a) * random()]. *)
Definition random_uniform (a b : Q) : M E Q :=
  r <- random_random ;; ret (a + (b - a) * r)%Q.

(** [min(base_delay * (2 ** attempt) + jitter, max_delay)] *)
Definition backoff_delay (base_delay max_delay : Q) (attempt : Z) (jitter : Q) : Q :=
  Qmin (base_delay * inject_Z (2 ^ attempt) + jitter) max_delay.

(** The [for attempt in range(max_retries)] loop, over the attempts still
    to make.  The handler ends with the rest of the loop: the next attempt
    runs after the sleep, outside the [try] that caught the failure. *)
Fixpoint backoff_loop {A : Type} (func : M E A) (max_retries : Z)
    (base_delay max_delay : Q) (attempts : list Z) : M E (option A) :=
  match attempts with
  | [] => ret None
  | attempt :: rest =>
      try_except (a <- func ;; ret (Some a))
        (fun e =>
           if attempt =? max_retries - 1 then raise e
           else
             jitter <- random_uniform 0 1 ;;
             let delay := backoff_delay base_delay max_delay attempt jitter in
             log Warning (RetryingAfter delay e) ;;
             sleep delay ;;
             backoff_loop func max_retries base_delay max_delay rest)
  end.

Definition exponential_backoff_retry {A : Type} (func : M E A) (max_retries : Z)
    (base_delay max_delay : Q) : M E (option A) :=
  backoff_loop func max_retries base_delay max_delay (Py.range max_retries).

Definition default_max_retries : Z := 5.
Definition default_base_delay : Q := 1.
Definition default_max_delay : Q := 16.

Definition update_sheet_cells_with_retry (start_row : Z) (column_letter : string)
    (values : list string) (max_retries : Z) : M E (option unit) :=
  let range_name := {| rg_col := column_letter; rg_first := start_row;
                       rg_last := None |} in
  let update := values_update range_name values in
  try_except
    (exponential_backoff_retry update max_retries
       default_base_delay default_max_delay)
    (fun e =>
       match e with
       | HttpError content => log Error (SheetsUpdateFailed range_name content)
       | _ => log Error (SheetsUpdateUnexpected range_name e)
       end ;;
       ret None).

Definition ensure_column_header (column_letter header_name : string) : M E unit :=
  values_update {| rg_col := column_letter; rg_first := 1; rg_last := Some 1 |}
                [header_name].

(** *** The artifact generator *)

Definition create_or_get_audio_folder (parent_folder_id sheet_name : string) : M E string :=
  let folder_name := (sheet_name ++ "_Audio")%string in
  files <- remote_call (DriveList (Some (folder_name, parent_folder_id)))
             (drive_list R (Some (folder_name, parent_folder_id))) ;;
  folder_id <-
    match files with
    | f :: _ => ret f
    | [] => remote_call (DriveCreateFolder folder_name parent_folder_id)
              (drive_create_folder R folder_name parent_folder_id)
    end ;;
  log Info (AudioFolderReady folder_name folder_id) ;;
  ret folder_id.

Definition get_mime_type (audio_encoding : encoding) : string :=
  match audio_encoding with
  | MP3 => "audio/mpeg"
  | OGG_OPUS => "audio/ogg"
  | LINEAR16 => "audio/wav"
  end.

Definition upload_audio_file (folder_id filename audio_content : string)
    (audio_encoding : encoding) : M E (option string) :=
  let mime_type := get_mime_type audio_encoding in
  let u := {| up_folder := folder_id; up_name := filename;
              up_content := audio_content; up_mime := mime_type |} in
  link <- remote_call (DriveUpload u) (drive_upload R u) ;;
  log Info (UploadedFile filename folder_id) ;;
  ret link.

Definition synthesize_speech (text voice_name : string) (speaking_rate : Q)
    (audio_encoding : encoding) : M E string :=
  let language_code := Py.join "-" (firstn 2 (Py.split "-" voice_name)) in
  let rq := {| tts_text := text; tts_language := language_code;
               tts_voice := voice_name; tts_encoding := audio_encoding;
               tts_rate := Some speaking_rate |} in
  remote_call (TtsSynthesize rq) (tts_synthesize R rq).

Definition synthesize_speech_with_retry (text voice_name : string) (speaking_rate : Q)
    (audio_encoding : encoding) : M E (option string) :=
  try_except
    (exponential_backoff_retry
       (synthesize_speech text voice_name speaking_rate audio_encoding)
       default_max_retries default_base_delay default_max_delay)
    (fun e =>
       match e with
       | HttpError content => log Error (TtsFailed text content)
       | _ => log Error (TtsUnexpected text e)
       end ;;
       ret None).

(** The wrapper's answer is the link or [None]; the retry loop itself may
    end without a value. *)
Definition upload_audio_file_with_retry (folder_id filename audio_content : string)
    (audio_encoding : encoding) : M E (option string) :=
  try_except
    (r <- exponential_backoff_retry
            (upload_audio_file folder_id filename audio_content audio_encoding)
            default_max_retries default_base_delay default_max_delay ;;
     ret (match r with Some link => link | None => None end))
    (fun e =>
       match e with
       | HttpError content => log Error (UploadFailed filename content)
       | _ => log Error (UploadUnexpected filename e)
       end ;;
       ret None).

(** [values[0][0] if values else ""] *)
Definition first_cell (values : list (list string)) : M E string :=
  match values with
  | [] => ret ""
  | [] :: _ => raise IndexError
  | (v :: _) :: _ => ret v
  end.

(** Truth value of bytes or of a link that may be [None]. *)
Definition present (v : option string) : bool :=
  match v with Some s => Py.truthy s | None => false end.

Definition hyperlink_formula (link filename : string) : string :=
  "=HYPERLINK(" ++ dquote ++ link ++ dquote ++ ", " ++ dquote ++ filename
  ++ dquote ++ ")".

(** [int(sentence_id)] *)
Definition int (s : string) : M E Z :=
  match Py.int_of_string s with
  | Some n => ret n
  | None => raise (ValueError s)
  end.

(** The end of [process_row], from the upload on. *)
Definition upload_and_mark (args : Args) (row_num : Z) (audio_folder_id filename : string)
    (audio_content : string) : M E unit :=
  link <- try_except
            (link <- upload_audio_file_with_retry audio_folder_id filename
                       audio_content (audio_encoding args) ;;
             if negb (present link) then ret None
             else
               log Info (UploadedRow row_num (match link with Some l => l | None => "" end)) ;;
               ret link)
            (fun e => log Error (UploadError row_num e) ;; ret None) ;;
  match link with
  | None => ret tt
  | Some link =>
      let formula := hyperlink_formula link filename in
      update_sheet_cells_with_retry row_num (audio_link_column args) [formula]
        default_max_retries ;;
      ret tt
  end.

(** The middle of [process_row]: the sentence id and the file name. *)
Definition name_and_upload (args : Args) (row_num : Z) (audio_folder_id : string)
    (audio_content : string) : M E unit :=
  id_result <- values_get {| rg_col := id_column args; rg_first := row_num;
                             rg_last := Some row_num |} ;;
  sentence_id <- first_cell id_result ;;
  if negb (Py.truthy (Py.strip sentence_id)) then
    log Error (MissingSentenceId row_num) ;; ret tt
  else
    n <- int sentence_id ;;
    let filename := ("sentence_" ++ Py.format_06 n ++ ".mp3")%string in
    upload_and_mark args row_num audio_folder_id filename audio_content.

Definition process_row (args : Args) (row_num : Z) (text : string)
    (audio_folder_id : string) : M E unit :=
  if negb (Py.truthy (Py.strip text)) then
    log Warning (RowTextEmpty row_num) ;; ret tt
  else
    log Info (Synthesizing row_num text) ;;
    audio_content <-
      try_except
        (audio_content <- synthesize_speech_with_retry text (voice_name args)
                            (speaking_rate args) (audio_encoding args) ;;
         if negb (present audio_content) then ret None else ret audio_content)
        (fun e => log Error (SynthesisError row_num e) ;; ret None) ;;
    match audio_content with
    | None => ret tt
    | Some audio_content => name_and_upload args row_num audio_folder_id audio_content
    end.

(** *** The reconciliation driver *)

Definition validate_input_parameters (args : Args) : M E unit :=
  if Qle_bool (speaking_rate args) 0 then
    log Error SpeakingRateNotPositive ;; sys_exit 1
  else ret tt.

(** [get_google_services()]: the credentials are obtained, the three
    clients are built. *)
Definition get_google_services : M E unit := remote_call Authenticate (oauth R).

Definition get_spreadsheet_title : M E string :=
  title <- spreadsheet_get ;;
  ret (match title with Some t => t | None => "Untitled_Sheet" end).

Definition test_google_services : M E unit :=
  try_except
    (spreadsheet_get ;;
     log Info SheetsApiWorking ;;
     remote_call (DriveList None) (drive_list R None) ;;
     log Info DriveApiWorking ;;
     (let rq := {| tts_text := "Test audio"; tts_language := "en-US";
                   tts_voice := "en-US-Wavenet-D"; tts_encoding := MP3;
                   tts_rate := None |} in
      remote_call (TtsSynthesize rq) (tts_synthesize R rq)) ;;
     log Info TtsApiWorking)
    (fun e => log Error (ServicesTestFailed e)).

Definition header_range (col : string) : Range :=
  {| rg_col := col; rg_first := 1; rg_last := Some 1 |}.

Definition validate_sheet_structure (text_column audio_link_column id_column : string)
    : M E unit :=
  text_header_result <- values_get (header_range text_column) ;;
  audio_link_header_result <- values_get (header_range audio_link_column) ;;
  id_header_result <- values_get (header_range id_column) ;;
  text_header <- first_cell text_header_result ;;
  audio_link_header <- first_cell audio_link_header_result ;;
  id_header <- first_cell id_header_result ;;
  if negb (Py.truthy (Py.strip text_header)) then
    log Error (HeaderMissing text_column) ;; sys_exit 1
  else if negb (Py.truthy (Py.strip audio_link_header)) then
    log Error (HeaderMissing audio_link_column) ;; sys_exit 1
  else if negb (Py.truthy (Py.strip id_header)) then
    log Error (HeaderMissing id_column) ;; sys_exit 1
  else if negb (String.eqb (Py.lower text_header) "translation") then
    log Error (HeaderMismatch "translation" text_header) ;; sys_exit 1
  else if negb (String.eqb (Py.lower audio_link_header) "audio_file") then
    log Error (HeaderMismatch "audio_file" audio_link_header) ;; sys_exit 1
  else if negb (String.eqb (Py.lower id_header) "sentence_id") then
    log Error (HeaderMismatch "sentence_id" id_header) ;; sys_exit 1
  else log Info StructureValidated.

(** The [for row_num in rows_to_process] loop of [main]. *)
Fixpoint process_rows (args : Args) (text_col_values : list string)
    (audio_folder_id : string) (rows_to_process : list Z) : M E unit :=
  match rows_to_process with
  | [] => ret tt
  | row_num :: rest =>
      let idx := row_num - start_row args in
      text <- match Py.index text_col_values idx with
              | Some t => ret t
              | None => raise IndexError
              end ;;
      process_row args row_num text audio_folder_id ;;
      process_rows args text_col_values audio_folder_id rest
  end.

Fixpoint log_all (lvl : level) (rs : list log_record) : M E unit :=
  match rs with
  | [] => ret tt
  | r :: rest => log lvl r ;; log_all lvl rest
  end.

(** The call of [find_rows_needing_audio] with its warnings logged. *)
Definition find_rows (audio_col_values text_col_values : list string) (start_row : Z)
    : M E (list Z) :=
  log_all Warning
    (map (fun g => match g with EmptyTextRow row => RowHasNoText row end)
         (find_rows_warnings audio_col_values text_col_values start_row)) ;;
  ret (find_rows_needing_audio audio_col_values text_col_values start_row).

(** [main] once the gap is known not to be empty. *)
Definition process_gap (args : Args) (spreadsheet_title : string)
    (text_col_values : list string) (rows_to_process : list Z) : M E unit :=
  log Info (FoundRows (List.length rows_to_process)) ;;
  audio_folder_id <- create_or_get_audio_folder (dest_folder_id args) spreadsheet_title ;;
  log Info (UploadingTo audio_folder_id) ;;
  rows_to_process <-
    match max_rows args with
    | Some n => log Info (LimitingRows n) ;; ret (Py.slice_to rows_to_process n)
    | None => ret rows_to_process
    end ;;
  validate_sheet_structure (text_column args) (audio_link_column args) (id_column args) ;;
  process_rows args text_col_values audio_folder_id rows_to_process ;;
  log Info GenerationComplete.

(** [main] once both columns are read: the length check, the gap, and the
    processing of the gap. *)
Definition reconcile (args : Args) (spreadsheet_title : string)
    (text_col_values audio_col_values : list string) : M E unit :=
  if negb (Nat.eqb (List.length audio_col_values) (List.length text_col_values)) then
    log Error (ColumnLengthMismatch (List.length audio_col_values)
                                    (List.length text_col_values)) ;;
    sys_exit 1
  else
    rows_to_process <- find_rows audio_col_values text_col_values (start_row args) ;;
    match rows_to_process with
    | [] => log Info NoRowsNeedAudio ;; sys_exit 0
    | _ => process_gap args spreadsheet_title text_col_values rows_to_process
    end.

Definition main (args : Args) : M E unit :=
  validate_input_parameters args ;;
  get_google_services ;;
  log Info TestingServices ;;
  test_google_services ;;
  spreadsheet_title <- get_spreadsheet_title ;;
  ensure_column_header (audio_link_column args) "audio_file" ;;
  text_col_values <- read_sheet_column (text_column args) (start_row args) None ;;
  audio_col_values <- read_sheet_column (audio_link_column args) (start_row args)
                        (Some (Z.of_nat (List.length text_col_values))) ;;
  reconcile args spreadsheet_title text_col_values audio_col_values.

End Engine.

(** The loop as a recursion over the two columns. *)
Fixpoint gap_from (idx : Z) (markers sources : list string) (start_row : Z) : list Z :=
  match markers, sources with
  | m :: markers', s :: sources' =>
      if negb (Py.blank s) && Py.blank m
      then (start_row + idx) :: gap_from (idx + 1) markers' sources' start_row
      else gap_from (idx + 1) markers' sources' start_row
  | _, _ => []
  end.

(** ** The retry policy, as the specification words it *)

Section RetryPolicy.

Context {E : Type} (R : Remote E) {A : Type}.
Variable func : M E A.
Variables (max_retries : Z) (base_delay max_delay : Q).

(** [follows_policy k w r n]: [k] attempts have failed so far and the world
    is [w]; the rest of the execution is the run [r], and [n] is the number
    of times [func] has been invoked when it ends.  Attempts are counted
    from 1. *)
Inductive follows_policy : nat -> World E -> run E (option A) -> nat -> Prop :=
| policy_no_attempt w :
    max_retries <= 0 ->
    follows_policy 0 w (Run (Return None) w []) 0
| policy_success k w a :
    Z.of_nat (S k) <= max_retries ->
    out (func w) = Return a ->
    follows_policy k w
      (Run (Return (Some a)) (after (func w)) (emitted (func w))) (S k)
| policy_exit k w code :
    Z.of_nat (S k) <= max_retries ->
    out (func w) = Exit code ->
    follows_policy k w (Run (Exit code) (after (func w)) (emitted (func w))) (S k)
| policy_last_failure k w e :
    Z.of_nat (S k) = max_retries ->
    out (func w) = Raise e ->
    follows_policy k w (Run (Raise e) (after (func w)) (emitted (func w))) (S k)
| policy_retry k w e jitter w' delay r n :
    Z.of_nat (S k) < max_retries ->
    out (func w) = Raise e ->
    random_uniform R 0 1 (after (func w)) = Run (Return jitter) w' [] ->
    (0 <= jitter)%Q -> (jitter < 1)%Q ->
    (delay == Qmin (base_delay * inject_Z (2 ^ (Z.of_nat (S k) - 1)) + jitter) max_delay)%Q ->
    follows_policy (S k) w' r n ->
    follows_policy k w
      (Run (out r) (after r)
           (emitted (func w)
            ++ [Logged Warning (RetryingAfter delay e); Slept delay] ++ emitted r))
      n.

End RetryPolicy.

(** ** The poller of [translate_sheet_generator.py] *)

Section Poller.

Context {E : Type}.

(** The sheet service of the translation script: its answer to a read of a
    range comes from the hidden state, where the formula engine works on
    the translations. *)
Variable sheets_values : Range -> E -> reply (list (list string)) * E.

Definition print (msg : string) : M E unit := emit (Printed msg).

(** [row and not row[0].startswith("=")] *)
Definition row_resolved (row : list string) : bool :=
  match row with
  | [] => false
  | text :: _ => negb (Py.startswith text "=")
  end.

(** [len(values) == num_rows and all(... for row in values)] *)
Definition all_resolved (num_rows : Z) (values : list (list string)) : bool :=
  (Z.of_nat (List.length values) =? num_rows) && forallb row_resolved values.

Definition poll_range (formula_col_letter : string) (start_row num_rows : Z) : Range :=
  {| rg_col := formula_col_letter; rg_first := start_row;
     rg_last := Some (start_row + num_rows - 1) |}.

(** One read of the targeted range. *)
Definition poll_once (formula_col_letter : string) (start_row num_rows : Z)
    : M E (list (list string)) :=
  let range_ := poll_range formula_col_letter start_row num_rows in
  remote_call (SheetsGet range_) (sheets_values range_).

(** The [while True] loop, run for at most [fuel] rounds; [None] tells that
    the loop is still going when the fuel is used up. *)
Fixpoint poll (fuel : nat) (formula_col_letter : string) (start_row num_rows : Z)
    : M E (option (list (list string))) :=
  match fuel with
  | O => ret None
  | S fuel' =>
      values <- poll_once formula_col_letter start_row num_rows ;;
      if all_resolved num_rows values then
        print "All translations completed." ;;
        ret (Some values)
      else
        print "...still waiting, sleeping 15 seconds" ;;
        sleep (inject_Z 15) ;;
        poll fuel' formula_col_letter start_row num_rows
  end.

Definition wait_for_translations (fuel : nat) (formula_col_letter : string)
    (start_row num_rows : Z) : M E (option (list (list string))) :=
  print "Waiting for Google Translate formulas to resolve..." ;;
  poll fuel formula_col_letter start_row num_rows.

(** The condition of success as the specification words it: as many cells
    as expected, every cell non-empty, no cell's text beginning with the
    formula marker.  A cell comes back as a row: the empty row for an
    empty cell, else its text. *)
Definition resolved (num_rows : Z) (values : list (list string)) : Prop :=
  Z.of_nat (List.length values) = num_rows
  /\ Forall (fun cell => cell <> []) values
  /\ Forall (fun cell => forall text rest, cell = text :: rest ->
                                            Py.startswith text "=" = false) values.

(** The world after [n] reads of the range. *)
Fixpoint after_polls (n : nat) (formula_col_letter : string) (start_row num_rows : Z)
    (w : World E) : World E :=
  match n with
  | O => w
  | S n' =>
      after_polls n' formula_col_letter start_row num_rows
        (after (poll_once formula_col_letter start_row num_rows w))
  end.

(** The first [n] reads are answered, and none of the answers satisfies the
    condition. *)
Fixpoint unresolved_for (n : nat) (formula_col_letter : string) (start_row num_rows : Z)
    (w : World E) : Prop :=
  match n with
  | O => True
  | S n' =>
      (exists values,
         out (poll_once formula_col_letter start_row num_rows w) = Return values
         /\ ~ resolved num_rows values)
      /\ unresolved_for n' formula_col_letter start_row num_rows
           (after (poll_once formula_col_letter start_row num_rows w))
  end.

(** The sleeps among the events. *)
Fixpoint sleeps (evs : list event) : list Q :=
  match evs with
  | [] => []
  | Slept d :: r => d :: sleeps r
  | _ :: r => sleeps r
  end.

End Poller.

(** ** A scripted environment, for running the program on examples *)

(** The hidden state is the list of faults still to come, one entry for
    each request; when the list is used up every request succeeds. *)
Definition Script := list (option exn).

Definition next_fault (s : Script) : option exn * Script :=
  match s with
  | [] => (None, [])
  | f :: r => (f, r)
  end.

Definition answer {A : Type} (a : A) (s : Script) : reply A * Script :=
  match next_fault s with
  | (Some e, r) => (Failed e, r)
  | (None, r) => (Ok a, r)
  end.

Definition scripted : Remote Script := {|
  render := fun v => v;
  oauth := answer tt;
  sheets_fault := next_fault;
  sheets_title := fun _ => Some "Sentences";
  drive_list := fun q => answer (match q with Some _ => ["folder-1"] | None => [] end);
  drive_create_folder := fun _ _ => answer "folder-1";
  drive_upload := fun u => answer (Some ("https://drive.example/" ++ up_name u)%string);
  tts_synthesize := fun rq => answer ("audio:" ++ tts_text rq)%string;
  random_bits := fun s => (0%N, s)
|}.

Definition sheet_of (columns : list (string * list string)) : Sheet :=
  fun c =>
    match find (fun p => String.eqb (fst p) c) columns with
    | Some p => snd p
    | None => []
    end.

Definition demo_args : Args := {|
  sheet_id := "sheet-1";
  source_tab_name := "Sheet1";
  text_column := "C";
  start_row := 2;
  audio_link_column := "D";
  dest_folder_id := "parent-1";
  voice_name := "zh-CN-Wavenet-A";
  speaking_rate := 1;
  audio_encoding := MP3;
  max_rows := None;
  id_column := "A"
|}.

(** Two sentences and an empty third row, no audio yet. *)
Definition demo_sheet : Sheet :=
  sheet_of [("A", ["sentence_id"; "1"; "2"; "3"]);
            ("B", ["sentence"; "The cat sat."; "It rained."; ""]);
            ("C", ["translation"; "Le chat."; "Il a plu."; ""])].

Definition demo_world : World Script := {| sheet := demo_sheet; remote := [] |}.

(** The same sheet while a service is down: the next five requests fail. *)
Definition outage : Script := repeat (Some (HttpError "503")) 5.

Definition outage_world : World Script := {| sheet := demo_sheet; remote := outage |}.

(** The same run asked for Ogg Opus audio. *)
Definition ogg_args : Args := {|
  sheet_id := "sheet-1";
  source_tab_name := "Sheet1";
  text_column := "C";
  start_row := 2;
  audio_link_column := "D";
  dest_folder_id := "parent-1";
  voice_name := "zh-CN-Wavenet-A";
  speaking_rate := 1;
  audio_encoding := OGG_OPUS;
  max_rows := None;
  id_column := "A"
|}.

(** A sheet whose first sentence has an id that is no number. *)
Definition bad_id_sheet : Sheet :=
  sheet_of [("A", ["sentence_id"; "abc"; "2"]);
            ("B", ["sentence"; "The cat sat."; "It rained."]);
            ("C", ["translation"; "Le chat."; "Il a plu."])].

Definition bad_id_world : World Script := {| sheet := bad_id_sheet; remote := [] |}.

(** The demo sheet on a day when the fourteenth request fails: it is the
    fetch of the sentence id of the first gap row. *)
Definition id_fetch_fails : World Script :=
  {| sheet := demo_sheet; remote := repeat None 13 ++ [Some (HttpError "500")] |}.

(** A sheet whose text column has the wrong header. *)
Definition bad_header_sheet : Sheet :=
  sheet_of [("A", ["sentence_id"; "1"; "2"]);
            ("B", ["sentence"; "The cat sat."; "It rained."]);
            ("C", ["text"; "Le chat."; "Il a plu."])].

Definition bad_header_world : World Script := {| sheet := bad_header_sheet; remote := [] |}.

(** The same with every audio link already there. *)
Definition bad_header_done_sheet : Sheet :=
  sheet_of [("A", ["sentence_id"; "1"; "2"]);
            ("B", ["sentence"; "The cat sat."; "It rained."]);
            ("C", ["text"; "Le chat."; "Il a plu."]);
            ("D", ["audio_file"; "link 1"; "link 2"])].

Definition bad_header_done_world : World Script :=
  {| sheet := bad_header_done_sheet; remote := [] |}.

(** A formula engine that needs three reads: nothing yet, then a formula
    still showing, then the two translations. *)
Definition answers_in_turn (rg : Range) (pending : list (list (list string)))
    : reply (list (list string)) * list (list (list string)) :=
  match pending with
  | [] => (Ok [], [])
  | values :: rest => (Ok values, rest)
  end.

Definition slow_engine : World (list (list (list string))) :=
  {| sheet := sheet_of [];
     remote := [ [];
                 [["=GOOGLETRANSLATE(B2)"]; ["Il a plu."]];
                 [["Le chat."]; ["Il a plu."]] ] |}.

(** A day when the one request that fails is the first of the self-test of
    the services, whose failure the program only logs. *)
Definition flaky_test : Script := [None; Some (HttpError "503")].

(** A sheet with no sentence but a stray link in the marker column. *)
Definition stray_marker_sheet : Sheet :=
  sheet_of [("A", ["sentence_id"]); ("C", ["translation"]); ("D", ["audio_file"; "link"])].

Definition stray_marker_world : World Script :=
  {| sheet := stray_marker_sheet; remote := [] |}.

(** The demo sheet with a marker column that another tool has headed. *)
Definition stale_header_sheet : Sheet :=
  sheet_of [("A", ["sentence_id"; "1"; "2"]);
            ("B", ["sentence"; "The cat sat."; "It rained."]);
            ("C", ["translation"; "Le chat."; "Il a plu."]);
            ("D", ["links"])].

Definition stale_header_world : World Script :=
  {| sheet := stale_header_sheet; remote := [] |}.

(** ** Observations on runs *)

Definition is_update (ev : event) : bool :=
  match ev with SheetsUpdate _ _ => true | _ => false end.

(** A computation that never writes to the sheet: whatever the world, the
    sheet is the same afterwards and no update request is sent. *)
Definition writes_nothing {E A : Type} (c : M E A) : Prop :=
  forall w, sheet (after (c w)) = sheet w
            /\ Forall (fun ev => is_update ev = false) (emitted (c w)).

Section SheetView.

Context {E : Type} (R : Remote E).

(** What [read_sheet_column] returns on the sheet [s] when its request
    succeeds. *)
Definition sheet_column (s : Sheet) (column_letter : string) (start_row : Z)
    (force_row_count : option Z) : list string :=
  column_of_values force_row_count
    (range_values R s (column_range column_letter start_row force_row_count)).

(** The sheet once [main] has made sure of the header of the marker
    column. *)
Definition with_header (s : Sheet) (args : Args) : Sheet :=
  write_column s (audio_link_column args) 1 ["audio_file"].

(** The two columns a run reads on the sheet [s], and the gap it computes
    from them. *)
Definition next_text (s : Sheet) (args : Args) : list string :=
  sheet_column (with_header s args) (text_column args) (start_row args) None.

Definition next_audio (s : Sheet) (args : Args) : list string :=
  sheet_column (with_header s args) (audio_link_column args) (start_row args)
    (Some (Z.of_nat (List.length (next_text s args)))).

Definition next_gap (s : Sheet) (args : Args) : list Z :=
  find_rows_needing_audio (next_audio s args) (next_text s args) (start_row args).

End SheetView.

(** ** The state machine of a run *)

(** A computation all of whose events satisfy [P], and which does not end
    the process with status 0. *)
Definition emits_only {E A : Type} (P : event -> Prop) (c : M E A) : Prop :=
  forall w, Forall P (emitted (c w)) /\ out (c w) <> Exit 0.

(** The phases of a run of [main], as its events show them. *)
Inductive phase :=
| Init             (* nothing read yet *)
| TextRead         (* the source column is read *)
| StateRead        (* the marker column is read too *)
| GapComputed      (* the gap is known, and it is not empty *)
| Validated        (* the three headers are as required *)
| Aborted.         (* a header is missing or wrong *)

Definition range_eqb (a b : Range) : bool :=
  String.eqb (rg_col a) (rg_col b) && (rg_first a =? rg_first b)
  && match rg_last a, rg_last b with
     | None, None => true
     | Some x, Some y => x =? y
     | _, _ => false
     end.

(** The read of a header cell of one of the three columns. *)
Definition reads_header (args : Args) (rg : Range) : bool :=
  existsb (fun c => range_eqb rg {| rg_col := c; rg_first := 1; rg_last := Some 1 |})
          [text_column args; audio_link_column args; id_column args].

(** The read of the id cell of one row. *)
Definition reads_id (args : Args) (rg : Range) : bool :=
  String.eqb (rg_col rg) (id_column args)
  && match rg_last rg with Some last => last =? rg_first rg | None => false end.

(** The phase after an event, or [None] when the event is out of place in
    the phase.  The events that tell the phases apart are the reads of the
    sheet, the count of rows found, the verdict on the headers and the start
    of a row; every other event leaves the phase as it is. *)
Definition step (args : Args) (p : phase) (ev : event) : option phase :=
  match p with
  | Aborted => None
  | _ =>
    match ev with
    | SheetsGet rg =>
        match p with
        | Init =>
            if range_eqb rg {| rg_col := text_column args; rg_first := start_row args;
                               rg_last := None |}
            then Some TextRead else None
        | TextRead =>
            if String.eqb (rg_col rg) (audio_link_column args)
               && (rg_first rg =? start_row args)
            then Some StateRead else None
        | GapComputed => if reads_header args rg then Some GapComputed else None
        | Validated => if reads_id args rg then Some Validated else None
        | _ => None
        end
    | Logged _ (FoundRows _) =>
        match p with StateRead => Some GapComputed | _ => None end
    | Logged _ StructureValidated =>
        match p with GapComputed => Some Validated | _ => None end
    | Logged _ (HeaderMissing _) | Logged _ (HeaderMismatch _ _) =>
        match p with GapComputed => Some Aborted | _ => None end
    | Logged _ (Synthesizing _ _) | Logged _ (RowTextEmpty _) =>
        match p with Validated => Some Validated | _ => None end
    | _ => Some p
    end
  end.

Fixpoint phases (args : Args) (p : phase) (evs : list event) : option phase :=
  match evs with
  | [] => Some p
  | ev :: rest =>
      match step args p ev with
      | Some q => phases args q rest
      | None => None
      end
  end.

(** From phase [p] the computation [c] is in order: its events are accepted,
    they end in phase [q] when [c] returns, they end in [Aborted] only when
    the process exits with status 1, and the process exits with status 0
    only in the phase [StateRead]. *)
Definition lands {E A : Type} (args : Args) (p : phase) (c : M E A) (q : phase) : Prop :=
  forall w, exists q',
    phases args p (emitted (c w)) = Some q'
    /\ (forall a, out (c w) = Return a -> q' = q)
    /\ (q' = Aborted -> out (c w) = Exit 1)
    /\ (out (c w) = Exit 0 -> q' = StateRead).

(** What an event tells of the headers, if it tells anything: [true] for the
    record that they are as required, [false] for the record of a header
    that is missing or wrong. *)
Definition verdict (ev : event) : option bool :=
  match ev with
  | Logged _ StructureValidated => Some true
  | Logged _ (HeaderMissing _) | Logged _ (HeaderMismatch _ _) => Some false
  | _ => None
  end.

(** An exit of [c], started in phase [p], does not leave the run in the
    phase [GapComputed]: the process ends before the gap is found to hold
    rows, or on the verdict on the headers. *)
Definition exits_decided {E A : Type} (args : Args) (p : phase) (c : M E A) : Prop :=
  forall w n q,
    out (c w) = Exit n -> phases args p (emitted (c w)) = Some q -> q <> GapComputed.

(** ** Specifications of computations *)

(** From a world that satisfies [P], the outcome of [c] and the world it
    leaves satisfy [Q]. *)
Definition triple {E A : Type} (P : World E -> Prop) (c : M E A)
    (Q : outcome A -> World E -> Prop) : Prop :=
  forall w, P w -> Q (out (c w)) (after (c w)).

(** A computation that does not end the process, and that changes the sheet
    only as the relation [rel] allows. *)
Definition steady {E A : Type} (rel : Sheet -> Sheet -> Prop) (c : M E A) : Prop :=
  forall w, rel (sheet w) (sheet (after (c w))) /\ (forall n, out (c w) <> Exit n).

(** The sheet [s'] differs from [s] at most in the marker cells of the rows
    [rows]. *)
Definition changes_within (marker_column : string) (rows : list Z) (s s' : Sheet) : Prop :=
  (forall col, col <> marker_column -> s' col = s col)
  /\ (forall row, ~ In row rows -> cell s' marker_column row = cell s marker_column row).

Section Headers.

Context {E : Type} (R : Remote E).

(** The header a run finds in a column of the sheet [s]. *)
Definition header_value (s : Sheet) (col : string) : string :=
  match range_values R s (header_range col) with
  | (v :: _) :: _ => v
  | _ => ""
  end.

(** The three headers pass [validate_sheet_structure]. *)
Definition headers_ok (s : Sheet) (args : Args) : Prop :=
  Py.blank (header_value s (text_column args)) = false
  /\ Py.blank (header_value s (audio_link_column args)) = false
  /\ Py.blank (header_value s (id_column args)) = false
  /\ Py.lower (header_value s (text_column args)) = "translation"
  /\ Py.lower (header_value s (audio_link_column args)) = "audio_file"
  /\ Py.lower (header_value s (id_column args)) = "sentence_id".

(** What a cell of the marker column shows. *)
Definition marker_shown (s : Sheet) (args : Args) (row : Z) : string :=
  shown R (cell s (audio_link_column args) row).

End Headers.

Section DriverSpecs.

Context {E : Type} (R : Remote E) (args : Args).

(** The worlds whose sheet is [s]. *)
Definition at_sheet (s : Sheet) : World E -> Prop := fun w => sheet w = s.

(** An event that tells of the headers tells the truth about those of the
    sheet [s]. *)
Definition sound_verdict (s : Sheet) (ev : event) : Prop :=
  match verdict ev with
  | Some true => headers_ok R s args
  | Some false => ~ headers_ok R s args
  | None => True
  end.

(** From a world that satisfies [P], what [c] tells of the headers is true
    of the sheet [s]. *)
Definition judged {A : Type} (s : Sheet) (P : World E -> Prop) (c : M E A) : Prop :=
  forall w, P w -> Forall (sound_verdict s) (emitted (c w)).

(** What holds when [validate_sheet_structure] ends: the sheet is as it
    was; a return tells that the headers are as required, and an exit has
    status 1. *)
Definition validate_post (s : Sheet) (o : outcome unit) (w' : World E) : Prop :=
  sheet w' = s
  /\ match o with
     | Return _ => headers_ok R s args
     | Raise _ => True
     | Exit n => n = 1
     end.

(** What holds when [process_gap] ends, for the gap [rows]. *)
Definition process_gap_post (s : Sheet) (rows : list Z) (o : outcome unit)
    (w' : World E) : Prop :=
  match o with
  | Return _ =>
      headers_ok R s args
      /\ changes_within (audio_link_column args) rows s (sheet w')
  | Raise _ => True
  | Exit n => n = 1
  end.

(** What holds when [reconcile] ends, on the sheet [s] and the two columns
    read from it: an exit with status 1 for columns of unequal length or for
    a gap that meets bad headers, the exit with status 0 for an empty gap,
    with the sheet untouched, and a normal return for a gap that is not
    empty, the headers being as required and the sheet changed at most in
    the marker cells of the gap rows. *)
Definition reconcile_post (s : Sheet) (texts audios : list string)
    (o : outcome unit) (w' : World E) : Prop :=
  let gap := find_rows_needing_audio audios texts (start_row args) in
  match o with
  | Raise _ => True
  | Exit n =>
      (n = 1 /\ (List.length audios <> List.length texts \/ gap <> []))
      \/ (n = 0 /\ List.length audios = List.length texts /\ gap = []
          /\ sheet w' = s)
  | Return _ =>
      List.length audios = List.length texts /\ gap <> []
      /\ headers_ok R s args
      /\ changes_within (audio_link_column args) gap s (sheet w')
  end.

(** What holds when [main] ends, started on the sheet [s]. *)
Definition main_post (s : Sheet) (o : outcome unit) (w' : World E) : Prop :=
  match o with
  | Raise _ => True
  | _ =>
      (Qle_bool (speaking_rate args) 0 = true /\ o = Exit 1)
      \/ (Qle_bool (speaking_rate args) 0 = false
          /\ 1 <= start_row args
          /\ reconcile_post (with_header s args) (next_text R s args)
               (next_audio R s args) o w')
  end.

End DriverSpecs.

(** ** Further observations *)

(** The positions both columns have. *)
Definition common_length (markers sources : list string) : nat :=
  Nat.min (List.length markers) (List.length sources).

(** The rows [process_row] is called on, as its first log record of each
    call shows them. *)
Fixpoint rows_called (evs : list event) : list Z :=
  match evs with
  | [] => []
  | Logged _ (Synthesizing row _) :: rest => row :: rows_called rest
  | Logged _ (RowTextEmpty row) :: rest => row :: rows_called rest
  | _ :: rest => rows_called rest
  end.

Definition is_call (ev : event) : bool :=
  match ev with
  | Logged _ (Synthesizing _ _) | Logged _ (RowTextEmpty _) => true
  | _ => false
  end.

Definition is_empty_text_warning (ev : event) : bool :=
  match ev with
  | Logged _ (RowTextEmpty _) => true
  | _ => false
  end.

(** The gap list once [max_rows] is applied. *)
Definition capped (args : Args) (rows : list Z) : list Z :=
  match max_rows args with
  | Some n => Py.slice_to rows n
  | None => rows
  end.

(** [l] begins with [p]. *)
Definition is_prefix {A : Type} (p l : list A) : Prop := exists rest, l = p ++ rest.

(** The sum of a list of delays. *)
Fixpoint total (ds : list Q) : Q :=
  match ds with
  | [] => 0
  | d :: rest => d + total rest
  end.

(** A computation that never raises. *)
Definition never_raises {E A : Type} (c : M E A) : Prop :=
  forall w e, out (c w) <> Raise e.

(** A computation that changes the sheet only as [rel] allows, however it
    ends. *)
Definition keeps {E A : Type} (rel : Sheet -> Sheet -> Prop) (c : M E A) : Prop :=
  forall w, rel (sheet w) (sheet (after (c w))).

(** The sheets that agree outside the column [col]. *)
Definition same_outside (col : string) (s s' : Sheet) : Prop :=
  forall c, c <> col -> s' c = s c.

(** The language code [synthesize_speech] takes from a voice name. *)
Definition language_code (voice_name : string) : string :=
  Py.join "-" (firstn 2 (Py.split "-" voice_name)).

(** [c in s] for a character. *)
Fixpoint contains (c : ascii) (s : string) : bool :=
  match s with
  | EmptyString => false
  | String a r => Ascii.eqb a c || contains c r
  end.

(** The delays the retry loop may sleep: one for each attempt of the list
    that is not the last attempt allowed, each below the uncapped delay
    with the largest jitter. *)
Fixpoint sleep_budget (base_delay : Q) (max_retries : Z) (attempts : list Z) : Q :=
  match attempts with
  | [] => 0
  | attempt :: rest =>
      (if attempt =? max_retries - 1 then 0
       else base_delay * inject_Z (2 ^ attempt) + 1)
      + sleep_budget base_delay max_retries rest
  end.

(** The attempts of the list after which the loop may sleep. *)
Fixpoint sleeping_attempts (max_retries : Z) (attempts : list Z) : nat :=
  match attempts with
  | [] => 0
  | attempt :: rest =>
      (if attempt =? max_retries - 1 then 0 else 1)
      + sleeping_attempts max_retries rest
  end.

(** Every character of [s] passes [p]. *)
Fixpoint all_chars (p : ascii -> bool) (s : string) : bool :=
  match s with
  | EmptyString => true
  | String c r => p c && all_chars p r
  end.

Definition is_digit (c : ascii) : bool :=
  match Py.digit_of c with Some _ => true | None => false end.

(** [s.count(c)] for a character. *)
Fixpoint count_char (c : ascii) (s : string) : nat :=
  match s with
  | EmptyString => O
  | String a r => ((if Ascii.eqb a c then 1 else 0) + count_char c r)%nat
  end.

(** ** The sentence extractor (anki_sentence_extractor.py) *)

Module Anki.

(** A JSON object as the list of its members: a key occurs once. *)
Definition object (V : Type) := list (string * V).

(** [d.get(key)], with [None] where the key is absent. *)
Fixpoint get {V : Type} (d : object V) (key : string) : option V :=
  match d with
  | [] => None
  | (k, v) :: rest => if String.eqb k key then Some v else get rest key
  end.

(** A field of a note, as [notesInfo] answers it: the text is under the key
    [value]. *)
Record Field := { value : option string }.

(** A note: the fields by name, if the note has any. *)
Record Note := { fields : option (object Field) }.

(** One turn of the loop of [extract_sentences]: what is done with [note]
    when [sentences] have been collected. *)
Definition extract_step (field_name : string) (sentences : list string) (note : Note)
    : list string :=
  let fields := match fields note with Some d => d | None => [] end in
  match get fields field_name with
  | Some f =>
      let sentence := Py.strip (match value f with Some v => v | None => "" end) in
      if Py.truthy sentence then sentences ++ [sentence] else sentences
  | None => sentences
  end.

(** The sentences when the loop of [extract_sentences] ends. *)
Definition extract_loop (field_name : string) (notes : list Note) : list string :=
  fold_left (extract_step field_name) notes [].

(** The line feed. *)
Definition LF : ascii := ascii_of_nat 10.

(** [f.write(f"{sentence}\n")] on the text [f] written so far. *)
Definition write_line (f sentence : string) : string :=
  (f ++ sentence ++ String LF EmptyString)%string.

(** The text of the file when [write_sentences] ends: the file is opened
    with mode "w", so it starts empty. *)
Definition written (sentences : list string) : string :=
  fold_left write_line sentences EmptyString.

(** The line feeds inside the sentences. *)
Fixpoint inner_line_feeds (sentences : list string) : nat :=
  match sentences with
  | [] => O
  | s :: rest => (count_char LF s + inner_line_feeds rest)%nat
  end.

End Anki.

(** ** The rows of the translation sheet (translate_sheet_generator.py) *)

Module Translate.

(** A cell of a row sent to the sheet: a number or a text. *)
Inductive cellv :=
| Num (n : Z)
| Text (s : string).

(** [str(n)] of an integer. *)
Definition str_int (n : Z) : string :=
  ((if (n <? 0)%Z then "-" else "") ++ NilZero.string_of_uint (N.to_uint (Z.abs_N n)))%string.

(** The formula of the sentence numbered [i]. *)
Definition formula (target_lang : string) (i : Z) : string :=
  ("=GOOGLETRANSLATE(B" ++ str_int (i + 1)%Z ++ ", " ++ dquote ++ "en" ++ dquote
   ++ ", " ++ dquote ++ target_lang ++ dquote ++ ")")%string.

(** The loop of [main] that builds the rows, [rows] being those built so
    far: [row[0]] raises on an empty row. *)
Fixpoint rows_loop (target_lang : string) (items : list (Z * list string))
    (rows : list (list cellv)) : outcome (list (list cellv)) :=
  match items with
  | [] => Return rows
  | (i, row) :: rest =>
      let sid := i in
      match Py.index row 0 with
      | None => Raise IndexError
      | Some english =>
          rows_loop target_lang rest
            (rows ++ [[Num sid; Text english; Text (formula target_lang i)]])
      end
  end.

(** [for i, row in enumerate(english_sentences, start=1)] *)
Definition build_rows (target_lang : string) (english_sentences : list (list string))
    : outcome (list (list cellv)) :=
  rows_loop target_lang (Py.enumerate_from 1 english_sentences) [].

End Translate.

(** * Properties *)

Example format_06_examples :
  Py.format_06 7 = "000007" /\ Py.format_06 1234567 = "1234567"
  /\ Py.format_06 (-5) = "-00005" /\ Py.int_of_string " 1_000 " = Some 1000
  /\ Py.int_of_string "abc" = None /\ Py.int_of_string "1__0" = None
  /\ Py.join "-" (firstn 2 (Py.split "-" "en-US-Wavenet-D")) = "en-US"
  /\ Py.lower "Audio_File" = "audio_file"
  /\ Py.slice_to [1; 2; 3] (-1) = [1; 2] /\ Py.index [1; 2; 3] 3 = None.
Proof. repeat split; reflexivity. Qed.

(** [int] and [strip] do not skip the same whitespace: the unit separator
    before a digit is dropped by [strip] and refused by [int], the no-break
    space is skipped by both. *)
Example int_whitespace_examples :
  Py.strip (String (ascii_of_nat 31) "5") = "5"
  /\ Py.int_of_string (String (ascii_of_nat 31) "5") = None
  /\ Py.int_of_string (String (ascii_of_nat 160) "5") = Some 5
  /\ Py.int_of_string (String (ascii_of_nat 9) "-5 ") = Some (-5)
  /\ Py.int_of_string "- 5" = None /\ Py.int_of_string "5_" = None.
Proof. repeat split; reflexivity. Qed.

(** ** Stripping and blank strings *)

Lemma rstrip_empty_blank (s : string) :
  Py.truthy (Py.rstrip s) = negb (Py.blank s).
Proof.
  induction s as [|c r IH]; simpl; [reflexivity|].
  destruct (Py.rstrip r) eqn:Hr; simpl in *.
  - destruct (Py.blank r); [|discriminate].
    destruct (Py.is_space c); reflexivity.
  - destruct (Py.blank r); [discriminate|].
    now rewrite andb_false_r.
Qed.

Lemma blank_lstrip (s : string) : Py.blank (Py.lstrip s) = Py.blank s.
Proof.
  induction s as [|c r IH]; simpl; [reflexivity|].
  destruct (Py.is_space c) eqn:Hc; simpl; [exact IH|].
  now rewrite Hc.
Qed.

(** [s.strip()] is empty exactly when [s] is made of whitespace only. *)
Lemma strip_truthy (s : string) : Py.truthy (Py.strip s) = negb (Py.blank s).
Proof. unfold Py.strip. now rewrite rstrip_empty_blank, blank_lstrip. Qed.

(** ** The gap detector *)

Lemma find_rows_loop_gap_from (markers sources : list string) (start_row idx : Z)
    (acc : list Z) (warned : list gap_warning) :
  fst (fold_left (gap_step start_row)
         (Py.enumerate_from idx (Py.zip markers sources)) (acc, warned))
  = acc ++ gap_from idx markers sources start_row.
Proof.
  revert sources idx acc warned.
  induction markers as [|m markers IH]; intros [|s sources] idx acc warned;
    simpl; try now rewrite app_nil_r.
  rewrite !strip_truthy, !negb_involutive.
  destruct (Py.blank s); simpl.
  - apply IH.
  - destruct (Py.blank m); simpl.
    + rewrite IH, <- app_assoc. reflexivity.
    + apply IH.
Qed.

Lemma find_rows_needing_audio_gap_from (markers sources : list string) (start_row : Z) :
  find_rows_needing_audio markers sources start_row = gap_from 0 markers sources start_row.
Proof.
  unfold find_rows_needing_audio, find_rows_loop, Py.enumerate.
  now rewrite find_rows_loop_gap_from.
Qed.

Lemma filter_seq_succ (f : nat -> bool) (n : nat) :
  filter f (seq 0 (S n))
  = (if f O then [O] else []) ++ map S (filter (fun i => f (S i)) (seq 0 n)).
Proof.
  change (seq 0 (S n)) with (O :: seq 1 n).
  rewrite <- seq_shift. simpl.
  assert (H : filter f (map S (seq 0 n)) = map S (filter (fun i => f (S i)) (seq 0 n))).
  { induction (seq 0 n) as [|x l IH]; simpl; [reflexivity|].
    destruct (f (S x)); simpl; now rewrite IH. }
  rewrite H. destruct (f O); reflexivity.
Qed.

Lemma gap_from_gap_rows (markers sources : list string) (start_row idx : Z) :
  List.length markers = List.length sources ->
  gap_from idx markers sources start_row
  = map (fun i => start_row + idx + Z.of_nat i)
        (filter (in_gap markers sources) (seq 0 (List.length sources))).
Proof.
  revert sources idx.
  induction markers as [|m markers IH]; intros [|s sources] idx Hlen;
    simpl in Hlen; try discriminate; [reflexivity|].
  injection Hlen as Hlen.
  cbn [gap_from List.length]. rewrite filter_seq_succ.
  rewrite map_app, map_map.
  rewrite (IH sources (idx + 1) Hlen).
  change (in_gap (m :: markers) (s :: sources) 0)
    with (negb (Py.blank s) && Py.blank m).
  rewrite (map_ext (fun i => start_row + (idx + 1) + Z.of_nat i)
             (fun i => start_row + idx + Z.of_nat (S i))) by (intros; lia).
  destruct (negb (Py.blank s) && Py.blank m); cbn [map app]; [|reflexivity].
  f_equal. simpl. lia.
Qed.

Lemma gap_from_sorted (markers sources : list string) (start_row idx : Z) :
  forall r, In r (gap_from idx markers sources start_row) -> start_row + idx <= r.
Proof.
  revert sources idx.
  induction markers as [|m markers IH]; intros [|s sources] idx r; simpl;
    try contradiction.
  destruct (negb (Py.blank s) && Py.blank m); simpl.
  - intros [<-|Hin]; [lia|]. apply IH in Hin. lia.
  - intros Hin. apply IH in Hin. lia.
Qed.

Lemma gap_from_ascending (markers sources : list string) (start_row idx : Z) :
  StronglySorted Z.lt (gap_from idx markers sources start_row).
Proof.
  revert sources idx.
  induction markers as [|m markers IH]; intros [|s sources] idx; simpl;
    try constructor.
  destruct (negb (Py.blank s) && Py.blank m); [|apply IH].
  constructor; [apply IH|].
  apply Forall_forall. intros r Hin.
  apply gap_from_sorted in Hin. lia.
Qed.

(** C1. On columns of equal length the gap detector returns exactly the
    rows [start_row + i], in ascending order, of the positions [i] whose
    source is not blank and whose marker is blank; a position whose source
    is blank is left out whatever its marker.  For sources [a, "", c] and
    markers ["", "", x] the result is the single row [start_row + 0]. *)
Theorem find_rows_needing_audio_exact (markers sources : list string) (start_row : Z) :
  List.length markers = List.length sources ->
  find_rows_needing_audio markers sources start_row = gap_rows markers sources start_row
  /\ StronglySorted Z.lt (find_rows_needing_audio markers sources start_row)
  /\ (forall i, Py.blank (nth i sources "") = true ->
        ~ In (start_row + Z.of_nat i) (find_rows_needing_audio markers sources start_row))
  /\ find_rows_needing_audio [""; ""; "x"] ["a"; ""; "c"] start_row = [start_row + 0].
Proof.
  intros Hlen.
  rewrite find_rows_needing_audio_gap_from.
  assert (Heq : gap_from 0 markers sources start_row = gap_rows markers sources start_row).
  { rewrite (gap_from_gap_rows _ _ _ _ Hlen). unfold gap_rows.
    apply map_ext. intros i. lia. }
  repeat split.
  - exact Heq.
  - apply gap_from_ascending.
  - intros i Hb Hin. rewrite Heq in Hin. unfold gap_rows in Hin.
    apply in_map_iff in Hin. destruct Hin as (j & Hj & Hin).
    assert (j = i) by lia. subst j.
    apply filter_In in Hin. destruct Hin as [_ Hin].
    unfold in_gap in Hin. rewrite Hb in Hin. discriminate.
Qed.

Lemma find_rows_needing_audio_exact_witness :
  find_rows_needing_audio ["x"; ""] ["a"; "b"] 2 = gap_rows ["x"; ""] ["a"; "b"] 2
  /\ find_rows_needing_audio ["x"; ""] ["a"; "b"] 2 = [3].
Proof.
  split.
  - apply (find_rows_needing_audio_exact ["x"; ""] ["a"; "b"] 2). reflexivity.
  - reflexivity.
Defined.

(** ** Equations of the monad *)

Section MonadFacts.

Context {E A B : Type}.

Lemma run_eta (r : run E A) : Run (out r) (after r) (emitted r) = r.
Proof. now destruct r. Qed.

Lemma bind_return (c : M E A) (k : A -> M E B) (w : World E) (a : A) :
  out (c w) = Return a ->
  bind c k w = Run (out (k a (after (c w)))) (after (k a (after (c w))))
                   (emitted (c w) ++ emitted (k a (after (c w)))).
Proof. intros H. unfold bind. now rewrite H. Qed.

Lemma bind_raise (c : M E A) (k : A -> M E B) (w : World E) (e : exn) :
  out (c w) = Raise e ->
  bind c k w = Run (Raise e) (after (c w)) (emitted (c w)).
Proof. intros H. unfold bind. now rewrite H. Qed.

Lemma bind_exit (c : M E A) (k : A -> M E B) (w : World E) (code : Z) :
  out (c w) = Exit code ->
  bind c k w = Run (Exit code) (after (c w)) (emitted (c w)).
Proof. intros H. unfold bind. now rewrite H. Qed.

Lemma try_except_return (c : M E A) (h : exn -> M E A) (w : World E) (a : A) :
  out (c w) = Return a -> try_except c h w = c w.
Proof. intros H. unfold try_except. now rewrite H. Qed.

Lemma try_except_exit (c : M E A) (h : exn -> M E A) (w : World E) (code : Z) :
  out (c w) = Exit code -> try_except c h w = c w.
Proof. intros H. unfold try_except. now rewrite H. Qed.

Lemma try_except_raise (c : M E A) (h : exn -> M E A) (w : World E) (e : exn) :
  out (c w) = Raise e ->
  try_except c h w = Run (out (h e (after (c w)))) (after (h e (after (c w))))
                         (emitted (c w) ++ emitted (h e (after (c w)))).
Proof. intros H. unfold try_except. now rewrite H. Qed.

Lemma bind_emit (ev : event) (k : unit -> M E B) (w : World E) :
  bind (emit ev) k w = Run (out (k tt w)) (after (k tt w)) (ev :: emitted (k tt w)).
Proof. reflexivity. Qed.

End MonadFacts.

(** A guarded call, [try: v = c; if not v: return], when [c] returns a
    value that is not kept. *)
Lemma guarded_none {E A : Type} (c : M E (option A)) (keep : option A -> bool)
    (h : exn -> M E (option A)) (w : World E) (v : option A) :
  out (c w) = Return v -> keep v = false ->
  try_except (x <- c ;; if negb (keep x) then ret None else ret x) h w
  = Run (Return None) (after (c w)) (emitted (c w) ++ []).
Proof.
  intros Hc Hk.
  assert (Hb : (x <- c ;; if negb (keep x) then ret None else ret x) w
               = Run (Return None) (after (c w)) (emitted (c w) ++ [])).
  { rewrite (bind_return _ _ _ _ Hc). rewrite Hk. reflexivity. }
  unfold try_except. rewrite Hb. reflexivity.
Qed.

(** ** The retry executor *)

Section RetryFacts.

Context {E : Type} (R : Remote E).

Lemma random_random_unit (w : World E) :
  exists j w', random_random R w = Run (Return j) w' []
               /\ (0 <= j)%Q /\ (j < 1)%Q /\ sheet w' = sheet w.
Proof.
  unfold random_random. destruct (random_bits R (remote w)) as [n e'].
  eexists. eexists. split; [reflexivity|].
  assert (Hn : (0 <= Z.of_N (n mod 2 ^ 53) < Z.pos (2 ^ 53))%Z).
  { pose proof (N.mod_upper_bound n (2 ^ 53)%N ltac:(discriminate)) as H.
    apply N2Z.inj_lt in H. split; [apply N2Z.is_nonneg|exact H]. }
  unfold Qle, Qlt. cbn [Qnum Qden]. split; [|split]; [lia | lia | reflexivity].
Qed.

Lemma random_uniform_unit (w : World E) :
  exists j w', random_uniform R 0 1 w = Run (Return j) w' []
               /\ (0 <= j)%Q /\ (j < 1)%Q /\ sheet w' = sheet w.
Proof.
  destruct (random_random_unit w) as (j & w' & Hr & H0 & H1 & Hs).
  exists (0 + (1 - 0) * j)%Q, w'.
  unfold random_uniform, bind, ret. rewrite Hr. simpl.
  split; [reflexivity|].
  assert (Hj : (0 + (1 - 0) * j == j)%Q) by ring.
  rewrite Hj. auto.
Qed.

Context {A : Type}.
Variable func : M E A.
Variables (max_retries : Z) (base_delay max_delay : Q).

Lemma backoff_loop_follows_policy (m k : nat) (w : World E) :
  (k + m)%nat = Z.to_nat max_retries ->
  (m = 0 -> k = 0)%nat ->
  exists n,
    follows_policy R func max_retries base_delay max_delay k w
      (backoff_loop R func max_retries base_delay max_delay
         (map Z.of_nat (seq k m)) w) n
    /\ (n <= k + m)%nat.
Proof.
  revert k w. induction m as [|m IH]; intros k w Hkm Hk.
  - rewrite (Hk eq_refl) in *. simpl. exists O. split; [|lia].
    constructor. lia.
  - cbn [seq map backoff_loop].
    destruct (out (func w)) as [a|e|code] eqn:Hf.
    + rewrite (try_except_return _ _ _ (Some a))
        by (rewrite (bind_return _ _ _ _ Hf); reflexivity).
      rewrite (bind_return _ _ _ _ Hf). cbn [ret out after emitted].
      rewrite app_nil_r. exists (S k). split; [|lia].
      apply policy_success; [lia|exact Hf].
    + rewrite (try_except_raise _ _ _ e)
        by (rewrite (bind_raise _ _ _ _ Hf); reflexivity).
      rewrite (bind_raise _ _ _ _ Hf). cbn [out after emitted].
      destruct (Z.of_nat k =? max_retries - 1) eqn:Hlast.
      * cbn [raise out after emitted]. rewrite app_nil_r.
        exists (S k). split; [|lia].
        apply policy_last_failure; [lia|exact Hf].
      * destruct (random_uniform_unit (after (func w)))
          as (j & w' & Hr & H0 & H1 & _).
        assert (Hm : m <> O) by lia.
        destruct (IH (S k) w') as (n & Hpol & Hn); [lia|lia|].
        exists n. split; [|lia].
        unfold bind. rewrite Hr. cbn [out after emitted log sleep emit app].
        eapply policy_retry; eauto; [lia|].
        unfold backoff_delay.
        replace (Z.of_nat (S k) - 1) with (Z.of_nat k) by lia.
        reflexivity.
    + rewrite (try_except_exit _ _ _ code)
        by (rewrite (bind_exit _ _ _ _ Hf); reflexivity).
      rewrite (bind_exit _ _ _ _ Hf).
      exists (S k). split; [|lia].
      apply policy_exit; [lia|exact Hf].
Qed.

End RetryFacts.

(** C3. [exponential_backoff_retry] follows the retry policy: [func] is
    invoked at most [max_retries] times; after the failure of attempt [k],
    not the last one, the executor sleeps min(base_delay * 2^(k-1) + jitter,
    max_delay) for a jitter in [0, 1); the failure of the last attempt is
    raised again unchanged.  With the default base delay 1 and the default
    cap 16 no delay exceeds 16 + 1. *)
Theorem exponential_backoff_retry_policy {E A : Type} (R : Remote E) (func : M E A)
    (max_retries : Z) (base_delay max_delay : Q) (w : World E) :
  (exists n,
     follows_policy R func max_retries base_delay max_delay 0 w
       (exponential_backoff_retry R func max_retries base_delay max_delay w) n
     /\ Z.of_nat n <= Z.max 0 max_retries)
  /\ (forall attempt jitter,
        backoff_delay default_base_delay default_max_delay attempt jitter <= 16 + 1)%Q.
Proof.
  split.
  - unfold exponential_backoff_retry, Py.range.
    destruct (backoff_loop_follows_policy R func max_retries base_delay max_delay
                (Z.to_nat max_retries) 0 w) as (n & Hpol & Hn); [lia|lia|].
    exists n. split; [exact Hpol|lia].
  - intros attempt jitter. unfold backoff_delay, default_max_delay.
    apply Qle_trans with 16%Q; [apply Q.le_min_r|discriminate].
Qed.

(** ** Computations that do not write to the sheet *)

Section Quiet.

Context {E : Type} (R : Remote E).

Lemma wn_ret {A} (a : A) : writes_nothing (@ret E A a).
Proof. intros w. split; [reflexivity|constructor]. Qed.

Lemma wn_raise {A} (e : exn) : writes_nothing (@raise E A e).
Proof. intros w. split; [reflexivity|constructor]. Qed.

Lemma wn_sys_exit {A} (code : Z) : writes_nothing (@sys_exit E A code).
Proof. intros w. split; [reflexivity|constructor]. Qed.

Lemma wn_log (lvl : level) (r : log_record) : writes_nothing (@log E lvl r).
Proof. intros w. split; [reflexivity|repeat constructor]. Qed.

Lemma wn_sleep (d : Q) : writes_nothing (@sleep E d).
Proof. intros w. split; [reflexivity|repeat constructor]. Qed.

Lemma wn_bind {A B} (c : M E A) (k : A -> M E B) :
  writes_nothing c -> (forall a, writes_nothing (k a)) -> writes_nothing (bind c k).
Proof.
  intros Hc Hk w. destruct (Hc w) as [Hs Hev]. unfold bind.
  destruct (out (c w)) as [a| |]; cbn [after emitted]; auto.
  destruct (Hk a (after (c w))) as [Hs' Hev'].
  split; [congruence|]. apply Forall_app. auto.
Qed.

Lemma wn_try_except {A} (c : M E A) (h : exn -> M E A) :
  writes_nothing c -> (forall e, writes_nothing (h e)) -> writes_nothing (try_except c h).
Proof.
  intros Hc Hh w. destruct (Hc w) as [Hs Hev]. unfold try_except.
  destruct (out (c w)) as [|e|]; cbn [after emitted]; auto.
  destruct (Hh e (after (c w))) as [Hs' Hev'].
  split; [congruence|]. apply Forall_app. auto.
Qed.

Lemma wn_remote_call {A} (ev : event) (f : E -> reply A * E) :
  is_update ev = false -> writes_nothing (remote_call ev f).
Proof.
  intros Hev w. unfold remote_call. destruct (f (remote w)) as [o e'].
  split; [reflexivity|]. repeat constructor. exact Hev.
Qed.

Lemma wn_values_get (rg : Range) : writes_nothing (values_get R rg).
Proof.
  intros w. unfold values_get.
  destruct (sheets_fault R (remote w)) as [[x|] e'].
  - split; [reflexivity|repeat constructor].
  - destruct (rg_first rg <? 1); (split; [reflexivity|repeat constructor]).
Qed.

Lemma wn_spreadsheet_get : writes_nothing (spreadsheet_get R).
Proof.
  intros w. unfold spreadsheet_get.
  destruct (sheets_fault R (remote w)) as [[x|] e'];
    (split; [reflexivity|repeat constructor]).
Qed.

Lemma wn_random_uniform (a b : Q) : writes_nothing (random_uniform R a b).
Proof.
  apply wn_bind; [|intros; apply wn_ret].
  intros w. unfold random_random. destruct (random_bits R (remote w)).
  split; [reflexivity|constructor].
Qed.

Lemma wn_backoff_loop {A} (func : M E A) (max_retries : Z) (base_delay max_delay : Q)
    (attempts : list Z) :
  writes_nothing func ->
  writes_nothing (backoff_loop R func max_retries base_delay max_delay attempts).
Proof.
  intros Hf. induction attempts as [|attempt rest IH]; cbn [backoff_loop].
  - apply wn_ret.
  - apply wn_try_except.
    + apply wn_bind; [exact Hf|intros; apply wn_ret].
    + intros e. destruct (attempt =? max_retries - 1); [apply wn_raise|].
      apply wn_bind; [apply wn_random_uniform|intros j].
      apply wn_bind; [apply wn_log|intros _].
      apply wn_bind; [apply wn_sleep|intros _]. exact IH.
Qed.

Lemma wn_retry {A} (func : M E A) (max_retries : Z) (base_delay max_delay : Q) :
  writes_nothing func ->
  writes_nothing (exponential_backoff_retry R func max_retries base_delay max_delay).
Proof. apply wn_backoff_loop. Qed.

Lemma wn_first_cell (values : list (list string)) : writes_nothing (@first_cell E values).
Proof. destruct values as [|[|v r] rest]; [apply wn_ret|apply wn_raise|apply wn_ret]. Qed.

Lemma wn_int (s : string) : writes_nothing (@int E s).
Proof. unfold int. destruct (Py.int_of_string s); [apply wn_ret|apply wn_raise]. Qed.

End Quiet.

(** Closes a goal [writes_nothing c] for a computation built from the
    requests that do not write. *)
Ltac quiet :=
  repeat first
    [ apply wn_ret | apply wn_raise | apply wn_sys_exit | apply wn_log
    | apply wn_sleep | apply wn_values_get | apply wn_spreadsheet_get
    | apply wn_random_uniform | apply wn_first_cell | apply wn_int
    | apply wn_remote_call; reflexivity
    | apply wn_retry | apply wn_try_except | apply wn_bind
    | match goal with
      | |- forall _, writes_nothing _ => intro
      | |- writes_nothing (match ?x with _ => _ end) => destruct x
      | |- writes_nothing (if ?b then _ else _) => destruct b
      end ].

Section QuietProgram.

Context {E : Type} (R : Remote E).

Lemma wn_synthesize_speech_with_retry text voice rate enc :
  writes_nothing (synthesize_speech_with_retry R text voice rate enc).
Proof. unfold synthesize_speech_with_retry, synthesize_speech. quiet. Qed.

Lemma wn_upload_audio_file_with_retry folder filename content enc :
  writes_nothing (upload_audio_file_with_retry R folder filename content enc).
Proof. unfold upload_audio_file_with_retry, upload_audio_file. quiet. Qed.

End QuietProgram.

(** ** Failures while a row is processed *)

Section RowFailures.

Context {E : Type} (R : Remote E).

Lemma values_update_failure_clean (rg : Range) (vals : list string) (w : World E) (e : exn) :
  out (values_update R rg vals w) = Raise e ->
  sheet (after (values_update R rg vals w)) = sheet w.
Proof.
  unfold values_update. destruct (sheets_fault R (remote w)) as [[x|] e'].
  - reflexivity.
  - destruct (rg_first rg <? 1); [reflexivity|discriminate].
Qed.

(** When every failure of [func] leaves the sheet alone, so does a failure
    of the whole retry loop. *)
Lemma backoff_loop_failure_clean {A} (func : M E A) (max_retries : Z)
    (base_delay max_delay : Q) (attempts : list Z) :
  (forall w e, out (func w) = Raise e -> sheet (after (func w)) = sheet w) ->
  forall w e,
    out (backoff_loop R func max_retries base_delay max_delay attempts w) = Raise e ->
    sheet (after (backoff_loop R func max_retries base_delay max_delay attempts w))
    = sheet w.
Proof.
  intros Hf. induction attempts as [|attempt rest IH]; intros w e;
    cbn [backoff_loop].
  - discriminate.
  - destruct (out (func w)) as [a|e0|code] eqn:Hout.
    + rewrite (try_except_return _ _ _ (Some a))
        by (rewrite (bind_return _ _ _ _ Hout); reflexivity).
      rewrite (bind_return _ _ _ _ Hout). discriminate.
    + rewrite (try_except_raise _ _ _ e0)
        by (rewrite (bind_raise _ _ _ _ Hout); reflexivity).
      rewrite (bind_raise _ _ _ _ Hout). cbn [out after emitted].
      specialize (Hf w e0 Hout).
      destruct (attempt =? max_retries - 1); [intros _; exact Hf|].
      destruct (random_uniform_unit R (after (func w)))
        as (j & w' & Hr & _ & _ & Hs).
      unfold bind. rewrite Hr. cbn [out after emitted log sleep emit].
      intros Hrec. rewrite (IH w' e Hrec). congruence.
    + rewrite (try_except_exit _ _ _ code)
        by (rewrite (bind_exit _ _ _ _ Hout); reflexivity).
      rewrite (bind_exit _ _ _ _ Hout). discriminate.
Qed.

End RowFailures.

(** C10. When the write of the marker cell fails after all its attempts,
    [update_sheet_cells_with_retry] catches the exception, logs an error and
    returns [None]; its caller, the end of [process_row], returns normally;
    and the sheet is what it was, so the marker of the row is still
    empty. *)
Theorem update_failure_is_swallowed {E : Type} (R : Remote E) (start_row : Z)
    (column_letter : string) (values : list string) (max_retries : Z)
    (w : World E) (e : exn) :
  let range_name := {| rg_col := column_letter; rg_first := start_row;
                       rg_last := None |} in
  let attempts :=
    exponential_backoff_retry R (values_update R range_name values) max_retries
      default_base_delay default_max_delay w in
  let r := update_sheet_cells_with_retry R start_row column_letter values max_retries w in
  out attempts = Raise e ->
  out r = Return None
  /\ (exists record,
        emitted r = emitted attempts ++ [Logged Error record]
        /\ (record = SheetsUpdateUnexpected range_name e
            \/ exists content, e = HttpError content
                               /\ record = SheetsUpdateFailed range_name content))
  /\ sheet (after r) = sheet w
  /\ out ((update_sheet_cells_with_retry R start_row column_letter values max_retries ;;
           ret tt) w) = Return tt.
Proof.
  intros range_name attempts r Hfail.
  assert (Hsheet : sheet (after attempts) = sheet w).
  { apply (backoff_loop_failure_clean R _ _ _ _ _
             (values_update_failure_clean R range_name values) w e Hfail). }
  assert (Hr : r = Run (Return None) (after attempts)
                       (emitted attempts ++
                        [Logged Error
                           match e with
                           | HttpError content => SheetsUpdateFailed range_name content
                           | _ => SheetsUpdateUnexpected range_name e
                           end])).
  { unfold r, update_sheet_cells_with_retry.
    rewrite (try_except_raise _ _ _ e Hfail).
    destruct e; reflexivity. }
  assert (Hout : out r = Return None) by (rewrite Hr; reflexivity).
  split; [exact Hout|]. split; [|split].
  - eexists. split; [rewrite Hr; reflexivity|].
    destruct e; eauto.
  - rewrite Hr. exact Hsheet.
  - rewrite (bind_return _ _ _ None Hout). reflexivity.
Qed.

Lemma update_failure_is_swallowed_witness :
  out (update_sheet_cells_with_retry scripted 2 "D" ["x"] 5 outage_world) = Return None
  /\ sheet (after (update_sheet_cells_with_retry scripted 2 "D" ["x"] 5 outage_world)) "D"
     = [].
Proof.
  destruct (update_failure_is_swallowed scripted 2 "D" ["x"] 5 outage_world
              (HttpError "503")) as (Hout & _ & Hsheet & _).
  - vm_compute. reflexivity.
  - split; [exact Hout|]. rewrite Hsheet. reflexivity.
Defined.



(** ** The length check *)

Lemma gap_from_firstn (markers sources : list string) (start_row idx : Z) :
  let n := Nat.min (List.length markers) (List.length sources) in
  gap_from idx markers sources start_row
  = gap_from idx (firstn n markers) (firstn n sources) start_row.
Proof.
  revert sources idx.
  induction markers as [|m markers IH]; intros [|s sources] idx; try reflexivity.
  cbn [List.length Nat.min firstn gap_from]. cbv zeta in IH.
  rewrite <- IH. reflexivity.
Qed.

(** C6, as the code has it.  The gap detector has no length check of its
    own: on columns of unequal length it looks at the positions both columns
    have and returns the gap among them.  The check is in the driver, which
    logs an error and exits with status 1 when the two columns it has read
    differ in length, before the detector is called. *)
Theorem unequal_lengths_stop_the_driver {E : Type} (R : Remote E) (args : Args)
    (spreadsheet_title : string) (text_col_values audio_col_values : list string)
    (w : World E) :
  List.length audio_col_values <> List.length text_col_values ->
  (let n := Nat.min (List.length audio_col_values) (List.length text_col_values) in
   find_rows_needing_audio audio_col_values text_col_values (start_row args)
   = find_rows_needing_audio (firstn n audio_col_values) (firstn n text_col_values)
       (start_row args))
  /\ reconcile R args spreadsheet_title text_col_values audio_col_values w
     = Run (Exit 1) w
           [Logged Error (ColumnLengthMismatch (List.length audio_col_values)
                                               (List.length text_col_values))].
Proof.
  intros Hlen. split.
  - cbv zeta. rewrite !find_rows_needing_audio_gap_from. apply gap_from_firstn.
  - unfold reconcile.
    destruct (Nat.eqb_spec (List.length audio_col_values) (List.length text_col_values));
      [contradiction|reflexivity].
Qed.

Lemma unequal_lengths_stop_the_driver_witness :
  out (reconcile scripted demo_args "Sentences" ["a"] [""; ""] demo_world) = Exit 1.
Proof.
  destruct (unequal_lengths_stop_the_driver scripted demo_args "Sentences"
              ["a"] [""; ""] demo_world) as [_ Hrun].
  - simpl. lia.
  - rewrite Hrun. reflexivity.
Defined.

(** C6, as stated, fails: called with two markers and one source the
    detector returns a gap, it does not fail. *)
Lemma find_rows_unequal_lengths_returns :
  List.length [""; ""] <> List.length ["a"]
  /\ out (find_rows [""; ""] ["a"] 2 demo_world) = Return [2]
  /\ find_rows_needing_audio [""; ""] ["a"] 2 = [2].
Proof. repeat split. simpl. lia. Qed.

(** ** The file name and the marker *)

(** C7, on a run asked for Ogg Opus.  The link written is a hyperlink
    formula and the file name is the sentence id padded to six digits, but
    its extension is [.mp3] whatever the encoding: the file uploaded as
    [audio/ogg] is named [sentence_000001.mp3]. *)
Theorem ogg_file_is_named_mp3 :
  let r := process_row scripted ogg_args 2 "Le chat." "folder-1" demo_world in
  In (DriveUpload {| up_folder := "folder-1"; up_name := "sentence_000001.mp3";
                     up_content := "audio:Le chat."; up_mime := "audio/ogg" |})
     (emitted r)
  /\ In (SheetsUpdate {| rg_col := "D"; rg_first := 2; rg_last := None |}
           [hyperlink_formula "https://drive.example/sentence_000001.mp3"
                              "sentence_000001.mp3"])
        (emitted r)
  /\ cell (sheet (after r)) "D" 2
     = ("=HYPERLINK(" ++ dquote ++ "https://drive.example/sentence_000001.mp3"
        ++ dquote ++ ", " ++ dquote ++ "sentence_000001.mp3" ++ dquote ++ ")")%string.
Proof. vm_compute. intuition. Qed.

(** ** Errors that escape a row *)

(** C5, on two failing inputs.  A sentence id that is no number makes
    [process_row] raise [ValueError]; a failed fetch of the sentence id makes
    it raise the [HttpError].  Neither is caught: the run ends with the
    exception, and the next gap row, row 3, is never started. *)
Theorem id_errors_abort_the_run :
  (let r := main scripted demo_args bad_id_world in
   next_gap scripted (sheet bad_id_world) demo_args = [2; 3]
   /\ out r = Raise (ValueError "abc")
   /\ ~ In (Logged Info (Synthesizing 3 "Il a plu.")) (emitted r)
   /\ cell (sheet (after r)) "D" 3 = "")
  /\ (let r := main scripted demo_args id_fetch_fails in
      next_gap scripted (sheet id_fetch_fails) demo_args = [2; 3]
      /\ out r = Raise (HttpError "500")
      /\ ~ In (Logged Info (Synthesizing 3 "Il a plu.")) (emitted r)
      /\ cell (sheet (after r)) "D" 3 = "").
Proof.
  vm_compute. repeat split; try reflexivity;
    intros H; repeat (destruct H as [H|H]; [discriminate H|]); exact H.
Qed.

(** ** The poller *)

Section PollerFacts.

Context {E : Type}.
Variable sheets_values : Range -> E -> reply (list (list string)) * E.
Variables (col : string) (start_row num_rows : Z).

Lemma forallb_row_resolved (values : list (list string)) :
  forallb row_resolved values = true <->
  Forall (fun cell => cell <> []) values
  /\ Forall (fun cell => forall text rest, cell = text :: rest ->
                                            Py.startswith text "=" = false) values.
Proof.
  induction values as [|row values IH]; simpl.
  - split; [intros _; split; constructor|reflexivity].
  - rewrite andb_true_iff, IH. split.
    + intros [Hrow [Hne Hst]]. destruct row as [|text rest]; [discriminate|].
      simpl in Hrow. apply negb_true_iff in Hrow.
      split; constructor; auto; [discriminate|].
      intros t r Heq. injection Heq as <- <-. exact Hrow.
    + intros [Hne Hst]. inversion Hne as [|? ? Hrow Hne']; subst.
      inversion Hst as [|? ? Hrow' Hst']; subst.
      destruct row as [|text rest]; [contradiction|].
      simpl. rewrite (Hrow' text rest eq_refl). auto.
Qed.

(** The check of the code is the condition of the specification. *)
Lemma all_resolved_iff (values : list (list string)) :
  all_resolved num_rows values = true <-> resolved num_rows values.
Proof.
  unfold all_resolved, resolved.
  rewrite andb_true_iff, Z.eqb_eq, forallb_row_resolved. reflexivity.
Qed.

Lemma poll_sound (fuel : nat) (w : World E) (values : list (list string)) :
  out (poll sheets_values fuel col start_row num_rows w) = Return (Some values) ->
  resolved num_rows values.
Proof.
  revert w. induction fuel as [|fuel IH]; intros w; cbn [poll].
  - discriminate.
  - destruct (out (poll_once sheets_values col start_row num_rows w))
      as [v|e|code] eqn:Hread.
    + rewrite (bind_return _ _ _ _ Hread). cbn [out].
      destruct (all_resolved num_rows v) eqn:Hres.
      * unfold print. rewrite bind_emit. cbn [ret out].
        intros H. injection H as <-. now apply all_resolved_iff.
      * unfold print, sleep. rewrite !bind_emit. cbn [out]. apply IH.
    + rewrite (bind_raise _ _ _ _ Hread). discriminate.
    + rewrite (bind_exit _ _ _ _ Hread). discriminate.
Qed.

(** One more round, when the read does not satisfy the condition. *)
Lemma poll_unresolved_round (fuel : nat) (w : World E) (values : list (list string)) :
  out (poll_once sheets_values col start_row num_rows w) = Return values ->
  ~ resolved num_rows values ->
  let w' := after (poll_once sheets_values col start_row num_rows w) in
  let r := poll sheets_values (S fuel) col start_row num_rows w in
  let r' := poll sheets_values fuel col start_row num_rows w' in
  out r = out r' /\ after r = after r'
  /\ sleeps (emitted r) = inject_Z 15 :: sleeps (emitted r').
Proof.
  intros Hread Hnot. cbn zeta. cbn [poll].
  rewrite (bind_return _ _ _ _ Hread). cbn [out after emitted].
  destruct (all_resolved num_rows values) eqn:Hres;
    [apply all_resolved_iff in Hres; contradiction|].
  unfold print, sleep. rewrite !bind_emit. cbn [out after emitted].
  repeat split.
  unfold poll_once, remote_call.
  destruct (sheets_values _ (remote w)). reflexivity.
Qed.

Lemma poll_still_going (n : nat) (w : World E) :
  unresolved_for sheets_values n col start_row num_rows w ->
  let r := poll sheets_values n col start_row num_rows w in
  out r = Return None
  /\ after r = after_polls sheets_values n col start_row num_rows w
  /\ sleeps (emitted r) = repeat (inject_Z 15) n.
Proof.
  revert w. induction n as [|n IH]; intros w Hun.
  - repeat split.
  - destruct Hun as [(values & Hread & Hnot) Hrest].
    destruct (poll_unresolved_round n w values Hread Hnot) as (Ho & Ha & Hs).
    destruct (IH _ Hrest) as (Ho' & Ha' & Hs').
    cbv zeta. rewrite Ho, Ha, Hs. cbn [after_polls repeat].
    rewrite Ho', Ha', Hs'. repeat split.
Qed.

Lemma poll_returns_first_resolved (n : nat) (w : World E) (values : list (list string)) :
  unresolved_for sheets_values n col start_row num_rows w ->
  out (poll_once sheets_values col start_row num_rows
         (after_polls sheets_values n col start_row num_rows w)) = Return values ->
  resolved num_rows values ->
  forall fuel, (n < fuel)%nat ->
    let r := poll sheets_values fuel col start_row num_rows w in
    out r = Return (Some values) /\ sleeps (emitted r) = repeat (inject_Z 15) n.
Proof.
  revert w. induction n as [|n IH]; intros w Hun Hread Hres fuel Hfuel.
  - destruct fuel as [|fuel]; [lia|]. cbn [after_polls] in Hread.
    cbv zeta. cbn [poll]. rewrite (bind_return _ _ _ _ Hread).
    apply all_resolved_iff in Hres. rewrite Hres.
    unfold print. rewrite bind_emit. cbn [ret out after emitted repeat].
    split; [reflexivity|].
    unfold poll_once, remote_call. destruct (sheets_values _ (remote w)).
    reflexivity.
  - destruct fuel as [|fuel]; [lia|].
    destruct Hun as [(v & Hv & Hnot) Hrest].
    destruct (poll_unresolved_round fuel w v Hv Hnot) as (Ho & _ & Hs).
    cbn [after_polls] in Hread.
    destruct (IH _ Hrest Hread Hres fuel ltac:(lia)) as (Ho' & Hs').
    cbv zeta. rewrite Ho, Hs, Ho', Hs'. split; reflexivity.
Qed.

End PollerFacts.

(** C9. [wait_for_translations] returns the values read exactly when a read
    of the range gives as many cells as expected, every cell non-empty and
    none beginning with [=]: what it returns satisfies the condition; the
    first read that satisfies it is returned, after one sleep of 15 seconds
    for each read before it; and as long as the reads do not satisfy it the
    loop goes on, however many they are. *)
Theorem wait_for_translations_until_resolved {E : Type}
    (sheets_values : Range -> E -> reply (list (list string)) * E)
    (col : string) (start_row num_rows : Z) (w : World E) :
  (forall fuel values,
     out (wait_for_translations sheets_values fuel col start_row num_rows w)
     = Return (Some values) ->
     resolved num_rows values)
  /\ (forall n values,
        unresolved_for sheets_values n col start_row num_rows w ->
        out (poll_once sheets_values col start_row num_rows
               (after_polls sheets_values n col start_row num_rows w)) = Return values ->
        resolved num_rows values ->
        forall fuel, (n < fuel)%nat ->
          let r := wait_for_translations sheets_values fuel col start_row num_rows w in
          out r = Return (Some values)
          /\ sleeps (emitted r) = repeat (inject_Z 15) n)
  /\ (forall n,
        unresolved_for sheets_values n col start_row num_rows w ->
        let r := wait_for_translations sheets_values n col start_row num_rows w in
        out r = Return None
        /\ after r = after_polls sheets_values n col start_row num_rows w
        /\ sleeps (emitted r) = repeat (inject_Z 15) n).
Proof.
  unfold wait_for_translations, print. split; [|split].
  - intros fuel values. rewrite bind_emit. cbn [out]. apply poll_sound.
  - intros n values Hun Hread Hres fuel Hfuel. cbv zeta. rewrite bind_emit.
    cbn [out emitted sleeps].
    now apply (poll_returns_first_resolved sheets_values col start_row num_rows n w values).
  - intros n Hun. cbv zeta. rewrite bind_emit. cbn [out after emitted sleeps].
    now apply (poll_still_going sheets_values col start_row num_rows n w).
Qed.

Lemma wait_for_translations_until_resolved_witness :
  out (wait_for_translations answers_in_turn 5 "C" 2 2 slow_engine)
  = Return (Some [["Le chat."]; ["Il a plu."]])
  /\ sleeps (emitted (wait_for_translations answers_in_turn 5 "C" 2 2 slow_engine))
     = [inject_Z 15; inject_Z 15].
Proof.
  destruct (wait_for_translations_until_resolved answers_in_turn "C" 2 2 slow_engine)
    as (_ & Hfirst & _).
  apply (Hfirst 2%nat [["Le chat."]; ["Il a plu."]]).
  - simpl. repeat split.
    + eexists. split; [reflexivity|]. intros (Hlen & _). discriminate Hlen.
    + eexists. split; [reflexivity|]. intros (_ & _ & Hst).
      inversion Hst as [|? ? Hrow _]; subst.
      specialize (Hrow _ _ eq_refl). discriminate Hrow.
  - reflexivity.
  - apply all_resolved_iff. reflexivity.
  - lia.
Defined.

(** ** The order of a run *)

Section EmitsOnly.

Context {E : Type} (R : Remote E) (P : event -> Prop).

Lemma eo_ret {A} (a : A) : emits_only P (@ret E A a).
Proof. intros w. split; [constructor|discriminate]. Qed.

Lemma eo_raise {A} (e : exn) : emits_only P (@raise E A e).
Proof. intros w. split; [constructor|discriminate]. Qed.

Lemma eo_sys_exit {A} (code : Z) : code <> 0 -> emits_only P (@sys_exit E A code).
Proof. intros Hc w. split; [constructor|]. cbn. congruence. Qed.

Lemma eo_emit (ev : event) : P ev -> emits_only P (@emit E ev).
Proof. intros H w. split; [repeat constructor; exact H|discriminate]. Qed.

Lemma eo_log (lvl : level) (r : log_record) :
  P (Logged lvl r) -> emits_only P (@log E lvl r).
Proof. apply eo_emit. Qed.

Lemma eo_sleep (d : Q) : P (Slept d) -> emits_only P (@sleep E d).
Proof. apply eo_emit. Qed.

Lemma eo_bind {A B} (c : M E A) (k : A -> M E B) :
  emits_only P c -> (forall a, emits_only P (k a)) -> emits_only P (bind c k).
Proof.
  intros Hc Hk w. unfold bind. destruct (Hc w) as [Hev Hex].
  destruct (out (c w)) as [a|e|code]; cbn [out emitted].
  - destruct (Hk a (after (c w))) as [Hev' Hex'].
    split; [apply Forall_app; auto|exact Hex'].
  - split; [exact Hev|discriminate].
  - split; [exact Hev|congruence].
Qed.

Lemma eo_try_except {A} (c : M E A) (h : exn -> M E A) :
  emits_only P c -> (forall e, emits_only P (h e)) -> emits_only P (try_except c h).
Proof.
  intros Hc Hh w. unfold try_except. destruct (Hc w) as [Hev Hex].
  destruct (out (c w)) as [a|e|code] eqn:Hout; cbn [out emitted].
  - split; [exact Hev|congruence].
  - destruct (Hh e (after (c w))) as [Hev' Hex'].
    split; [apply Forall_app; auto|exact Hex'].
  - split; [exact Hev|congruence].
Qed.

Lemma eo_remote_call {A} (ev : event) (f : E -> reply A * E) :
  P ev -> emits_only P (remote_call ev f).
Proof.
  intros Hev w. unfold remote_call. destruct (f (remote w)) as [[a|e] e'];
    (split; [repeat constructor; exact Hev|discriminate]).
Qed.

Lemma eo_values_get (rg : Range) : P (SheetsGet rg) -> emits_only P (values_get R rg).
Proof.
  intros Hev w. unfold values_get.
  destruct (sheets_fault R (remote w)) as [[x|] e'];
    [|destruct (rg_first rg <? 1)];
    (split; [repeat constructor; exact Hev|discriminate]).
Qed.

Lemma eo_values_update (rg : Range) (vals : list string) :
  P (SheetsUpdate rg vals) -> emits_only P (values_update R rg vals).
Proof.
  intros Hev w. unfold values_update.
  destruct (sheets_fault R (remote w)) as [[x|] e'];
    [|destruct (rg_first rg <? 1)];
    (split; [repeat constructor; exact Hev|discriminate]).
Qed.

Lemma eo_spreadsheet_get : P SheetsMetadata -> emits_only P (spreadsheet_get R).
Proof.
  intros Hev w. unfold spreadsheet_get.
  destruct (sheets_fault R (remote w)) as [[x|] e'];
    (split; [repeat constructor; exact Hev|discriminate]).
Qed.

Lemma eo_random_uniform (a b : Q) : emits_only P (random_uniform R a b).
Proof.
  apply eo_bind; [|intros; apply eo_ret].
  intros w. unfold random_random. destruct (random_bits R (remote w)).
  split; [constructor|discriminate].
Qed.

Lemma eo_backoff_loop {A} (func : M E A) (max_retries : Z) (base_delay max_delay : Q)
    (attempts : list Z) :
  emits_only P func ->
  (forall d e, P (Logged Warning (RetryingAfter d e))) ->
  (forall d, P (Slept d)) ->
  emits_only P (backoff_loop R func max_retries base_delay max_delay attempts).
Proof.
  intros Hf Hlog Hsleep. induction attempts as [|attempt rest IH]; cbn [backoff_loop].
  - apply eo_ret.
  - apply eo_try_except.
    + apply eo_bind; [exact Hf|intros; apply eo_ret].
    + intros e. destruct (attempt =? max_retries - 1); [apply eo_raise|].
      apply eo_bind; [apply eo_random_uniform|intros j].
      apply eo_bind; [apply eo_log, Hlog|intros _].
      apply eo_bind; [apply eo_sleep, Hsleep|intros _]. exact IH.
Qed.

Lemma eo_retry {A} (func : M E A) (max_retries : Z) (base_delay max_delay : Q) :
  emits_only P func ->
  (forall d e, P (Logged Warning (RetryingAfter d e))) ->
  (forall d, P (Slept d)) ->
  emits_only P (exponential_backoff_retry R func max_retries base_delay max_delay).
Proof. apply eo_backoff_loop. Qed.

Lemma eo_first_cell (values : list (list string)) : emits_only P (@first_cell E values).
Proof. destruct values as [|[|v r] rest]; [apply eo_ret|apply eo_raise|apply eo_ret]. Qed.

Lemma eo_int (s : string) : emits_only P (@int E s).
Proof. unfold int. destruct (Py.int_of_string s); [apply eo_ret|apply eo_raise]. Qed.

Lemma eo_log_all (lvl : level) (rs : list log_record) :
  (forall r, In r rs -> P (Logged lvl r)) -> emits_only P (@log_all E lvl rs).
Proof.
  induction rs as [|r rs IH]; intros H; cbn [log_all].
  - apply eo_ret.
  - apply eo_bind; [apply eo_log, H; now left|intros _].
    apply IH. intros r' Hin. apply H. now right.
Qed.

End EmitsOnly.

Lemma phases_app (args : Args) (p : phase) (l1 l2 : list event) :
  phases args p (l1 ++ l2)
  = match phases args p l1 with
    | Some q => phases args q l2
    | None => None
    end.
Proof.
  revert p. induction l1 as [|ev l1 IH]; intros p; cbn [phases app]; [reflexivity|].
  destruct (step args p ev); [apply IH|reflexivity].
Qed.

Lemma phases_stay (args : Args) (p : phase) (evs : list event) :
  Forall (fun ev => step args p ev = Some p) evs -> phases args p evs = Some p.
Proof.
  induction 1 as [|ev evs Hev _ IH]; cbn [phases]; [reflexivity|].
  now rewrite Hev.
Qed.

Section Lands.

Context {E : Type} (R : Remote E) (args : Args).

Lemma lands_bind {A B} (p q q2 : phase) (c : M E A) (k : A -> M E B) :
  lands args p c q -> (forall a, lands args q (k a) q2) -> lands args p (bind c k) q2.
Proof.
  intros Hc Hk w. destruct (Hc w) as (q' & Hph & Hret & Hab & Hex).
  unfold bind. destruct (out (c w)) as [a|e|code] eqn:Hout; cbn [out after emitted].
  - rewrite (Hret a eq_refl) in Hph.
    destruct (Hk a (after (c w))) as (q'' & Hph' & Hret' & Hab' & Hex').
    exists q''. rewrite phases_app, Hph. auto.
  - exists q'. repeat split; [exact Hph|discriminate| |discriminate].
    intros Hq. specialize (Hab Hq). discriminate.
  - exists q'. repeat split; [exact Hph|discriminate| |].
    + intros Hq. specialize (Hab Hq). injection Hab as ->. reflexivity.
    + intros Hc0. injection Hc0 as ->. now apply Hex.
Qed.

(** A computation whose events all leave the phase [p] as it is. *)
Lemma lands_stay {A} (p : phase) (c : M E A) :
  p <> Aborted ->
  emits_only (fun ev => step args p ev = Some p) c -> lands args p c p.
Proof.
  intros Hp Hc w. destruct (Hc w) as [Hev Hex]. exists p.
  rewrite (phases_stay _ _ _ Hev).
  repeat split; intros; contradiction.
Qed.

Lemma lands_emit (p q : phase) (ev : event) :
  step args p ev = Some q -> q <> Aborted -> lands args p (@emit E ev) q.
Proof.
  intros Hstep Hq w. exists q. cbn [emit emitted phases out]. rewrite Hstep.
  repeat split; [intros; contradiction|discriminate].
Qed.

(** The error is logged and the process exits with status 1. *)
Lemma lands_abort (p q : phase) (lvl : level) (r : log_record) :
  (exists q', step args p (Logged lvl r) = Some q') ->
  lands args p (log lvl r ;; @sys_exit E unit 1) q.
Proof.
  intros [q' Hstep] w. exists q'. unfold log. rewrite bind_emit.
  cbn [sys_exit out emitted phases]. rewrite Hstep.
  repeat split; discriminate.
Qed.

End Lands.

Lemma range_eqb_refl (rg : Range) : range_eqb rg rg = true.
Proof.
  unfold range_eqb. rewrite String.eqb_refl, Z.eqb_refl.
  destruct (rg_last rg); [apply Z.eqb_refl|reflexivity].
Qed.

(** Proves that every event of a computation leaves the phase as it is. *)
Ltac orderly :=
  repeat first
    [ apply eo_ret | apply eo_raise | apply eo_sys_exit; discriminate
    | apply eo_log; reflexivity | apply eo_sleep; reflexivity
    | apply eo_values_update; reflexivity
    | apply eo_spreadsheet_get; reflexivity
    | apply eo_random_uniform | apply eo_first_cell | apply eo_int
    | apply eo_remote_call; reflexivity
    | apply eo_retry; [ | intros; reflexivity | intros; reflexivity ]
    | apply eo_try_except | apply eo_bind
    | match goal with
      | |- forall _, emits_only _ _ => intro
      | |- emits_only _ (match ?x with _ => _ end) => destruct x
      | |- emits_only _ (if ?b then _ else _) => destruct b
      end ].

(** The same when the reads of the sheet are judged by their event alone. *)
Ltac calm :=
  repeat first
    [ apply eo_ret | apply eo_raise | apply eo_sys_exit; discriminate
    | apply eo_log; reflexivity | apply eo_sleep; reflexivity
    | apply eo_values_get; reflexivity
    | apply eo_values_update; reflexivity
    | apply eo_spreadsheet_get; reflexivity
    | apply eo_random_uniform | apply eo_first_cell | apply eo_int
    | apply eo_remote_call; reflexivity
    | apply eo_retry; [ | intros; reflexivity | intros; reflexivity ]
    | apply eo_try_except | apply eo_bind
    | match goal with
      | |- forall _, emits_only _ _ => intro
      | |- emits_only _ (match ?x with _ => _ end) => destruct x
      | |- emits_only _ (if ?b then _ else _) => destruct b
      end ].

Section Order.

Context {E : Type} (R : Remote E) (args : Args).

Abbreviation stays p := (fun ev => step args p ev = Some p).

Lemma lands_never_returns {A} (p q q2 : phase) (c : M E A) :
  lands args p c q -> (forall w a, out (c w) <> Return a) -> lands args p c q2.
Proof.
  intros Hc Hnr w. destruct (Hc w) as (q' & Hph & _ & Hab & Hex).
  exists q'. repeat split; auto. intros a Ha. now apply Hnr in Ha.
Qed.

(** The exit of a run that has nothing to do. *)
Lemma lands_nothing_to_do (q : phase) :
  lands args StateRead (log Info NoRowsNeedAudio ;; @sys_exit E unit 0) q.
Proof.
  intros w. exists StateRead. unfold log. rewrite bind_emit.
  cbn [sys_exit out emitted phases step]. repeat split; discriminate.
Qed.

Lemma lands_values_get (p q : phase) (rg : Range) :
  step args p (SheetsGet rg) = Some q -> q <> Aborted ->
  lands args p (values_get R rg) q.
Proof.
  intros Hstep Hq w. exists q. unfold values_get.
  destruct (sheets_fault R (remote w)) as [[x|] e'];
    [|destruct (rg_first rg <? 1)]; cbn [out emitted phases]; rewrite Hstep;
    repeat split; intros; try contradiction; discriminate.
Qed.

Lemma read_text_lands :
  lands args Init (read_sheet_column R (text_column args) (start_row args) None) TextRead.
Proof.
  unfold read_sheet_column.
  eapply lands_bind with (q := TextRead).
  - apply lands_values_get; [|discriminate].
    unfold column_range. cbn [step]. now rewrite range_eqb_refl.
  - intros values. apply lands_stay; [discriminate|orderly].
Qed.

Lemma read_audio_lands (n : Z) :
  lands args TextRead
    (read_sheet_column R (audio_link_column args) (start_row args) (Some n)) StateRead.
Proof.
  unfold read_sheet_column.
  eapply lands_bind with (q := StateRead).
  - apply lands_values_get; [|discriminate].
    unfold column_range. cbn [step rg_col rg_first].
    now rewrite String.eqb_refl, Z.eqb_refl.
  - intros values. apply lands_stay; [discriminate|orderly].
Qed.

Lemma header_read_lands (col : string) :
  In col [text_column args; audio_link_column args; id_column args] ->
  lands args GapComputed (values_get R (header_range col)) GapComputed.
Proof.
  intros Hin. apply lands_values_get; [|discriminate].
  cbn [step]. replace (reads_header args (header_range col)) with true; [reflexivity|].
  symmetry. unfold reads_header. apply existsb_exists.
  exists col. split; [exact Hin|apply range_eqb_refl].
Qed.

Lemma validate_sheet_structure_lands :
  lands args GapComputed
    (validate_sheet_structure R (text_column args) (audio_link_column args)
       (id_column args)) Validated.
Proof.
  unfold validate_sheet_structure.
  eapply lands_bind; [apply header_read_lands; simpl; auto|intros t].
  eapply lands_bind; [apply header_read_lands; simpl; auto|intros a].
  eapply lands_bind; [apply header_read_lands; simpl; auto|intros i].
  eapply lands_bind; [apply lands_stay; [discriminate|orderly]|intros text_header].
  eapply lands_bind; [apply lands_stay; [discriminate|orderly]|intros audio_header].
  eapply lands_bind; [apply lands_stay; [discriminate|orderly]|intros id_header].
  repeat match goal with
         | |- lands _ _ (if ?b then _ else _) _ =>
             destruct b; [apply lands_abort; eexists; reflexivity|]
         end.
  apply lands_emit; [reflexivity|discriminate].
Qed.

Lemma id_read_stays (row : Z) :
  step args Validated
    (SheetsGet {| rg_col := id_column args; rg_first := row; rg_last := Some row |})
  = Some Validated.
Proof.
  cbn [step]. unfold reads_id. cbn [rg_col rg_last rg_first].
  now rewrite String.eqb_refl, Z.eqb_refl.
Qed.

Lemma process_row_orderly (row_num : Z) (text folder : string) :
  emits_only (stays Validated) (process_row R args row_num text folder).
Proof.
  unfold process_row, name_and_upload, upload_and_mark,
    synthesize_speech_with_retry, synthesize_speech,
    upload_audio_file_with_retry, upload_audio_file,
    update_sheet_cells_with_retry.
  orderly; apply eo_values_get, id_read_stays.
Qed.

Lemma process_rows_orderly (texts : list string) (folder : string) (rows : list Z) :
  emits_only (stays Validated) (process_rows R args texts folder rows).
Proof.
  induction rows as [|row rows IH]; cbn [process_rows]; [apply eo_ret|].
  apply eo_bind; [orderly|intros text].
  apply eo_bind; [apply process_row_orderly|intros _]. exact IH.
Qed.

Lemma process_gap_lands (title : string) (texts : list string) (rows : list Z) :
  lands args StateRead (process_gap R args title texts rows) Validated.
Proof.
  unfold process_gap.
  eapply lands_bind with (q := GapComputed);
    [apply lands_emit; [reflexivity|discriminate]|intros _].
  eapply lands_bind;
    [apply lands_stay; [discriminate|unfold create_or_get_audio_folder; orderly]
    |intros folder].
  eapply lands_bind; [apply lands_stay; [discriminate|orderly]|intros _].
  eapply lands_bind; [apply lands_stay; [discriminate|orderly]|intros rows'].
  eapply lands_bind; [apply validate_sheet_structure_lands|intros _].
  eapply lands_bind;
    [apply lands_stay; [discriminate|apply process_rows_orderly]|intros _].
  apply lands_stay; [discriminate|orderly].
Qed.

Lemma reconcile_lands (title : string) (texts audios : list string) :
  lands args StateRead (reconcile R args title texts audios) Validated.
Proof.
  unfold reconcile.
  destruct (negb (Nat.eqb (List.length audios) (List.length texts))).
  - apply lands_abort. eexists. reflexivity.
  - eapply lands_bind.
    + apply lands_stay; [discriminate|].
      unfold find_rows. apply eo_bind; [|intros; apply eo_ret].
      apply eo_log_all. intros r Hin. apply in_map_iff in Hin.
      destruct Hin as ([row] & <- & _). reflexivity.
    + intros [|row rows]; [apply lands_nothing_to_do|apply process_gap_lands].
Qed.

Lemma main_lands : lands args Init (main R args) Validated.
Proof.
  unfold main.
  eapply lands_bind;
    [apply lands_stay; [discriminate|unfold validate_input_parameters; orderly]
    |intros _].
  eapply lands_bind;
    [apply lands_stay; [discriminate|unfold get_google_services; orderly]|intros _].
  eapply lands_bind; [apply lands_stay; [discriminate|orderly]|intros _].
  eapply lands_bind;
    [apply lands_stay; [discriminate|unfold test_google_services; orderly]|intros _].
  eapply lands_bind;
    [apply lands_stay; [discriminate|unfold get_spreadsheet_title; orderly]
    |intros title].
  eapply lands_bind;
    [apply lands_stay; [discriminate|unfold ensure_column_header; orderly]|intros _].
  eapply lands_bind; [apply read_text_lands|intros texts].
  eapply lands_bind; [apply read_audio_lands|intros audios].
  apply reconcile_lands.
Qed.

End Order.

(** ** Reading and writing the sheet *)

Lemma nth_write_cell (l : list string) (i j : nat) (v : string) :
  nth j (write_cells l i [v]) "" = if Nat.eqb j i then v else nth j l "".
Proof.
  unfold write_cells.
  assert (Hlen : List.length (firstn i (l ++ repeat "" (i - List.length l))) = i).
  { rewrite length_firstn, length_app, repeat_length. lia. }
  destruct (Nat.eqb_spec j i) as [->|Hne].
  - rewrite app_nth2; rewrite Hlen; [|lia]. now rewrite Nat.sub_diag.
  - destruct (Nat.lt_ge_cases j i) as [Hlt|Hge].
    + rewrite app_nth1 by (rewrite Hlen; exact Hlt).
      rewrite nth_firstn.
      destruct (Nat.ltb_spec j i); [|lia].
      destruct (Nat.lt_ge_cases j (List.length l)) as [Hj|Hj].
      * now rewrite app_nth1.
      * rewrite app_nth2 by exact Hj. rewrite nth_repeat.
        now rewrite (nth_overflow l) by exact Hj.
    + rewrite app_nth2; rewrite Hlen; [|lia].
      destruct (j - i)%nat as [|k] eqn:Hk; [lia|].
      cbn [app nth List.length]. rewrite nth_skipn. f_equal. lia.
Qed.

Lemma cell_write_column (s : Sheet) (col col' : string) (row row' : Z) (v : string) :
  1 <= row ->
  cell (write_column s col row [v]) col' row'
  = if String.eqb col' col && (row' =? row) then v else cell s col' row'.
Proof.
  intros Hrow. unfold cell, write_column.
  destruct (String.eqb col' col) eqn:Hc; cbn [andb].
  - apply String.eqb_eq in Hc. subst col'.
    destruct (Z.ltb_spec row' 1) as [Hlt|Hge].
    + destruct (Z.eqb_spec row' row); [lia|reflexivity].
    + rewrite nth_write_cell.
      destruct (Z.eqb_spec row' row) as [->|Hne].
      * now rewrite Nat.eqb_refl.
      * destruct (Nat.eqb_spec (Z.to_nat (row' - 1)) (Z.to_nat (row - 1))); [lia|].
        reflexivity.
  - reflexivity.
Qed.

Lemma drop_trailing_length (p : string -> bool) (l : list string) :
  (List.length (drop_trailing p l) <= List.length l)%nat.
Proof.
  induction l as [|v l IH]; cbn [drop_trailing List.length]; [lia|].
  destruct (drop_trailing p l); [destruct (p v)|]; cbn [List.length] in *; lia.
Qed.

(** Dropping empty values at the end changes no value. *)
Lemma nth_drop_trailing_empty (l : list string) (i : nat) :
  nth i (drop_trailing (fun v => negb (Py.truthy v)) l) "" = nth i l "".
Proof.
  revert i. induction l as [|v l IH]; intros i; cbn [drop_trailing]; [reflexivity|].
  destruct (drop_trailing (fun v => negb (Py.truthy v)) l) as [|v' l'] eqn:Hd.
  - destruct v as [|c r]; cbn [Py.truthy negb].
    + destruct i as [|i]; cbn [nth]; [reflexivity|].
      rewrite <- IH. now destruct i.
    + destruct i as [|i]; cbn [nth]; [reflexivity|].
      rewrite <- IH. now destruct i.
  - destruct i as [|i]; cbn [nth]; [reflexivity|]. apply IH.
Qed.

Lemma nth_pad (l : list string) (m i : nat) :
  nth i (l ++ repeat "" m) "" = nth i l "".
Proof.
  destruct (Nat.lt_ge_cases i (List.length l)) as [Hlt|Hge].
  - now rewrite app_nth1.
  - rewrite app_nth2 by exact Hge. rewrite nth_repeat.
    now rewrite nth_overflow.
Qed.

Section SheetFacts.

Context {E : Type} (R : Remote E).

Lemma shown_empty : shown R "" = "".
Proof. reflexivity. Qed.

Lemma first_or_empty_row (v : string) :
  first_or_empty (if Py.truthy v then [v] else []) = v.
Proof. now destruct v. Qed.

(** The values of a range, one for each row, are what its cells show, the
    empty ones at the end left out. *)
Lemma flatten_range_values (s : Sheet) (rg : Range) :
  map first_or_empty (range_values R s rg)
  = drop_trailing (fun v => negb (Py.truthy v)) (map (shown R) (range_cells s rg)).
Proof.
  unfold range_values. rewrite map_map.
  induction (drop_trailing _ _) as [|v l IH]; cbn [map]; [reflexivity|].
  now rewrite first_or_empty_row, IH.
Qed.

(** A column read depends on the cells of that column only. *)
Lemma sheet_column_ext (s s' : Sheet) (col : string) (start : Z) (force : option Z) :
  s col = s' col -> sheet_column R s col start force = sheet_column R s' col start force.
Proof.
  intros H. unfold sheet_column, range_values, range_cells, column_range.
  destruct force as [n|]; cbn [rg_col rg_first rg_last]; now rewrite H.
Qed.

(** A read with a forced count [n > 0] returns [n] values: what the [n]
    cells from [start] on show. *)
Lemma forced_column (s : Sheet) (col : string) (start : Z) (n : nat) :
  (0 < n)%nat ->
  List.length (sheet_column R s col start (Some (Z.of_nat n))) = n
  /\ forall i, (i < n)%nat ->
       nth i (sheet_column R s col start (Some (Z.of_nat n))) ""
       = shown R (nth (Z.to_nat (start - 1) + i) (s col) "").
Proof.
  intros Hn.
  assert (Hf : forced (Some (Z.of_nat n)) = true).
  { unfold forced. destruct (Z.eqb_spec (Z.of_nat n) 0); [lia|reflexivity]. }
  unfold sheet_column, column_of_values, column_range. rewrite Hf.
  rewrite flatten_range_values. unfold range_cells. cbn [rg_col rg_first rg_last].
  replace (Z.to_nat (start + Z.of_nat n - 1 - start + 1)) with n by lia.
  rewrite Nat2Z.id.
  set (cells := firstn n (skipn (Z.to_nat (start - 1)) (s col))).
  assert (Hlen : (List.length (drop_trailing (fun v => negb (Py.truthy v))
                                 (map (shown R) cells)) <= n)%nat).
  { etransitivity; [apply drop_trailing_length|].
    rewrite length_map. unfold cells. rewrite length_firstn. lia. }
  split.
  - rewrite length_app, repeat_length. lia.
  - intros i Hi. rewrite nth_pad, nth_drop_trailing_empty.
    change "" with (shown R "") at 1. rewrite map_nth.
    unfold cells. rewrite nth_firstn.
    destruct (Nat.ltb_spec i n); [|lia].
    now rewrite nth_skipn.
Qed.

End SheetFacts.

(** ** Computations that keep the process going *)

Section Steady.

Context {E : Type} (R : Remote E) (rel : Sheet -> Sheet -> Prop).
Hypothesis rel_refl : forall s, rel s s.
Hypothesis rel_trans : forall a b c, rel a b -> rel b c -> rel a c.

Lemma st_ret {A} (a : A) : steady rel (@ret E A a).
Proof. intros w. split; [apply rel_refl|discriminate]. Qed.

Lemma st_raise {A} (e : exn) : steady rel (@raise E A e).
Proof. intros w. split; [apply rel_refl|discriminate]. Qed.

Lemma st_log (lvl : level) (r : log_record) : steady rel (@log E lvl r).
Proof. intros w. split; [apply rel_refl|discriminate]. Qed.

Lemma st_sleep (d : Q) : steady rel (@sleep E d).
Proof. intros w. split; [apply rel_refl|discriminate]. Qed.

Lemma st_bind {A B} (c : M E A) (k : A -> M E B) :
  steady rel c -> (forall a, steady rel (k a)) -> steady rel (bind c k).
Proof.
  intros Hc Hk w. unfold bind. destruct (Hc w) as [Hrel Hex].
  destruct (out (c w)) as [a|e|code]; cbn [out after].
  - destruct (Hk a (after (c w))) as [Hrel' Hex'].
    split; [eapply rel_trans; eauto|exact Hex'].
  - split; [exact Hrel|discriminate].
  - exfalso. now apply (Hex code).
Qed.

Lemma st_try_except {A} (c : M E A) (h : exn -> M E A) :
  steady rel c -> (forall e, steady rel (h e)) -> steady rel (try_except c h).
Proof.
  intros Hc Hh w. unfold try_except. destruct (Hc w) as [Hrel Hex].
  destruct (out (c w)) as [a|e|code] eqn:Hout; cbn [out after].
  - split; [exact Hrel|congruence].
  - destruct (Hh e (after (c w))) as [Hrel' Hex'].
    split; [eapply rel_trans; eauto|exact Hex'].
  - exfalso. now apply (Hex code).
Qed.

Lemma st_remote_call {A} (ev : event) (f : E -> reply A * E) :
  steady rel (remote_call ev f).
Proof.
  intros w. unfold remote_call. destruct (f (remote w)) as [[a|e] e'];
    (split; [apply rel_refl|discriminate]).
Qed.

Lemma st_values_get (rg : Range) : steady rel (values_get R rg).
Proof.
  intros w. unfold values_get.
  destruct (sheets_fault R (remote w)) as [[x|] e'];
    [|destruct (rg_first rg <? 1)]; (split; [apply rel_refl|discriminate]).
Qed.

Lemma st_values_update (rg : Range) (vals : list string) :
  (forall s, 1 <= rg_first rg -> rel s (write_column s (rg_col rg) (rg_first rg) vals)) ->
  steady rel (values_update R rg vals).
Proof.
  intros Hw w. unfold values_update.
  destruct (sheets_fault R (remote w)) as [[x|] e'];
    [|destruct (Z.ltb_spec (rg_first rg) 1)];
    (split; [|discriminate]); cbn [after sheet]; auto.
Qed.

Lemma st_spreadsheet_get : steady rel (spreadsheet_get R).
Proof.
  intros w. unfold spreadsheet_get.
  destruct (sheets_fault R (remote w)) as [[x|] e'];
    (split; [apply rel_refl|discriminate]).
Qed.

Lemma st_random_uniform (a b : Q) : steady rel (random_uniform R a b).
Proof.
  apply st_bind; [|intros; apply st_ret].
  intros w. unfold random_random. destruct (random_bits R (remote w)).
  split; [apply rel_refl|discriminate].
Qed.

Lemma st_backoff_loop {A} (func : M E A) (max_retries : Z) (base_delay max_delay : Q)
    (attempts : list Z) :
  steady rel func ->
  steady rel (backoff_loop R func max_retries base_delay max_delay attempts).
Proof.
  intros Hf. induction attempts as [|attempt rest IH]; cbn [backoff_loop].
  - apply st_ret.
  - apply st_try_except.
    + apply st_bind; [exact Hf|intros; apply st_ret].
    + intros e. destruct (attempt =? max_retries - 1); [apply st_raise|].
      apply st_bind; [apply st_random_uniform|intros j].
      apply st_bind; [apply st_log|intros _].
      apply st_bind; [apply st_sleep|intros _]. exact IH.
Qed.

Lemma st_retry {A} (func : M E A) (max_retries : Z) (base_delay max_delay : Q) :
  steady rel func ->
  steady rel (exponential_backoff_retry R func max_retries base_delay max_delay).
Proof. apply st_backoff_loop. Qed.

Lemma st_first_cell (values : list (list string)) : steady rel (@first_cell E values).
Proof. destruct values as [|[|v r] rest]; [apply st_ret|apply st_raise|apply st_ret]. Qed.

Lemma st_int (s : string) : steady rel (@int E s).
Proof. unfold int. destruct (Py.int_of_string s); [apply st_ret|apply st_raise]. Qed.

End Steady.

(** Splits a goal [steady rel c] along the structure of [c], with the
    reflexivity and the transitivity of [rel] among the hypotheses; the writes
    to the sheet are left to the caller. *)
Ltac steadily :=
  repeat first
    [ apply st_ret; assumption | apply st_raise; assumption
    | apply st_log; assumption | apply st_sleep; assumption
    | apply st_values_get; assumption | apply st_spreadsheet_get; assumption
    | apply st_random_uniform; assumption | apply st_first_cell; assumption
    | apply st_int; assumption | apply st_remote_call; assumption
    | apply st_retry; try assumption
    | apply st_try_except; try assumption
    | apply st_bind; try assumption
    | match goal with
      | |- forall _, steady _ _ => intro
      | |- steady _ (match ?x with _ => _ end) => destruct x
      | |- steady _ (if ?b then _ else _) => destruct b
      end ].

Lemma changes_within_refl (col : string) (rows : list Z) (s : Sheet) :
  changes_within col rows s s.
Proof. split; reflexivity. Qed.

Lemma changes_within_trans (col : string) (rows : list Z) (a b c : Sheet) :
  changes_within col rows a b -> changes_within col rows b c ->
  changes_within col rows a c.
Proof.
  intros [H1 H2] [H3 H4]. split.
  - intros col' Hne. now rewrite H3, H1.
  - intros row Hrow. now rewrite H4, H2.
Qed.

Lemma changes_within_write (col : string) (rows : list Z) (s : Sheet) (row : Z)
    (v : string) :
  In row rows -> 1 <= row -> changes_within col rows s (write_column s col row [v]).
Proof.
  intros Hin Hrow. split.
  - intros col' Hne. unfold write_column.
    destruct (String.eqb_spec col' col); [contradiction|reflexivity].
  - intros row' Hnot. rewrite cell_write_column by exact Hrow.
    rewrite String.eqb_refl. cbn [andb].
    destruct (Z.eqb_spec row' row); [subst; contradiction|reflexivity].
Qed.

Section SteadyProgram.

Context {E : Type} (R : Remote E) (args : Args).

Lemma prelude_steady :
  steady eq (get_google_services R ;;
             log Info TestingServices ;;
             test_google_services R ;;
             get_spreadsheet_title R).
Proof.
  pose proof (@eq_refl Sheet) as Hrefl. pose proof (@eq_trans Sheet) as Htrans.
  unfold get_google_services, test_google_services, get_spreadsheet_title.
  steadily.
Qed.

Lemma create_or_get_audio_folder_steady (parent title : string) :
  steady eq (create_or_get_audio_folder R parent title).
Proof.
  pose proof (@eq_refl Sheet) as Hrefl. pose proof (@eq_trans Sheet) as Htrans.
  unfold create_or_get_audio_folder. steadily.
Qed.

Lemma process_row_steady (rows : list Z) (row_num : Z) (text folder : string) :
  In row_num rows ->
  steady (changes_within (audio_link_column args) rows)
         (process_row R args row_num text folder).
Proof.
  intros Hin.
  pose proof (changes_within_refl (audio_link_column args) rows) as Hrefl.
  pose proof (changes_within_trans (audio_link_column args) rows) as Htrans.
  unfold process_row, name_and_upload, upload_and_mark,
    synthesize_speech_with_retry, synthesize_speech,
    upload_audio_file_with_retry, upload_audio_file,
    update_sheet_cells_with_retry.
  steadily.
  all: apply st_values_update; [assumption|];
    intros sh Hrow; now apply changes_within_write.
Qed.

Lemma process_rows_steady (rows_all : list Z) (texts : list string) (folder : string)
    (rows : list Z) :
  incl rows rows_all ->
  steady (changes_within (audio_link_column args) rows_all)
         (process_rows R args texts folder rows).
Proof.
  pose proof (changes_within_refl (audio_link_column args) rows_all) as Hrefl.
  pose proof (changes_within_trans (audio_link_column args) rows_all) as Htrans.
  induction rows as [|row rows IH]; intros Hincl; cbn [process_rows].
  - now apply st_ret.
  - apply st_bind; [assumption| |intros text].
    + destruct (Py.index texts (row - start_row args));
        [now apply st_ret|now apply st_raise].
    + apply st_bind; [assumption| |intros _].
      * apply process_row_steady. apply Hincl. now left.
      * apply IH. intros r Hr. apply Hincl. now right.
Qed.

End SteadyProgram.

(** ** What the driver does to the sheet *)

Section Triples.

Context {E : Type} (R : Remote E).

Lemma triple_bind {A B} (P : World E -> Prop) (c : M E A) (k : A -> M E B)
    (Q1 : outcome A -> World E -> Prop) (Q2 : outcome B -> World E -> Prop) :
  triple P c Q1 ->
  (forall a, triple (Q1 (Return a)) (k a) Q2) ->
  (forall e w, Q1 (Raise e) w -> Q2 (Raise e) w) ->
  (forall n w, Q1 (Exit n) w -> Q2 (Exit n) w) ->
  triple P (bind c k) Q2.
Proof.
  intros Hc Hk He Hn w Hw. specialize (Hc w Hw). unfold bind.
  destruct (out (c w)) as [a|e|n]; cbn [out after].
  - now apply Hk.
  - now apply He.
  - now apply Hn.
Qed.

Lemma triple_pre {A} (P P' : World E -> Prop) (c : M E A)
    (Q : outcome A -> World E -> Prop) :
  (forall w, P w -> P' w) -> triple P' c Q -> triple P c Q.
Proof. intros HP Hc w Hw. apply Hc, HP, Hw. Qed.

(** What is known apart from the sheet is taken out of the precondition. *)
Lemma triple_assume {A} (P : World E -> Prop) (phi : Prop) (s : Sheet) (c : M E A)
    (Q : outcome A -> World E -> Prop) :
  (forall w, P w -> sheet w = s /\ phi) ->
  (phi -> triple (at_sheet s) c Q) ->
  triple P c Q.
Proof. intros HP Hc w Hw. destruct (HP w Hw) as [Hs Hphi]. now apply Hc. Qed.

Lemma steady_triple {A} (s : Sheet) (c : M E A) :
  steady eq c ->
  triple (at_sheet s) c (fun o w' => sheet w' = s /\ forall n, o <> Exit n).
Proof.
  intros Hc w Hw. destruct (Hc w) as [Hrel Hex]. split; [|exact Hex].
  unfold at_sheet in Hw. congruence.
Qed.

(** A step that leaves the sheet alone and does not exit, before the rest. *)
Lemma triple_after_steady {A B} (s : Sheet) (c : M E A) (k : A -> M E B)
    (Q : outcome B -> World E -> Prop) :
  steady eq c ->
  (forall a, triple (at_sheet s) (k a) Q) ->
  (forall e w, Q (Raise e) w) ->
  triple (at_sheet s) (bind c k) Q.
Proof.
  intros Hc Hk He.
  eapply triple_bind; [apply steady_triple, Hc| | |].
  - intros a. eapply triple_pre; [|apply Hk]. now intros w [Hs _].
  - intros e w _. apply He.
  - intros n w [_ Hex]. exfalso. now apply (Hex n).
Qed.

Lemma values_get_triple (s : Sheet) (rg : Range) :
  triple (at_sheet s) (values_get R rg)
    (fun o w' =>
       sheet w' = s
       /\ match o with
          | Return values => values = range_values R s rg /\ 1 <= rg_first rg
          | Raise _ => True
          | Exit _ => False
          end).
Proof.
  intros w Hw. unfold at_sheet in Hw. unfold values_get.
  destruct (sheets_fault R (remote w)) as [[x|] e']; cbn [out after sheet]; auto.
  destruct (Z.ltb_spec (rg_first rg) 1); cbn [out after sheet]; auto.
  subst s. auto.
Qed.

Lemma read_sheet_column_triple (s : Sheet) (col : string) (start : Z) (force : option Z) :
  triple (at_sheet s) (read_sheet_column R col start force)
    (fun o w' =>
       sheet w' = s
       /\ match o with
          | Return values => values = sheet_column R s col start force /\ 1 <= start
          | Raise _ => True
          | Exit _ => False
          end).
Proof.
  unfold read_sheet_column.
  eapply triple_bind; [apply values_get_triple| | |].
  - intros values w [Hs [Hv Hstart]]. cbn [ret out after].
    split; [exact Hs|]. subst values. split; [reflexivity|].
    destruct force; exact Hstart.
  - intros e w [Hs _]. auto.
  - intros n w [_ []].
Qed.

Lemma ensure_column_header_triple (s : Sheet) (col header : string) :
  triple (at_sheet s) (ensure_column_header R col header)
    (fun o w' =>
       match o with
       | Return _ => sheet w' = write_column s col 1 [header]
       | Raise _ => True
       | Exit _ => False
       end).
Proof.
  intros w Hw. unfold at_sheet in Hw. unfold ensure_column_header, values_update.
  destruct (sheets_fault R (remote w)) as [[x|] e']; cbn [out after sheet]; auto.
  cbn [rg_first rg_col Z.ltb Z.compare Pos.compare Pos.compare_cont sheet].
  now subst s.
Qed.

Lemma log_all_run (lvl : level) (rs : list log_record) (w : World E) :
  out (log_all lvl rs w) = Return tt /\ after (log_all lvl rs w) = w.
Proof.
  induction rs as [|r rs IH]; cbn [log_all]; [now split|].
  unfold log. rewrite bind_emit. exact IH.
Qed.

Lemma find_rows_triple (s : Sheet) (audios texts : list string) (start : Z) :
  triple (at_sheet s) (find_rows (E:=E) audios texts start)
    (fun o w' =>
       sheet w' = s /\ o = Return (find_rows_needing_audio audios texts start)).
Proof.
  intros w Hw. unfold find_rows.
  match goal with
  | |- context [bind (log_all ?lvl ?rs) ?k w] =>
      destruct (log_all_run lvl rs w) as [Ho Ha];
      rewrite (bind_return _ k w tt Ho); rewrite Ha
  end.
  cbn [ret out after]. now split.
Qed.

End Triples.

Section DriverTriples.

Context {E : Type} (R : Remote E) (args : Args).

Lemma triple_post {A} (P : World E -> Prop) (c : M E A)
    (Q Q' : outcome A -> World E -> Prop) :
  triple P c Q -> (forall o w, Q o w -> Q' o w) -> triple P c Q'.
Proof. intros Hc HQ w Hw. apply HQ, Hc, Hw. Qed.

Lemma steady_rel_triple {A} (rel : Sheet -> Sheet -> Prop) (s : Sheet) (c : M E A) :
  steady rel c ->
  triple (at_sheet s) c (fun o w' => rel s (sheet w') /\ forall n, o <> Exit n).
Proof.
  intros Hc w Hw. destruct (Hc w) as [Hrel Hex]. unfold at_sheet in Hw.
  subst s. auto.
Qed.

Lemma first_cell_triple (s : Sheet) (values : list (list string)) :
  triple (at_sheet s) (first_cell (E:=E) values)
    (fun o w' =>
       sheet w' = s
       /\ match o with
          | Return v => v = match values with (x :: _) :: _ => x | _ => "" end
          | Raise _ => True
          | Exit _ => False
          end).
Proof.
  intros w Hw. destruct values as [|[|x r] rest]; cbn; auto.
Qed.

(** The header found in a column, once its range is read. *)
Lemma header_read_triple {B} (s : Sheet) (col : string) (k : list (list string) -> M E B)
    (Q : outcome B -> World E -> Prop) :
  triple (at_sheet s) (k (range_values R s (header_range col))) Q ->
  (forall e w, sheet w = s -> Q (Raise e) w) ->
  triple (at_sheet s) (bind (values_get R (header_range col)) k) Q.
Proof.
  intros Hk He.
  eapply triple_bind; [apply values_get_triple| | |].
  - intros values.
    apply (triple_assume _ (values = range_values R s (header_range col)) s).
    + intros w [Hs [Hv _]]. auto.
    + intros ->. exact Hk.
  - intros e w [Hs _]. now apply He.
  - intros n w [_ []].
Qed.

Lemma header_cell_triple {B} (s : Sheet) (col : string) (k : string -> M E B)
    (Q : outcome B -> World E -> Prop) :
  triple (at_sheet s) (k (header_value R s col)) Q ->
  (forall e w, sheet w = s -> Q (Raise e) w) ->
  triple (at_sheet s) (bind (first_cell (range_values R s (header_range col))) k) Q.
Proof.
  intros Hk He.
  eapply triple_bind; [apply first_cell_triple| | |].
  - intros v.
    apply (triple_assume _ (v = header_value R s col) s).
    + intros w [Hs Hv]. auto.
    + intros ->. exact Hk.
  - intros e w [Hs _]. now apply He.
  - intros n w [_ []].
Qed.

Lemma not_stripped_empty (h : string) :
  negb (Py.truthy (Py.strip h)) = Py.blank h.
Proof. rewrite strip_truthy. apply negb_involutive. Qed.

Lemma validate_sheet_structure_triple (s : Sheet) :
  triple (at_sheet s)
    (validate_sheet_structure R (text_column args) (audio_link_column args)
       (id_column args))
    (validate_post R args s).
Proof.
  assert (Hraise : forall e (w : World E), sheet w = s -> validate_post R args s (Raise e) w)
    by (intros e w Hs; split; auto).
  unfold validate_sheet_structure.
  do 3 (apply header_read_triple; [|exact Hraise]).
  do 3 (apply header_cell_triple; [|exact Hraise]).
  rewrite !not_stripped_empty.
  intros w Hw. unfold at_sheet in Hw.
  destruct (Py.blank (header_value R s (text_column args))) eqn:H1;
    [split; [exact Hw|reflexivity]|].
  destruct (Py.blank (header_value R s (audio_link_column args))) eqn:H2;
    [split; [exact Hw|reflexivity]|].
  destruct (Py.blank (header_value R s (id_column args))) eqn:H3;
    [split; [exact Hw|reflexivity]|].
  destruct (String.eqb_spec (Py.lower (header_value R s (text_column args))) "translation")
    as [H4|H4]; cbn [negb]; [|split; [exact Hw|reflexivity]].
  destruct (String.eqb_spec (Py.lower (header_value R s (audio_link_column args))) "audio_file")
    as [H5|H5]; cbn [negb]; [|split; [exact Hw|reflexivity]].
  destruct (String.eqb_spec (Py.lower (header_value R s (id_column args))) "sentence_id")
    as [H6|H6]; cbn [negb]; [|split; [exact Hw|reflexivity]].
  split; [exact Hw|]. cbn [log emit out]. repeat split; assumption.
Qed.

Lemma slice_to_incl {A} (l : list A) (n : Z) : incl (Py.slice_to l n) l.
Proof.
  assert (H : forall k, incl (firstn k l) l).
  { intros k x Hx. rewrite <- (firstn_skipn k l). apply in_or_app. now left. }
  unfold Py.slice_to. destruct (0 <=? n); apply H.
Qed.

Lemma process_gap_triple (s : Sheet) (title : string) (texts : list string) (rows : list Z) :
  triple (at_sheet s) (process_gap R args title texts rows)
    (process_gap_post R args s rows).
Proof.
  pose proof (@eq_refl Sheet) as Hrefl. pose proof (@eq_trans Sheet) as Htrans.
  assert (Hraise : forall e (w : World E), process_gap_post R args s rows (Raise e) w)
    by (intros; exact I).
  unfold process_gap.
  apply triple_after_steady; [now apply st_log| |exact Hraise]. intros _.
  apply triple_after_steady;
    [apply create_or_get_audio_folder_steady| |exact Hraise]. intros folder.
  apply triple_after_steady; [now apply st_log| |exact Hraise]. intros _.
  eapply triple_bind with
    (Q1 := fun o w' => sheet w' = s /\ exists rows', o = Return rows' /\ incl rows' rows).
  - intros w Hw. unfold at_sheet in Hw. destruct (max_rows args) as [n|].
    + unfold log. rewrite bind_emit. cbn [ret out after].
      split; [exact Hw|]. eexists. split; [reflexivity|apply slice_to_incl].
    + cbn [ret out after]. split; [exact Hw|].
      eexists. split; [reflexivity|apply incl_refl].
  - intros rows'. apply (triple_assume _ (incl rows' rows) s).
    + intros w [Hs (r & Hr & Hincl)]. injection Hr as Hr. subst r. auto.
    + intros Hincl.
      eapply triple_bind; [apply validate_sheet_structure_triple| | |].
      * intros u. apply (triple_assume _ (headers_ok R s args) s).
        { intros w [Hs Hok]. auto. }
        intros Hok.
        eapply triple_bind;
          [apply (steady_rel_triple (changes_within (audio_link_column args) rows)),
             (process_rows_steady R args rows texts folder rows' Hincl)| | |].
        { intros u' w [Hch _]. split; assumption. }
        { intros e w _. exact I. }
        { intros n w [_ Hex]. exfalso. now apply (Hex n). }
      * intros e w _. exact I.
      * intros n w [_ Hn]. exact Hn.
  - intros e w (_ & r & Hr & _). discriminate Hr.
  - intros n w (_ & r & Hr & _). discriminate Hr.
Qed.

Lemma reconcile_triple (s : Sheet) (title : string) (texts audios : list string) :
  triple (at_sheet s) (reconcile R args title texts audios)
    (reconcile_post R args s texts audios).
Proof.
  unfold reconcile.
  destruct (Nat.eqb_spec (List.length audios) (List.length texts)) as [Hlen|Hlen];
    cbn [negb].
  - eapply triple_bind; [apply find_rows_triple| | |].
    + intros gap.
      apply (triple_assume _
               (gap = find_rows_needing_audio audios texts (start_row args)) s).
      * intros w [Hs Hg]. injection Hg as Hg. auto.
      * intros Hgap. destruct gap as [|row rows].
        -- intros w Hw. unfold log. rewrite bind_emit. cbn [sys_exit out after].
           unfold reconcile_post. rewrite <- Hgap. right. auto.
        -- eapply triple_post; [apply process_gap_triple|].
           intros o w Hpost. unfold reconcile_post, process_gap_post in *.
           rewrite <- Hgap.
           destruct o as [[]|e|n]; auto.
           ++ destruct Hpost as [Hok Hch].
              split; [exact Hlen|]. split; [discriminate|]. split; assumption.
           ++ left. split; [exact Hpost|]. right. discriminate.
    + intros e w [_ Ho]. discriminate Ho.
    + intros n w [_ Ho]. discriminate Ho.
  - intros w Hw. unfold log. rewrite bind_emit. cbn [sys_exit out after].
    unfold reconcile_post. left. auto.
Qed.

End DriverTriples.

Section MainSpec.

Context {E : Type} (R : Remote E) (args : Args).

(** [main] ends as [main_post] tells. *)
Lemma main_spec (w : World E) :
  main_post R args (sheet w) (out (main R args w)) (after (main R args w)).
Proof.
  pose proof (@eq_refl Sheet) as Hrefl. pose proof (@eq_trans Sheet) as Htrans.
  set (s := sheet w).
  set (Q := fun (o : outcome unit) (w' : World E) =>
              match o with
              | Raise _ => True
              | _ => 1 <= start_row args
                     /\ reconcile_post R args (with_header s args) (next_text R s args)
                          (next_audio R s args) o w'
              end).
  assert (Hraise : forall e (w' : World E), Q (Raise e) w') by (intros; exact I).
  unfold main, validate_input_parameters.
  destruct (Qle_bool (speaking_rate args) 0) eqn:Hrate.
  - unfold main_post. cbn. left. auto.
  - assert (Hrest : triple (at_sheet s)
      (get_google_services R ;;
       log Info TestingServices ;;
       test_google_services R ;;
       spreadsheet_title <- get_spreadsheet_title R ;;
       ensure_column_header R (audio_link_column args) "audio_file" ;;
       text_col_values <- read_sheet_column R (text_column args) (start_row args) None ;;
       audio_col_values <- read_sheet_column R (audio_link_column args) (start_row args)
                             (Some (Z.of_nat (List.length text_col_values))) ;;
       reconcile R args spreadsheet_title text_col_values audio_col_values) Q).
    { apply triple_after_steady;
        [unfold get_google_services; steadily| |exact Hraise]. intros _.
      apply triple_after_steady; [steadily| |exact Hraise]. intros _.
      apply triple_after_steady;
        [unfold test_google_services; steadily| |exact Hraise]. intros _.
      apply triple_after_steady;
        [unfold get_spreadsheet_title; steadily| |exact Hraise]. intros title.
      eapply triple_bind; [apply ensure_column_header_triple| | |].
      - intros u. apply (triple_pre _ (at_sheet (with_header s args)));
          [intros w' Hw'; exact Hw'|].
        eapply triple_bind; [apply read_sheet_column_triple| | |].
        + intros texts.
          apply (triple_assume _ (texts = next_text R s args /\ 1 <= start_row args)
                   (with_header s args)).
          { intros w' [Hs Hv]. auto. }
          intros [-> Hstart].
          eapply triple_bind; [apply read_sheet_column_triple| | |].
          * intros audios.
            apply (triple_assume _ (audios = next_audio R s args) (with_header s args)).
            { intros w' [Hs [Hv _]]. auto. }
            intros ->.
            eapply triple_post; [apply reconcile_triple|].
            intros o w' Hpost. unfold Q. destruct o; auto.
          * intros e w' _. exact I.
          * intros n w' [_ []].
        + intros e w' _. exact I.
        + intros n w' [_ []].
      - intros e w' _. exact I.
      - intros n w' []. }
    specialize (Hrest w eq_refl).
    unfold main_post. unfold bind at 1. cbn [ret out after emitted app].
    unfold Q in Hrest.
    destruct (out _) as [u|e|n] eqn:Hout; auto.
Qed.

End MainSpec.

(** ** A second run *)

Lemma in_find_rows (markers sources : list string) (start row : Z) :
  List.length markers = List.length sources ->
  In row (find_rows_needing_audio markers sources start) <->
  exists i, (i < List.length sources)%nat /\ row = start + Z.of_nat i
            /\ in_gap markers sources i = true.
Proof.
  intros Hlen.
  destruct (find_rows_needing_audio_exact markers sources start Hlen) as [-> _].
  unfold gap_rows. rewrite in_map_iff. split.
  - intros (i & <- & Hin). apply filter_In in Hin. destruct Hin as [Hseq Hgap].
    apply in_seq in Hseq. exists i. repeat split; [lia|exact Hgap].
  - intros (i & Hi & -> & Hgap). exists i. split; [reflexivity|].
    apply filter_In. split; [apply in_seq; lia|exact Hgap].
Qed.

Lemma find_rows_empty (markers sources : list string) (start : Z) :
  List.length markers = List.length sources ->
  (forall i, (i < List.length sources)%nat -> in_gap markers sources i = false) ->
  find_rows_needing_audio markers sources start = [].
Proof.
  intros Hlen Hnone.
  destruct (find_rows_needing_audio markers sources start) as [|row rows] eqn:Hrows;
    [reflexivity|].
  assert (Hin : In row (find_rows_needing_audio markers sources start))
    by (rewrite Hrows; now left).
  apply in_find_rows in Hin; [|exact Hlen].
  destruct Hin as (i & Hi & _ & Hgap). rewrite (Hnone i Hi) in Hgap. discriminate.
Qed.

Section SecondRun.

Context {E : Type} (R : Remote E) (args : Args).

(** The header found in a column is what its first cell shows. *)
Lemma header_value_cell (s : Sheet) (col : string) :
  header_value R s col = shown R (cell s col 1).
Proof.
  unfold header_value, range_values, range_cells, header_range, cell.
  cbn [rg_col rg_first rg_last].
  change (Z.to_nat (1 - 1)) with 0%nat. change (Z.to_nat (1 - 1 + 1)) with 1%nat.
  change (1 <? 1) with false. cbn [skipn].
  destruct (s col) as [|c rest]; cbn [firstn map drop_trailing nth]; [reflexivity|].
  destruct (shown R c) as [|a r] eqn:Hc; reflexivity.
Qed.

Lemma with_header_cell (s : Sheet) (row : Z) :
  cell (with_header s args) (audio_link_column args) row
  = if row =? 1 then "audio_file" else cell s (audio_link_column args) row.
Proof.
  unfold with_header. rewrite cell_write_column by lia.
  now rewrite String.eqb_refl.
Qed.

Lemma with_header_other (s : Sheet) (col : string) :
  col <> audio_link_column args -> with_header s args col = s col.
Proof.
  intros Hne. unfold with_header, write_column.
  destruct (String.eqb_spec col (audio_link_column args)); [contradiction|reflexivity].
Qed.

Lemma with_header_twice (s : Sheet) (col : string) :
  with_header (with_header s args) args col = with_header s args col.
Proof.
  unfold with_header, write_column.
  destruct (String.eqb col (audio_link_column args)); reflexivity.
Qed.

(** The columns a run reads depend on the sheet under its header only. *)
Lemma next_columns_ext (s s' : Sheet) :
  (forall col, with_header s args col = with_header s' args col) ->
  next_text R s args = next_text R s' args
  /\ next_audio R s args = next_audio R s' args
  /\ next_gap R s args = next_gap R s' args.
Proof.
  intros Hext.
  assert (Ht : next_text R s args = next_text R s' args)
    by (apply sheet_column_ext, Hext).
  assert (Ha : next_audio R s args = next_audio R s' args).
  { unfold next_audio. rewrite Ht. apply sheet_column_ext, Hext. }
  unfold next_gap. now rewrite Ht, Ha.
Qed.

(** The marker column as a run reads it, when there is a source column to
    go with it: one value for each source, what the marker cell of the row
    shows. *)
Lemma next_audio_cells (s : Sheet) :
  1 <= start_row args ->
  (0 < List.length (next_text R s args))%nat ->
  List.length (next_audio R s args) = List.length (next_text R s args)
  /\ forall i, (i < List.length (next_text R s args))%nat ->
       nth i (next_audio R s args) ""
       = marker_shown R (with_header s args) args (start_row args + Z.of_nat i).
Proof.
  intros Hstart Hlen. unfold next_audio.
  destruct (forced_column R (with_header s args) (audio_link_column args)
              (start_row args) _ Hlen) as [Hl Hnth].
  split; [exact Hl|]. intros i Hi. rewrite (Hnth i Hi).
  unfold marker_shown, cell.
  destruct (Z.ltb_spec (start_row args + Z.of_nat i) 1); [lia|].
  do 2 f_equal. lia.
Qed.

End SecondRun.

Section SecondGap.

Context {E : Type} (R : Remote E) (args : Args).

(** After a run that processed its gap, on a sheet [sf] where every row of
    that gap shows a marker, the next gap is empty. *)
Lemma gap_closed (s sf : Sheet) :
  1 <= start_row args ->
  List.length (next_audio R s args) = List.length (next_text R s args) ->
  next_gap R s args <> [] ->
  headers_ok R (with_header s args) args ->
  changes_within (audio_link_column args) (next_gap R s args) (with_header s args) sf ->
  (forall row, In row (next_gap R s args) ->
               Py.blank (marker_shown R sf args row) = false) ->
  List.length (next_audio R sf args) = List.length (next_text R sf args)
  /\ next_gap R sf args = [].
Proof.
  intros Hstart Hlen Hgap (_ & Hblank_a & _ & Htext & Haudio & _) [Hother Hcells] Hmarked.
  assert (Hcols : text_column args <> audio_link_column args).
  { intros Heq. rewrite Heq in Htext. rewrite Htext in Haudio. discriminate. }
  assert (Ht : next_text R sf args = next_text R s args).
  { apply sheet_column_ext. rewrite !with_header_other by exact Hcols.
    rewrite (Hother _ Hcols). now apply with_header_other. }
  assert (Hpos : (0 < List.length (next_text R s args))%nat).
  { destruct (next_gap R s args) as [|row rows] eqn:Hg; [contradiction|].
    assert (Hin : In row (next_gap R s args)) by (rewrite Hg; now left).
    apply in_find_rows in Hin; [|exact Hlen].
    destruct Hin as (i & Hi & _). lia. }
  destruct (next_audio_cells R args s Hstart Hpos) as [_ Hnth1].
  assert (Hpos2 : (0 < List.length (next_text R sf args))%nat) by (now rewrite Ht).
  destruct (next_audio_cells R args sf Hstart Hpos2) as [Hlen2 Hnth2].
  split; [exact Hlen2|].
  apply find_rows_empty; [exact Hlen2|].
  intros i Hi. unfold in_gap. rewrite (Hnth2 i Hi).
  rewrite Ht in Hi |- *.
  destruct (Py.blank (nth i (next_text R s args) "")) eqn:Hsrc; [reflexivity|].
  cbn [negb andb]. unfold marker_shown. rewrite with_header_cell.
  destruct (Z.eqb_spec (start_row args + Z.of_nat i) 1) as [Hone|Hone].
  - rewrite header_value_cell, with_header_cell in Hblank_a. exact Hblank_a.
  - destruct (in_dec Z.eq_dec (start_row args + Z.of_nat i) (next_gap R s args))
      as [Hin|Hout].
    + apply (Hmarked _ Hin).
    + rewrite (Hcells _ Hout).
      specialize (Hnth1 i Hi). unfold marker_shown in Hnth1. rewrite <- Hnth1.
      destruct (Py.blank (nth i (next_audio R s args) "")) eqn:Haud; [|reflexivity].
      exfalso. apply Hout. apply in_find_rows; [exact Hlen|].
      exists i. repeat split; [exact Hi|].
      unfold in_gap. now rewrite Hsrc, Haud.
Qed.

End SecondGap.

(** C2. A second run has nothing to do.  Let a first run end normally, by
    processing its gap or by finding none, and let every row of its gap show
    a marker afterwards.  On the sheet it leaves, whatever the state of the
    remote services, a second run that no failure of a service cuts short
    computes an empty gap and exits with status 0 at "nothing to do": its
    events stop in the phase [StateRead], before any header is checked or
    any row started, and it leaves the sheet as it found it, the header of
    the marker column apart. *)
Theorem second_run_has_nothing_to_do {E : Type} (R : Remote E) (args : Args)
    (w : World E) (services : E) :
  let r1 := main R args w in
  let w2 := {| sheet := sheet (after r1); remote := services |} in
  let r2 := main R args w2 in
  (out r1 = Return tt \/ out r1 = Exit 0) ->
  (forall row, In row (next_gap R (sheet w) args) ->
               Py.blank (marker_shown R (sheet (after r1)) args row) = false) ->
  (forall e, out r2 <> Raise e) ->
  next_gap R (sheet w2) args = []
  /\ out r2 = Exit 0
  /\ phases args Init (emitted r2) = Some StateRead
  /\ sheet (after r2) = with_header (sheet w2) args.
Proof.
  intros r1 w2 r2 Hend Hmarked Hnoraise.
  pose proof (main_spec R args w) as H1. fold r1 in H1.
  pose proof (main_spec R args w2) as H2. fold r2 in H2.
  change (sheet w2) with (sheet (after r1)) in *.
  (* what the first run tells about the sheet it leaves *)
  assert (Hfirst : Qle_bool (speaking_rate args) 0 = false
                   /\ List.length (next_audio R (sheet (after r1)) args)
                      = List.length (next_text R (sheet (after r1)) args)
                   /\ next_gap R (sheet (after r1)) args = []).
  { unfold main_post in H1. destruct Hend as [Hret|Hexit].
    - rewrite Hret in H1.
      destruct H1 as [[_ Habs]|(Hrate & Hstart & Hlen & Hgap & Hok & Hch)];
        [discriminate|].
      split; [exact Hrate|].
      apply (gap_closed R args (sheet w) (sheet (after r1))); assumption.
    - rewrite Hexit in H1.
      destruct H1 as [[_ Habs]|(Hrate & Hstart & [[Habs _]|(_ & Hlen & Hgap & Hsheet)])];
        [discriminate|discriminate|].
      split; [exact Hrate|].
      destruct (next_columns_ext R args (sheet (after r1)) (sheet w))
        as (Ht & Ha & Hg).
      { intros col. rewrite Hsheet. apply with_header_twice. }
      rewrite Ht, Ha, Hg. split; [exact Hlen|exact Hgap]. }
  destruct Hfirst as (Hrate & Hlen & Hgap).
  split; [exact Hgap|].
  assert (Hout : out r2 = Exit 0
                 /\ sheet (after r2) = with_header (sheet (after r1)) args).
  { unfold main_post, reconcile_post in H2.
    fold (next_gap R (sheet (after r1)) args) in H2. rewrite Hgap in H2.
    destruct (out r2) as [u|e|n] eqn:Ho.
    - destruct H2 as [[_ Habs]|(_ & _ & _ & Hne & _)]; [discriminate|].
      now contradiction Hne.
    - exfalso. now apply (Hnoraise e).
    - destruct H2 as [[Habs _]|(_ & _ & [(_ & [Hne|Hne])|(-> & _ & _ & Hs)])].
      + rewrite Hrate in Habs. discriminate.
      + contradiction.
      + now contradiction Hne.
      + auto. }
  destruct Hout as [Hout Hsheet]. split; [exact Hout|]. split; [|exact Hsheet].
  destruct (main_lands R args w2) as (q & Hph & _ & _ & Hexit).
  fold r2 in Hph, Hexit. now rewrite (Hexit Hout) in Hph.
Qed.

Lemma second_run_has_nothing_to_do_witness :
  out (main scripted demo_args demo_world) = Return tt
  /\ next_gap scripted (sheet demo_world) demo_args = [2; 3]
  /\ out (main scripted demo_args
            {| sheet := sheet (after (main scripted demo_args demo_world));
               remote := flaky_test |}) = Exit 0.
Proof.
  split; [reflexivity|]. split; [reflexivity|].
  apply (second_run_has_nothing_to_do scripted demo_args demo_world flaky_test).
  - left. reflexivity.
  - intros row Hin.
    change (In row [2; 3]) in Hin.
    destruct Hin as [<-|[<-|[]]]; reflexivity.
  - vm_compute. discriminate.
Defined.


(** ** The order of a run and the verdict on the headers *)

(** *** What the phases tell *)

Section PhaseFacts.

Variable args : Args.

Lemma step_to_validated (p : phase) (ev : event) :
  step args p ev = Some Validated -> p = Validated \/ verdict ev = Some true.
Proof.
  destruct p; cbn [step]; try discriminate;
    destruct ev as [|rg|rg vals| | | | | | |lvl r|]; cbn [verdict];
    try destruct r;
    repeat match goal with
           | |- context [if ?b then _ else _] => destruct b
           end;
    intros H; try discriminate H; auto.
Qed.

Lemma step_to_aborted (p : phase) (ev : event) :
  step args p ev = Some Aborted -> verdict ev = Some false.
Proof.
  destruct p; cbn [step]; try discriminate;
    destruct ev as [|rg|rg vals| | | | | | |lvl r|]; cbn [verdict];
    try destruct r;
    repeat match goal with
           | |- context [if ?b then _ else _] => destruct b
           end;
    intros H; try discriminate H; auto.
Qed.

Lemma step_from_validated (ev : event) (q : phase) :
  step args Validated ev = Some q -> q = Validated.
Proof.
  cbn [step].
  destruct ev as [|rg|rg vals| | | | | | |lvl r|];
    try destruct r;
    repeat match goal with
           | |- context [if ?b then _ else _] => destruct b
           end;
    intros H; try discriminate H; now injection H.
Qed.

Lemma step_call (p q : phase) (ev : event) :
  is_call ev = true -> step args p ev = Some q -> p = Validated.
Proof.
  destruct ev as [|rg|rg vals| | | | | | |lvl r|]; try discriminate.
  destruct r; try discriminate; intros _; destruct p; cbn [step];
    intros H; try discriminate H; reflexivity.
Qed.

Lemma phases_from_validated (evs : list event) (q : phase) :
  phases args Validated evs = Some q -> q = Validated.
Proof.
  induction evs as [|ev evs IH]; cbn [phases]; [intros H; now injection H|].
  destruct (step args Validated ev) as [p|] eqn:Hstep; [|discriminate].
  apply step_from_validated in Hstep. subst p. exact IH.
Qed.

(** The phase [Validated] is entered by the record that the headers are as
    required, and by nothing else. *)
Lemma phases_validated (p : phase) (evs : list event) :
  phases args p evs = Some Validated ->
  p = Validated \/ Exists (fun ev => verdict ev = Some true) evs.
Proof.
  revert p. induction evs as [|ev evs IH]; intros p; cbn [phases].
  - intros H. injection H as ->. now left.
  - destruct (step args p ev) as [p1|] eqn:Hstep; [|discriminate].
    intros H. destruct (IH p1 H) as [->|Hex]; [|right; now apply Exists_cons_tl].
    destruct (step_to_validated p ev Hstep) as [Hp|Hv]; [now left|].
    right. now apply Exists_cons_hd.
Qed.

(** The phase [Aborted] is entered by the record of a header that is missing
    or wrong, and by nothing else. *)
Lemma phases_aborted (p : phase) (evs : list event) :
  phases args p evs = Some Aborted ->
  p = Aborted \/ Exists (fun ev => verdict ev = Some false) evs.
Proof.
  revert p. induction evs as [|ev evs IH]; intros p; cbn [phases].
  - intros H. injection H as ->. now left.
  - destruct (step args p ev) as [p1|] eqn:Hstep; [|discriminate].
    intros H. destruct (IH p1 H) as [->|Hex]; [|right; now apply Exists_cons_tl].
    right. apply Exists_cons_hd. exact (step_to_aborted p ev Hstep).
Qed.

(** A row is started in the phase [Validated] only, which is not left. *)
Lemma phases_no_call (p q : phase) (evs : list event) :
  phases args p evs = Some q -> q <> Validated -> rows_called evs = [].
Proof.
  revert p. induction evs as [|ev evs IH]; intros p; cbn [phases]; [reflexivity|].
  destruct (step args p ev) as [p1|] eqn:Hstep; [|discriminate].
  intros H Hq. destruct (is_call ev) eqn:Hcall.
  - exfalso. apply Hq. pose proof (step_call p p1 ev Hcall Hstep) as ->.
    apply step_from_validated in Hstep. subst p1.
    now apply phases_from_validated in H.
  - specialize (IH p1 H Hq).
    destruct ev as [|rg|rg vals| | | | | | |lvl r|]; try exact IH.
    destruct r; try exact IH; discriminate Hcall.
Qed.

End PhaseFacts.

(** *** What a run tells of the headers is true *)

Section Judged.

Context {E : Type} (R : Remote E) (args : Args).

Abbreviation tells_nothing := (fun ev => verdict ev = None).

Lemma stays_tells_nothing (p : phase) (ev : event) :
  step args p ev = Some p -> verdict ev = None.
Proof.
  destruct p; cbn [step]; try discriminate;
    destruct ev as [|rg|rg vals| | | | | | |lvl r|]; cbn [verdict];
    try destruct r;
    repeat match goal with
           | |- context [if ?b then _ else _] => destruct b
           end;
    intros H; try discriminate H; reflexivity.
Qed.

Lemma eo_weaken {A} (P Q : event -> Prop) (c : M E A) :
  (forall ev, P ev -> Q ev) -> emits_only P c -> emits_only Q c.
Proof.
  intros HPQ Hc w. destruct (Hc w) as [Hev Hex]. split; [|exact Hex].
  now apply (Forall_impl _ HPQ).
Qed.

Lemma sound_nothing (s : Sheet) (evs : list event) :
  Forall tells_nothing evs -> Forall (sound_verdict R args s) evs.
Proof.
  apply Forall_impl. intros ev Hev. unfold sound_verdict. now rewrite Hev.
Qed.

Lemma jd_quiet {A} (s : Sheet) (P : World E -> Prop) (c : M E A) :
  emits_only tells_nothing c -> judged R args s P c.
Proof. intros Hc w _. apply sound_nothing, Hc. Qed.

Lemma jd_bind_any {A B} (s : Sheet) (P : World E -> Prop) (c : M E A) (k : A -> M E B) :
  judged R args s P c ->
  (forall a w, P w -> out (c w) = Return a ->
               Forall (sound_verdict R args s) (emitted (k a (after (c w))))) ->
  judged R args s P (bind c k).
Proof.
  intros Hc Hk w Hw. specialize (Hc w Hw). specialize (fun a => Hk a w Hw).
  unfold bind. destruct (out (c w)) as [a|e|n]; cbn [emitted]; [|exact Hc|exact Hc].
  apply Forall_app. split; [exact Hc|now apply Hk].
Qed.

Lemma jd_bind {A B} (s : Sheet) (P : World E -> Prop) (c : M E A) (k : A -> M E B)
    (Q : outcome A -> World E -> Prop) :
  triple P c Q -> judged R args s P c ->
  (forall a, judged R args s (Q (Return a)) (k a)) ->
  judged R args s P (bind c k).
Proof.
  intros Ht Hc Hk. apply jd_bind_any; [exact Hc|].
  intros a w Hw Ho. apply Hk. specialize (Ht w Hw). now rewrite Ho in Ht.
Qed.

Lemma jd_pre {A} (s : Sheet) (P P' : World E -> Prop) (c : M E A) :
  (forall w, P w -> P' w) -> judged R args s P' c -> judged R args s P c.
Proof. intros HP Hc w Hw. apply Hc, HP, Hw. Qed.

Lemma jd_assume {A} (s s0 : Sheet) (P : World E -> Prop) (phi : Prop) (c : M E A) :
  (forall w, P w -> sheet w = s0 /\ phi) ->
  (phi -> judged R args s (at_sheet s0) c) ->
  judged R args s P c.
Proof. intros HP Hc w Hw. destruct (HP w Hw) as [Hs Hphi]. now apply Hc. Qed.

Lemma jd_after_steady {A B} (s s0 : Sheet) (c : M E A) (k : A -> M E B) :
  steady eq c -> emits_only tells_nothing c ->
  (forall a, judged R args s (at_sheet s0) (k a)) ->
  judged R args s (at_sheet s0) (bind c k).
Proof.
  intros Hst Hq Hk.
  eapply jd_bind; [apply steady_triple, Hst|now apply jd_quiet|].
  intros a. eapply jd_pre; [|apply Hk]. now intros w [Hs _].
Qed.

Lemma jd_then_quiet {A B} (s : Sheet) (P : World E -> Prop) (c : M E A) (k : A -> M E B) :
  judged R args s P c -> (forall a, emits_only tells_nothing (k a)) ->
  judged R args s P (bind c k).
Proof.
  intros Hc Hk. apply jd_bind_any; [exact Hc|].
  intros a w _ _. apply sound_nothing, Hk.
Qed.

Lemma header_read_judged {B} (s : Sheet) (col : string) (k : list (list string) -> M E B) :
  judged R args s (at_sheet s) (k (range_values R s (header_range col))) ->
  judged R args s (at_sheet s) (bind (values_get R (header_range col)) k).
Proof.
  intros Hk.
  eapply jd_bind;
    [apply values_get_triple|apply jd_quiet, eo_values_get; reflexivity|].
  intros values.
  apply (jd_assume s s _ (values = range_values R s (header_range col))).
  - intros w [Hs [Hv _]]. auto.
  - intros ->. exact Hk.
Qed.

Lemma header_cell_judged {B} (s : Sheet) (col : string) (k : string -> M E B) :
  judged R args s (at_sheet s) (k (header_value R s col)) ->
  judged R args s (at_sheet s)
         (bind (first_cell (range_values R s (header_range col))) k).
Proof.
  intros Hk.
  eapply jd_bind; [apply first_cell_triple|apply jd_quiet, eo_first_cell|].
  intros v. apply (jd_assume s s _ (v = header_value R s col)).
  - intros w [Hs Hv]. auto.
  - intros ->. exact Hk.
Qed.

Lemma emitted_abort (lvl : level) (r : log_record) (code : Z) (w : World E) :
  emitted ((log lvl r ;; @sys_exit E unit code) w) = [Logged lvl r].
Proof. reflexivity. Qed.

(** The verdict of [validate_sheet_structure] is true of the sheet it
    reads: the headers are compared with the three names. *)
Lemma validate_sheet_structure_judged (s : Sheet) :
  judged R args s (at_sheet s)
    (validate_sheet_structure R (text_column args) (audio_link_column args)
       (id_column args)).
Proof.
  unfold validate_sheet_structure.
  do 3 apply header_read_judged. do 3 apply header_cell_judged.
  rewrite !not_stripped_empty.
  intros w _. unfold headers_ok.
  destruct (Py.blank (header_value R s (text_column args))) eqn:H1.
  { rewrite emitted_abort. constructor; [|constructor].
    intros (H & _). rewrite H in H1. discriminate H1. }
  destruct (Py.blank (header_value R s (audio_link_column args))) eqn:H2.
  { rewrite emitted_abort. constructor; [|constructor].
    intros (_ & H & _). rewrite H in H2. discriminate H2. }
  destruct (Py.blank (header_value R s (id_column args))) eqn:H3.
  { rewrite emitted_abort. constructor; [|constructor].
    intros (_ & _ & H & _). rewrite H in H3. discriminate H3. }
  destruct (String.eqb_spec (Py.lower (header_value R s (text_column args)))
              "translation") as [H4|H4]; cbn [negb].
  2:{ rewrite emitted_abort. constructor; [|constructor].
      intros (_ & _ & _ & H & _). contradiction. }
  destruct (String.eqb_spec (Py.lower (header_value R s (audio_link_column args)))
              "audio_file") as [H5|H5]; cbn [negb].
  2:{ rewrite emitted_abort. constructor; [|constructor].
      intros (_ & _ & _ & _ & H & _). contradiction. }
  destruct (String.eqb_spec (Py.lower (header_value R s (id_column args)))
              "sentence_id") as [H6|H6]; cbn [negb].
  2:{ rewrite emitted_abort. constructor; [|constructor].
      intros (_ & _ & _ & _ & _ & H). contradiction. }
  cbn [log emit emitted]. constructor; [|constructor].
  unfold sound_verdict, headers_ok. cbn [verdict]. repeat split; assumption.
Qed.

Lemma process_rows_tells_nothing (texts : list string) (folder : string) (rows : list Z) :
  emits_only tells_nothing (process_rows R args texts folder rows).
Proof.
  apply (eo_weaken (fun ev => step args Validated ev = Some Validated));
    [apply stays_tells_nothing|apply process_rows_orderly].
Qed.

Lemma find_rows_tells_nothing (audios texts : list string) (start : Z) :
  emits_only tells_nothing (find_rows (E:=E) audios texts start).
Proof.
  unfold find_rows. apply eo_bind; [|intros; apply eo_ret].
  apply eo_log_all. intros r Hin. apply in_map_iff in Hin.
  destruct Hin as ([row] & <- & _). reflexivity.
Qed.

Lemma process_gap_judged (s : Sheet) (title : string) (texts : list string)
    (rows : list Z) :
  judged R args s (at_sheet s) (process_gap R args title texts rows).
Proof.
  pose proof (@eq_refl Sheet) as Hrefl. pose proof (@eq_trans Sheet) as Htrans.
  unfold process_gap.
  apply jd_after_steady; [now apply st_log|calm|intros _].
  apply jd_after_steady;
    [apply create_or_get_audio_folder_steady
    |unfold create_or_get_audio_folder; calm|intros folder].
  apply jd_after_steady; [now apply st_log|calm|intros _].
  apply jd_after_steady; [steadily|calm|intros rows'].
  apply jd_then_quiet; [apply validate_sheet_structure_judged|intros _].
  apply eo_bind; [apply process_rows_tells_nothing|intros _; calm].
Qed.

Lemma reconcile_judged (s : Sheet) (title : string) (texts audios : list string) :
  judged R args s (at_sheet s) (reconcile R args title texts audios).
Proof.
  unfold reconcile. destruct (negb _); [apply jd_quiet; calm|].
  eapply jd_bind;
    [apply find_rows_triple|apply jd_quiet, find_rows_tells_nothing|].
  intros gap. apply (jd_pre _ _ (at_sheet s)); [now intros w [Hs _]|].
  destruct gap as [|row rows]; [|apply process_gap_judged].
  intros w _. unfold log. rewrite bind_emit. cbn [sys_exit emitted].
  repeat constructor.
Qed.

(** What a run of [main] tells of the headers is true of the sheet as it is
    once [main] has written the header of the marker column. *)
Lemma main_judged (w : World E) :
  Forall (sound_verdict R args (with_header (sheet w) args)) (emitted (main R args w)).
Proof.
  pose proof (@eq_refl Sheet) as Hrefl. pose proof (@eq_trans Sheet) as Htrans.
  set (s := sheet w). set (s1 := with_header s args).
  assert (Hmain : judged R args s1 (at_sheet s) (main R args)); [|now apply Hmain].
  unfold main.
  apply jd_bind_any; [apply jd_quiet; unfold validate_input_parameters; calm|].
  intros [] w0 Hw0 Hret.
  assert (Hafter : sheet (after (validate_input_parameters (E:=E) args w0)) = s).
  { unfold validate_input_parameters in *.
    destruct (Qle_bool (speaking_rate args) 0); [discriminate Hret|exact Hw0]. }
  revert Hafter. generalize (after (validate_input_parameters (E:=E) args w0)).
  clear w0 Hw0 Hret. change (judged R args s1 (at_sheet s)
    (get_google_services R ;;
     log Info TestingServices ;;
     test_google_services R ;;
     spreadsheet_title <- get_spreadsheet_title R ;;
     ensure_column_header R (audio_link_column args) "audio_file" ;;
     text_col_values <- read_sheet_column R (text_column args) (start_row args) None ;;
     audio_col_values <- read_sheet_column R (audio_link_column args) (start_row args)
                           (Some (Z.of_nat (List.length text_col_values))) ;;
     reconcile R args spreadsheet_title text_col_values audio_col_values)).
  apply jd_after_steady;
    [unfold get_google_services; steadily|unfold get_google_services; calm|intros _].
  apply jd_after_steady; [steadily|calm|intros _].
  apply jd_after_steady;
    [unfold test_google_services; steadily|unfold test_google_services; calm|intros _].
  apply jd_after_steady;
    [unfold get_spreadsheet_title; steadily|unfold get_spreadsheet_title; calm
    |intros title].
  eapply jd_bind;
    [apply ensure_column_header_triple
    |apply jd_quiet; unfold ensure_column_header; calm|].
  intros u. apply (jd_pre _ _ (at_sheet s1)); [intros w' Hw'; exact Hw'|].
  eapply jd_bind;
    [apply read_sheet_column_triple
    |apply jd_quiet; unfold read_sheet_column; calm|].
  intros texts. apply (jd_pre _ _ (at_sheet s1)); [now intros w' [Hs _]|].
  eapply jd_bind;
    [apply read_sheet_column_triple
    |apply jd_quiet; unfold read_sheet_column; calm|].
  intros audios. apply (jd_pre _ _ (at_sheet s1)); [now intros w' [Hs _]|].
  apply reconcile_judged.
Qed.

End Judged.

(** *** Where a run may end *)

Section Exits.

Context {E : Type} (R : Remote E) (args : Args).

Lemma steady_goes_on {A} (rel : Sheet -> Sheet -> Prop) (c : M E A) :
  steady rel c -> forall w n, out (c w) <> Exit n.
Proof. intros Hc w n. now apply (Hc w). Qed.

Lemma xd_never {A} (p : phase) (c : M E A) :
  (forall w n, out (c w) <> Exit n) -> exits_decided args p c.
Proof. intros Hc w n q Hout. exfalso. now apply (Hc w n). Qed.

Lemma xd_bind {A B} (p q : phase) (c : M E A) (k : A -> M E B) :
  lands args p c q -> exits_decided args p c ->
  (forall a, exits_decided args q (k a)) ->
  exits_decided args p (bind c k).
Proof.
  intros Hl Hc Hk w n q' Hout Hph.
  destruct (Hl w) as (q1 & Hph1 & Hret & _).
  specialize (Hc w n). unfold bind in Hout, Hph.
  destruct (out (c w)) as [a|e|code]; cbn [out emitted] in Hout, Hph.
  - rewrite phases_app, Hph1, (Hret a eq_refl) in Hph.
    exact (Hk a (after (c w)) n q' Hout Hph).
  - discriminate Hout.
  - apply Hc; [|exact Hph]. injection Hout as ->. reflexivity.
Qed.

Lemma xd_after {A B} (p : phase) (c : M E A) (k : A -> M E B) :
  p <> Aborted ->
  emits_only (fun ev => step args p ev = Some p) c ->
  (forall w n, out (c w) <> Exit n) ->
  (forall a, exits_decided args p (k a)) ->
  exits_decided args p (bind c k).
Proof.
  intros Hp Hev Hgo Hk.
  apply (xd_bind p p); [now apply lands_stay|now apply xd_never|exact Hk].
Qed.

Lemma xd_exit (p : phase) (lvl : level) (r : log_record) (code : Z) :
  (forall q, step args p (Logged lvl r) = Some q -> q <> GapComputed) ->
  exits_decided args p (log lvl r ;; @sys_exit E unit code).
Proof.
  intros Hstep w n q _ Hph. unfold log in Hph. rewrite bind_emit in Hph.
  cbn [sys_exit emitted phases] in Hph.
  destruct (step args p (Logged lvl r)) as [q1|]; [|discriminate Hph].
  injection Hph as <-. now apply Hstep.
Qed.

(** An exit of the header check is the verdict that a header is wrong. *)
Lemma validate_sheet_structure_exits :
  exits_decided args GapComputed
    (validate_sheet_structure R (text_column args) (audio_link_column args)
       (id_column args)).
Proof.
  pose proof (@eq_refl Sheet) as Hrefl. pose proof (@eq_trans Sheet) as Htrans.
  unfold validate_sheet_structure.
  do 3 (eapply xd_bind;
          [apply header_read_lands; simpl; auto
          |apply xd_never, (steady_goes_on eq), st_values_get; assumption
          |intros ?]).
  do 3 (apply xd_after;
          [discriminate|orderly
          |apply (steady_goes_on eq), st_first_cell; assumption|intros ?]).
  repeat match goal with
         | |- exits_decided _ _ (if ?b then _ else _) =>
             destruct b;
             [apply xd_exit; cbn [step]; intros q Hq; injection Hq as <-; discriminate|]
         end.
  apply xd_never, (steady_goes_on eq), st_log; assumption.
Qed.

Lemma process_gap_exits (title : string) (texts : list string) (rows : list Z) :
  exits_decided args StateRead (process_gap R args title texts rows).
Proof.
  pose proof (@eq_refl Sheet) as Hrefl. pose proof (@eq_trans Sheet) as Htrans.
  unfold process_gap.
  eapply xd_bind with (q := GapComputed);
    [apply lands_emit; [reflexivity|discriminate]
    |apply xd_never, (steady_goes_on eq), st_log; assumption|intros _].
  apply xd_after;
    [discriminate|unfold create_or_get_audio_folder; orderly
    |apply (steady_goes_on eq), create_or_get_audio_folder_steady|intros folder].
  apply xd_after;
    [discriminate|orderly|apply (steady_goes_on eq), st_log; assumption|intros _].
  apply xd_after;
    [discriminate|orderly|apply (steady_goes_on eq); steadily|intros rows'].
  eapply xd_bind;
    [apply validate_sheet_structure_lands|apply validate_sheet_structure_exits
    |intros _].
  apply xd_never.
  apply (steady_goes_on (changes_within (audio_link_column args) rows')).
  apply st_bind;
    [apply changes_within_trans|apply process_rows_steady, incl_refl|intros _].
  apply st_log, changes_within_refl.
Qed.

Lemma reconcile_exits (title : string) (texts audios : list string) :
  exits_decided args StateRead (reconcile R args title texts audios).
Proof.
  unfold reconcile.
  destruct (negb (Nat.eqb (List.length audios) (List.length texts))).
  - apply xd_exit. cbn [step]. intros q Hq. injection Hq as <-. discriminate.
  - eapply xd_bind with (q := StateRead).
    + apply lands_stay; [discriminate|].
      unfold find_rows. apply eo_bind; [|intros; apply eo_ret].
      apply eo_log_all. intros r Hin. apply in_map_iff in Hin.
      destruct Hin as ([row] & <- & _). reflexivity.
    + apply xd_never. intros w n.
      destruct (find_rows_triple (sheet w) audios texts (start_row args) w eq_refl)
        as [_ Ho].
      rewrite Ho. discriminate.
    + intros [|row rows]; [|apply process_gap_exits].
      apply xd_exit. cbn [step]. intros q Hq. injection Hq as <-. discriminate.
Qed.

Lemma main_exits : exits_decided args Init (main R args).
Proof.
  pose proof (@eq_refl Sheet) as Hrefl. pose proof (@eq_trans Sheet) as Htrans.
  unfold main.
  eapply xd_bind with (q := Init).
  { apply lands_stay; [discriminate|unfold validate_input_parameters; orderly]. }
  { unfold validate_input_parameters. destruct (Qle_bool (speaking_rate args) 0).
    - apply xd_exit. cbn [step]. intros q Hq. injection Hq as <-. discriminate.
    - apply xd_never, (steady_goes_on eq), st_ret; assumption. }
  intros _.
  apply xd_after;
    [discriminate|unfold get_google_services; orderly
    |apply (steady_goes_on eq); unfold get_google_services; steadily|intros _].
  apply xd_after;
    [discriminate|orderly|apply (steady_goes_on eq); steadily|intros _].
  apply xd_after;
    [discriminate|unfold test_google_services; orderly
    |apply (steady_goes_on eq); unfold test_google_services; steadily|intros _].
  apply xd_after;
    [discriminate|unfold get_spreadsheet_title; orderly
    |apply (steady_goes_on eq); unfold get_spreadsheet_title; steadily|intros title].
  apply xd_after; [discriminate|unfold ensure_column_header; orderly| |intros _].
  { intros w n Hout.
    pose proof (ensure_column_header_triple R (sheet w) (audio_link_column args)
                  "audio_file" w eq_refl) as H.
    cbv beta in H. now rewrite Hout in H. }
  eapply xd_bind;
    [apply read_text_lands
    |apply xd_never, (steady_goes_on eq); unfold read_sheet_column; steadily
    |intros texts].
  eapply xd_bind;
    [apply read_audio_lands
    |apply xd_never, (steady_goes_on eq); unfold read_sheet_column; steadily
    |intros audios].
  apply reconcile_exits.
Qed.

End Exits.



(** * Further properties *)

(** ** The gap detector: warnings and bounds *)

Lemma find_rows_loop_warnings (markers sources : list string) (start_row idx : Z)
    (acc : list Z) (warned : list gap_warning) :
  snd (fold_left (gap_step start_row)
         (Py.enumerate_from idx (Py.zip markers sources)) (acc, warned))
  = warned
    ++ map (fun i => EmptyTextRow (start_row + idx + Z.of_nat i))
         (filter (fun i => Py.blank (nth i sources ""))
                 (seq 0 (common_length markers sources))).
Proof.
  revert sources idx acc warned.
  induction markers as [|m markers IH]; intros [|s sources] idx acc warned;
    try (cbn; now rewrite app_nil_r).
  unfold common_length. cbn [List.length Nat.min].
  fold (common_length markers sources).
  rewrite filter_seq_succ, map_app, map_map.
  cbn [Py.zip combine Py.enumerate_from fold_left gap_step nth].
  rewrite !strip_truthy, !negb_involutive.
  rewrite (map_ext (fun i => EmptyTextRow (start_row + idx + Z.of_nat (S i)))
             (fun i => EmptyTextRow (start_row + (idx + 1) + Z.of_nat i)))
    by (intros; f_equal; lia).
  destruct (Py.blank s); cbn [negb map app].
  - change (Py.zip markers sources) with (combine markers sources) in IH.
    rewrite IH, <- app_assoc. cbn [app]. do 3 f_equal. simpl. lia.
  - destruct (Py.blank m); cbn [negb]; apply IH.
Qed.

Lemma in_gap_from (markers sources : list string) (start_row idx row : Z) :
  In row (gap_from idx markers sources start_row) <->
  exists i, (i < common_length markers sources)%nat
            /\ row = start_row + idx + Z.of_nat i
            /\ Py.blank (nth i sources "") = false
            /\ Py.blank (nth i markers "") = true.
Proof.
  revert sources idx.
  induction markers as [|m markers IH]; intros [|s sources] idx;
    try (cbn; split; [contradiction|intros (i & Hi & _); cbn in Hi; lia]).
  unfold common_length. cbn [List.length Nat.min gap_from].
  fold (common_length markers sources).
  assert (Hrec : In row (gap_from (idx + 1) markers sources start_row) <->
                 exists i, (0 < i < S (common_length markers sources))%nat
                           /\ row = start_row + idx + Z.of_nat i
                           /\ Py.blank (nth i (s :: sources) "") = false
                           /\ Py.blank (nth i (m :: markers) "") = true).
  { rewrite IH. split.
    - intros (i & Hi & -> & Hs & Hm). exists (S i). cbn [nth].
      repeat split; auto; lia.
    - intros ([|i] & Hi & -> & Hs & Hm); [lia|]. exists i. cbn [nth] in *.
      repeat split; auto; lia. }
  destruct (Py.blank s) eqn:Hs; cbn [negb andb].
  - rewrite Hrec. split.
    + intros (i & Hi & H). exists i. split; [lia|exact H].
    + intros ([|i] & Hi & Hrow & Hs' & Hm); [cbn in Hs'; congruence|].
      exists (S i). repeat split; auto; lia.
  - destruct (Py.blank m) eqn:Hm; cbn [In].
    + rewrite Hrec. split.
      * intros [<-|(i & Hi & H)].
        -- exists O. cbn [nth]. repeat split; auto; simpl; lia.
        -- exists i. split; [lia|exact H].
      * intros ([|i] & Hi & Hrow & Hs' & Hm').
        -- left. simpl in Hrow. lia.
        -- right. exists (S i). repeat split; auto; lia.
    + rewrite Hrec. split.
      * intros (i & Hi & H). exists i. split; [lia|exact H].
      * intros ([|i] & Hi & Hrow & Hs' & Hm'); [cbn in Hm'; congruence|].
        exists (S i). repeat split; auto; lia.
Qed.

(** X1. The gap detector warns about exactly the rows, among the positions
    both columns have, whose source is blank, in order; a row it returns is
    never one it warned about. *)
Theorem find_rows_warns_about_blank_sources (markers sources : list string)
    (start_row : Z) :
  find_rows_warnings markers sources start_row
  = map (fun i => EmptyTextRow (start_row + Z.of_nat i))
        (filter (fun i => Py.blank (nth i sources ""))
                (seq 0 (common_length markers sources)))
  /\ forall row, In row (find_rows_needing_audio markers sources start_row) ->
                 ~ In (EmptyTextRow row) (find_rows_warnings markers sources start_row).
Proof.
  assert (Hw : find_rows_warnings markers sources start_row
               = map (fun i => EmptyTextRow (start_row + Z.of_nat i))
                   (filter (fun i => Py.blank (nth i sources ""))
                           (seq 0 (common_length markers sources)))).
  { unfold find_rows_warnings, find_rows_loop, Py.enumerate.
    rewrite find_rows_loop_warnings. cbn [app]. apply map_ext. intros i.
    f_equal. lia. }
  split; [exact Hw|].
  intros row Hin Hwarn. rewrite Hw in Hwarn.
  rewrite find_rows_needing_audio_gap_from in Hin.
  apply in_gap_from in Hin. destruct Hin as (i & _ & -> & Hs & _).
  apply in_map_iff in Hwarn. destruct Hwarn as (j & Hj & Hf).
  injection Hj as Hj. assert (j = i) by lia. subst j.
  apply filter_In in Hf. destruct Hf as [_ Hf]. congruence.
Qed.

(** X2. Every row the gap detector returns lies within the columns and has
    text: the driver's lookup [text_col_values[row - start_row]] finds a
    text, and the text is not blank.  The two columns need not have the
    same length. *)
Theorem gap_rows_have_text (markers sources : list string) (start_row row : Z) :
  In row (find_rows_needing_audio markers sources start_row) ->
  start_row <= row < start_row + Z.of_nat (common_length markers sources)
  /\ exists text, Py.index sources (row - start_row) = Some text
                  /\ Py.blank text = false.
Proof.
  intros Hin. rewrite find_rows_needing_audio_gap_from in Hin.
  apply in_gap_from in Hin. destruct Hin as (i & Hi & -> & Hs & _).
  split; [lia|].
  exists (nth i sources ""). split; [|exact Hs].
  unfold Py.index. destruct (Z.leb_spec 0 (start_row + 0 + Z.of_nat i - start_row)); [|lia].
  replace (Z.to_nat (start_row + 0 + Z.of_nat i - start_row)) with i by lia.
  apply nth_error_nth'. unfold common_length in Hi. lia.
Qed.

Lemma gap_rows_have_text_witness :
  exists text, Py.index ["a"; ""; "c"] (2 - 2) = Some text /\ Py.blank text = false.
Proof.
  apply (gap_rows_have_text [""; ""; "x"] ["a"; ""; "c"] 2 2).
  vm_compute. left. reflexivity.
Defined.

(** ** Reading a column *)

Lemma drop_trailing_split (p : string -> bool) (l : list string) :
  exists tail,
    l = drop_trailing p l ++ tail
    /\ Forall (fun v => p v = true) tail
    /\ (drop_trailing p l = [] \/ p (last (drop_trailing p l) "") = false).
Proof.
  induction l as [|v l (tail & Heq & Htail & Hlast)]; cbn [drop_trailing].
  - exists []. repeat split; auto.
  - destruct (drop_trailing p l) as [|v' l'] eqn:Hd.
    + cbn [app] in Heq. destruct (p v) eqn:Hv.
      * exists (v :: l). split; [reflexivity|]. split; [|now left].
        constructor; [exact Hv|]. now rewrite Heq.
      * exists tail. split; [cbn [app]; now f_equal|]. split; [exact Htail|].
        right. exact Hv.
    + exists tail. split; [cbn [app] in *; f_equal; exact Heq|].
      split; [exact Htail|].
      right. destruct Hlast as [Hnil|Hlast]; [discriminate|]. exact Hlast.
Qed.

Lemma drop_trailing_weaker (p q : string -> bool) (l : list string) :
  (forall v, q v = true -> p v = true) ->
  drop_trailing p (drop_trailing q l) = drop_trailing p l.
Proof.
  intros Hqp. induction l as [|v l IH]; cbn [drop_trailing]; [reflexivity|].
  destruct (drop_trailing q l) as [|v' l'] eqn:Hq.
  - cbn [drop_trailing] in IH. rewrite <- IH.
    destruct (q v) eqn:Hv; cbn [drop_trailing].
    + now rewrite (Hqp v Hv).
    + reflexivity.
  - cbn [drop_trailing] in *. now rewrite IH.
Qed.

Lemma drop_trailing_ext_blank (l : list string) :
  drop_trailing (fun v => negb (Py.truthy (Py.strip v))) l = drop_trailing Py.blank l.
Proof.
  induction l as [|v l IH]; cbn [drop_trailing]; [reflexivity|].
  rewrite IH, strip_truthy, negb_involutive. reflexivity.
Qed.

Section ReadFacts.

Context {E : Type} (R : Remote E).


(** X4. A read with a forced count [n > 0] returns exactly [n] values: for
    each of the [n] rows from [start_row] on what its cell shows, the empty
    string for a cell that is empty or beyond the end of the sheet. *)
Theorem read_sheet_column_pads (col : string) (start_row : Z) (n : nat) (w : World E)
    (values : list string) :
  (0 < n)%nat ->
  out (read_sheet_column R col start_row (Some (Z.of_nat n)) w) = Return values ->
  List.length values = n
  /\ forall i, (i < n)%nat ->
       nth i values "" = shown R (cell (sheet w) col (start_row + Z.of_nat i)).
Proof.
  intros Hn Hout.
  pose proof (read_sheet_column_triple R (sheet w) col start_row (Some (Z.of_nat n))
                w eq_refl) as H.
  cbv beta in H. rewrite Hout in H. destruct H as [_ [-> Hstart]].
  destruct (forced_column R (sheet w) col start_row n Hn) as [Hlen Hnth].
  split; [exact Hlen|]. intros i Hi. rewrite (Hnth i Hi).
  unfold cell. destruct (Z.ltb_spec (start_row + Z.of_nat i) 1); [lia|].
  do 2 f_equal. lia.
Qed.

End ReadFacts.


Lemma read_sheet_column_pads_witness :
  List.length ["Le chat."; "Il a plu."; ""; ""; ""] = 5%nat
  /\ forall i, (i < 5)%nat ->
       nth i ["Le chat."; "Il a plu."; ""; ""; ""] ""
       = shown scripted (cell (sheet demo_world) "C" (2 + Z.of_nat i)).
Proof.
  apply (read_sheet_column_pads scripted "C" 2 5 demo_world); [lia|reflexivity].
Defined.

Section EmptySource.

Context {E : Type} (R : Remote E) (args : Args).

Lemma drop_trailing_empty_nil (l : list string) :
  drop_trailing (fun v => negb (Py.truthy v)) l = [] ->
  forall i, nth i l "" = "".
Proof.
  intros Hnil i. rewrite <- nth_drop_trailing_empty, Hnil. now destruct i.
Qed.

(** X5. When the source column is empty from [start_row] on while a marker
    cell at or below [start_row] shows something, a run that no remote
    failure cuts short ends with exit status 1: with no source row the
    marker column is read unpadded and untruncated, its length differs from
    zero, and the run stops at the length check instead of "nothing to
    do". *)
Theorem empty_source_with_markers_exits_1 (w : World E) (row : Z) :
  next_text R (sheet w) args = [] ->
  start_row args <= row ->
  marker_shown R (with_header (sheet w) args) args row <> "" ->
  (forall e, out (main R args w) <> Raise e) ->
  out (main R args w) = Exit 1.
Proof.
  intros Htext Hrow Hshown Hnoraise.
  pose proof (main_spec R args w) as H. unfold main_post in H.
  destruct (out (main R args w)) as [u|e|n] eqn:Hout.
  - destruct H as [[_ Habs]|(_ & _ & Hpost)]; [discriminate|].
    unfold reconcile_post in Hpost. destruct Hpost as (_ & Hgap & _).
    exfalso. apply Hgap. rewrite Htext.
    rewrite find_rows_needing_audio_gap_from.
    now destruct (next_audio R (sheet w) args).
  - exfalso. now apply (Hnoraise e).
  - destruct H as [[_ Hex]|(_ & Hstart & Hpost)]; [exact Hex|].
    unfold reconcile_post in Hpost.
    destruct Hpost as [[-> _]|(_ & Hlen & _)]; [reflexivity|].
    exfalso. rewrite Htext in Hlen. cbn [List.length] in Hlen.
    apply length_zero_iff_nil in Hlen.
    unfold next_audio in Hlen. rewrite Htext in Hlen.
    unfold sheet_column, column_of_values, column_range, forced in Hlen.
    cbn [List.length Z.of_nat Z.eqb negb] in Hlen.
    rewrite flatten_range_values in Hlen.
    unfold range_cells in Hlen. cbn [rg_col rg_first rg_last] in Hlen.
    apply Hshown. unfold marker_shown, cell.
    destruct (Z.ltb_spec row 1); [lia|].
    pose proof (drop_trailing_empty_nil _ Hlen (Z.to_nat (row - start_row args))) as Hnth.
    change "" with (shown R "") in Hnth at 1. rewrite map_nth, nth_skipn in Hnth.
    replace (Z.to_nat (start_row args - 1) + Z.to_nat (row - start_row args))%nat
      with (Z.to_nat (row - 1)) in Hnth by lia.
    exact Hnth.
Qed.

End EmptySource.


Lemma empty_source_with_markers_exits_1_witness :
  out (main scripted demo_args stray_marker_world) = Exit 1.
Proof.
  apply (empty_source_with_markers_exits_1 scripted demo_args stray_marker_world 2).
  - reflexivity.
  - simpl. lia.
  - vm_compute. discriminate.
  - vm_compute. discriminate.
Defined.

(** ** The time spent sleeping *)

Lemma sleeps_app (a b : list event) : sleeps (a ++ b) = sleeps a ++ sleeps b.
Proof.
  induction a as [|ev a IH]; cbn [app sleeps]; [reflexivity|].
  destruct ev; cbn [app]; now rewrite IH.
Qed.

Lemma total_app (a b : list Q) : (total (a ++ b) == total a + total b)%Q.
Proof.
  induction a as [|d a IH]; cbn [app total]; [ring|]. rewrite IH. ring.
Qed.

Section SleepBudget.

Context {E : Type} (R : Remote E) {A : Type}.
Variable func : M E A.
Variables (max_retries : Z) (base_delay max_delay : Q).
Hypothesis func_awake : forall w, sleeps (emitted (func w)) = [].

Lemma sleep_budget_nonneg (attempts : list Z) :
  (0 <= base_delay)%Q ->
  (0 <= sleep_budget base_delay max_retries attempts)%Q.
Proof.
  intros Hbase. induction attempts as [|a rest IH]; cbn [sleep_budget];
    [apply Qle_refl|].
  destruct (a =? max_retries - 1).
  - rewrite Qplus_0_l. exact IH.
  - assert (H2 : (0 <= inject_Z (2 ^ a))%Q).
    { change 0%Q with (inject_Z 0). rewrite <- Zle_Qle. apply Z.pow_nonneg. lia. }
    pose proof (Qmult_le_0_compat _ _ Hbase H2) as Hm.
    assert (H1 : (0 <= base_delay * inject_Z (2 ^ a) + 1)%Q).
    { apply Qle_trans with (0 + 0)%Q; [apply Qle_refl|].
      apply Qplus_le_compat; [exact Hm|discriminate]. }
    apply Qle_trans with (0 + 0)%Q; [apply Qle_refl|].
    now apply Qplus_le_compat.
Qed.

Lemma backoff_loop_sleeps (attempts : list Z) (w : World E) :
  let ds := sleeps (emitted (backoff_loop R func max_retries base_delay max_delay
                               attempts w)) in
  (List.length ds <= sleeping_attempts max_retries attempts)%nat
  /\ Forall (fun d => d <= max_delay)%Q ds
  /\ ((0 <= base_delay)%Q ->
      (total ds <= sleep_budget base_delay max_retries attempts)%Q).
Proof.
  revert w. induction attempts as [|attempt rest IH]; intros w; cbv zeta.
  - cbn. repeat split; [lia|constructor|intros; apply Qle_refl].
  - cbn [backoff_loop sleeping_attempts sleep_budget].
    destruct (out (func w)) as [a|e|code] eqn:Hf.
    + rewrite (try_except_return _ _ _ (Some a))
        by (rewrite (bind_return _ _ _ _ Hf); reflexivity).
      rewrite (bind_return _ _ _ _ Hf). cbn [ret out after emitted].
      rewrite app_nil_r, func_awake. cbn [List.length total].
      repeat split; [lia|constructor|].
      intros Hbase. apply (sleep_budget_nonneg (attempt :: rest) Hbase).
    + rewrite (try_except_raise _ _ _ e)
        by (rewrite (bind_raise _ _ _ _ Hf); reflexivity).
      rewrite (bind_raise _ _ _ _ Hf). cbn [out after emitted].
      rewrite sleeps_app, func_awake. cbn [app].
      destruct (attempt =? max_retries - 1).
      * cbn. repeat split; [lia|constructor|].
        intros Hbase. rewrite Qplus_0_l. now apply sleep_budget_nonneg.
      * destruct (random_uniform_unit R (after (func w)))
          as (j & w' & Hr & H0 & H1 & _).
        unfold bind. rewrite Hr. cbn [out after emitted log sleep emit app sleeps].
        destruct (IH w') as (Hlen & Hall & Htot).
        cbn [List.length total]. repeat split.
        -- lia.
        -- constructor; [apply Q.le_min_r|exact Hall].
        -- intros Hbase. apply Qplus_le_compat; [|now apply Htot].
           unfold backoff_delay.
           eapply Qle_trans; [apply Q.le_min_l|].
           apply Qplus_le_compat; [apply Qle_refl|now apply Qlt_le_weak].
    + rewrite (try_except_exit _ _ _ code)
        by (rewrite (bind_exit _ _ _ _ Hf); reflexivity).
      rewrite (bind_exit _ _ _ _ Hf). cbn [out after emitted].
      rewrite func_awake. cbn [List.length total].
      repeat split; [lia|constructor|].
      intros Hbase. apply (sleep_budget_nonneg (attempt :: rest) Hbase).
Qed.

Lemma sleeping_attempts_range (n k : nat) :
  (sleeping_attempts max_retries (map Z.of_nat (seq k n)) <= n)%nat
  /\ ((k + n)%nat = Z.to_nat max_retries -> (0 < n)%nat ->
      S (sleeping_attempts max_retries (map Z.of_nat (seq k n))) <= n)%nat.
Proof.
  revert k. induction n as [|n IH]; intros k; cbn [seq map sleeping_attempts].
  - split; [lia|intros; lia].
  - destruct (IH (S k)) as [Hle Hlt].
    destruct (Z.eqb_spec (Z.of_nat k) (max_retries - 1)) as [Hlast|Hnot].
    + split; [lia|]. intros _ _. lia.
    + split; [lia|]. intros Hkn _.
      destruct n as [|n']; [lia|].
      assert (S (sleeping_attempts max_retries (map Z.of_nat (seq (S k) (S n'))))
              <= S n')%nat by (apply Hlt; lia).
      lia.
Qed.

End SleepBudget.

(** X6. A call that does not sleep by itself is made to sleep by the retry
    executor at most [max_retries - 1] times, never longer than [max_delay]
    at a time; with the default policy (5 attempts, base 1, cap 16) that is
    at most 4 sleeps and at most 2 + 3 + 5 + 9 = 19 seconds in all. *)
Theorem retry_sleeps_within_budget {E A : Type} (R : Remote E) (func : M E A)
    (max_retries : Z) (base_delay max_delay : Q) (w : World E) :
  (forall w', sleeps (emitted (func w')) = []) ->
  (let ds := sleeps (emitted (exponential_backoff_retry R func max_retries
                                base_delay max_delay w)) in
   (Z.of_nat (List.length ds) <= Z.max 0 (max_retries - 1))
   /\ Forall (fun d => d <= max_delay)%Q ds)
  /\ (let ds := sleeps (emitted (exponential_backoff_retry R func default_max_retries
                                   default_base_delay default_max_delay w)) in
      (List.length ds <= 4)%nat /\ (total ds <= 19)%Q).
Proof.
  intros Hawake. split.
  - cbv zeta. unfold exponential_backoff_retry, Py.range.
    destruct (backoff_loop_sleeps R func max_retries base_delay max_delay Hawake
                (map Z.of_nat (seq 0 (Z.to_nat max_retries))) w) as (Hlen & Hall & _).
    split; [|exact Hall].
    destruct (sleeping_attempts_range max_retries (Z.to_nat max_retries) 0)
      as [Hle Hlt].
    destruct (Z.to_nat max_retries) as [|n] eqn:Hn.
    + lia.
    + specialize (Hlt eq_refl ltac:(lia)). lia.
  - cbv zeta. unfold exponential_backoff_retry.
    destruct (backoff_loop_sleeps R func default_max_retries default_base_delay
                default_max_delay Hawake (Py.range default_max_retries) w)
      as (Hlen & _ & Htot).
    split; [exact Hlen|].
    eapply Qle_trans; [apply Htot; discriminate|].
    vm_compute. discriminate.
Qed.

Lemma retry_sleeps_within_budget_witness :
  (List.length (sleeps (emitted (exponential_backoff_retry scripted
                                   (values_update scripted
                                      {| rg_col := "D"; rg_first := 2; rg_last := None |}
                                      ["x"])
                                   default_max_retries default_base_delay
                                   default_max_delay outage_world))) <= 4)%nat.
Proof.
  apply (retry_sleeps_within_budget scripted
           (values_update scripted {| rg_col := "D"; rg_first := 2; rg_last := None |} ["x"])
           5 1 16 outage_world).
  intros w'. unfold values_update. simpl.
  destruct (next_fault (remote w')) as [[x|] e']; [reflexivity|reflexivity].
Defined.

(** ** What is written, and where *)

Section UpdateOutcome.

Context {E : Type} (R : Remote E).

(** The retry loop around one update request: it ends with the request
    done once, or with the sheet as it was. *)
Lemma backoff_loop_update (rg : Range) (vals : list string) (max_retries : Z)
    (base_delay max_delay : Q) (attempts : list Z) (w : World E) :
  let r := backoff_loop R (values_update R rg vals) max_retries base_delay max_delay
             attempts w in
  match out r with
  | Return (Some _) =>
      1 <= rg_first rg
      /\ sheet (after r) = write_column (sheet w) (rg_col rg) (rg_first rg) vals
  | Return None | Raise _ => sheet (after r) = sheet w
  | Exit _ => False
  end.
Proof.
  revert w. induction attempts as [|attempt rest IH]; intros w; cbv zeta;
    cbn [backoff_loop]; [reflexivity|].
  destruct (out (values_update R rg vals w)) as [a|e|code] eqn:Hf.
  - rewrite (try_except_return _ _ _ (Some a))
      by (rewrite (bind_return _ _ _ _ Hf); reflexivity).
    rewrite (bind_return _ _ _ _ Hf). cbn [ret out after].
    revert Hf. unfold values_update.
    destruct (sheets_fault R (remote w)) as [[x|] e']; [discriminate|].
    destruct (Z.ltb_spec (rg_first rg) 1); [discriminate|].
    intros _. cbn [after sheet]. split; [lia|reflexivity].
  - rewrite (try_except_raise _ _ _ e)
      by (rewrite (bind_raise _ _ _ _ Hf); reflexivity).
    rewrite (bind_raise _ _ _ _ Hf). cbn [out after emitted].
    pose proof (values_update_failure_clean R rg vals w e Hf) as Hclean.
    destruct (attempt =? max_retries - 1); [exact Hclean|].
    destruct (random_uniform_unit R (after (values_update R rg vals w)))
      as (j & w' & Hr & _ & _ & Hs).
    unfold bind. rewrite Hr. cbn [out after emitted log sleep emit].
    specialize (IH w'). cbv zeta in IH.
    destruct (out (backoff_loop R (values_update R rg vals) max_retries base_delay
                     max_delay rest w')) as [[u|]|e'|n]; auto.
    + destruct IH as [H1 H2]. split; [exact H1|]. rewrite H2. congruence.
    + congruence.
    + congruence.
  - exfalso. revert Hf. unfold values_update.
    destruct (sheets_fault R (remote w)) as [[x|] e']; [discriminate|].
    destruct (rg_first rg <? 1); discriminate.
Qed.

End UpdateOutcome.

(** X7. [update_sheet_cells_with_retry] never raises and never ends the
    process.  When it returns a result the values are written once, from the
    given row down in the given column, and nothing else is changed; when it
    returns [None] the sheet is exactly what it was. *)
Theorem update_writes_all_or_nothing {E : Type} (R : Remote E) (start_row : Z)
    (column_letter : string) (values : list string) (max_retries : Z) (w : World E) :
  let r := update_sheet_cells_with_retry R start_row column_letter values
             max_retries w in
  match out r with
  | Return (Some _) =>
      1 <= start_row
      /\ sheet (after r) = write_column (sheet w) column_letter start_row values
      /\ forall col, col <> column_letter -> sheet (after r) col = sheet w col
  | Return None => sheet (after r) = sheet w
  | Raise _ | Exit _ => False
  end.
Proof.
  cbv zeta. unfold update_sheet_cells_with_retry, exponential_backoff_retry.
  set (rg := {| rg_col := column_letter; rg_first := start_row; rg_last := None |}).
  pose proof (backoff_loop_update R rg values max_retries default_base_delay
                default_max_delay (Py.range max_retries) w) as H.
  cbv zeta in H.
  destruct (out (backoff_loop R (values_update R rg values) max_retries
                   default_base_delay default_max_delay (Py.range max_retries) w))
    as [[u|]|e|n] eqn:Ho.
  - rewrite (try_except_return _ _ _ _ Ho), Ho.
    destruct H as [H1 H2]. split; [exact H1|]. split; [exact H2|].
    intros col Hne. rewrite H2. unfold write_column, rg. cbn [rg_col].
    destruct (String.eqb_spec col column_letter); [contradiction|reflexivity].
  - rewrite (try_except_return _ _ _ _ Ho), Ho. exact H.
  - rewrite (try_except_raise _ _ _ _ Ho).
    destruct e; cbn; exact H.
  - contradiction.
Qed.

(** ** Exceptions that escape *)

Section NeverRaises.

Context {E : Type}.

Lemma nr_ret {A} (a : A) : never_raises (@ret E A a).
Proof. intros w e. discriminate. Qed.

Lemma nr_log (lvl : level) (r : log_record) : never_raises (@log E lvl r).
Proof. intros w e. discriminate. Qed.

Lemma nr_bind {A B} (c : M E A) (k : A -> M E B) :
  never_raises c -> (forall a, never_raises (k a)) -> never_raises (bind c k).
Proof.
  intros Hc Hk w e. unfold bind. specialize (Hc w).
  destruct (out (c w)) as [a|e'|n]; cbn [out]; [apply Hk| |discriminate].
  exfalso. now apply (Hc e').
Qed.

(** A handler that never raises makes the whole [try] safe. *)
Lemma nr_try_except {A} (c : M E A) (h : exn -> M E A) :
  (forall e, never_raises (h e)) -> never_raises (try_except c h).
Proof.
  intros Hh w e. unfold try_except.
  destruct (out (c w)) as [a|e'|n] eqn:Ho; cbn [out]; [congruence| |congruence].
  apply Hh.
Qed.

End NeverRaises.

Section RowExceptions.

Context {E : Type} (R : Remote E) (args : Args).

Lemma update_sheet_cells_with_retry_safe row col values max_retries :
  never_raises (update_sheet_cells_with_retry R row col values max_retries).
Proof.
  unfold update_sheet_cells_with_retry. apply nr_try_except. intros e.
  apply nr_bind; [destruct e; apply nr_log|intros; apply nr_ret].
Qed.

Lemma upload_and_mark_safe row folder filename content :
  never_raises (upload_and_mark R args row folder filename content).
Proof.
  unfold upload_and_mark. apply nr_bind.
  - apply nr_try_except. intros e.
    apply nr_bind; [apply nr_log|intros; apply nr_ret].
  - intros [link|]; [|apply nr_ret].
    apply nr_bind; [apply update_sheet_cells_with_retry_safe|intros; apply nr_ret].
Qed.

(** The answer to the read of one cell never begins with an empty row. *)
Lemma one_cell_values (s : Sheet) (col : string) (row : Z) :
  range_values R s {| rg_col := col; rg_first := row; rg_last := Some row |} = []
  \/ exists v, range_values R s {| rg_col := col; rg_first := row; rg_last := Some row |}
               = [[v]].
Proof.
  unfold range_values, range_cells. cbn [rg_col rg_first rg_last].
  replace (Z.to_nat (row - row + 1)) with 1%nat by lia.
  destruct (skipn (Z.to_nat (row - 1)) (s col)) as [|c rest];
    cbn [firstn map drop_trailing]; [now left|].
  destruct (shown R c) as [|a r]; cbn; [now left|right; eauto].
Qed.

End RowExceptions.

Section RowExceptionsMain.

Context {E : Type} (R : Remote E) (args : Args).

Lemma one_cell_shown (s : Sheet) (col : string) (row : Z) :
  1 <= row ->
  range_values R s {| rg_col := col; rg_first := row; rg_last := Some row |}
  = if Py.truthy (shown R (cell s col row)) then [[shown R (cell s col row)]] else [].
Proof.
  intros Hrow. unfold range_values, range_cells, cell. cbn [rg_col rg_first rg_last].
  destruct (Z.ltb_spec row 1); [lia|].
  replace (Z.to_nat (row - row + 1)) with 1%nat by lia.
  replace (nth (Z.to_nat (row - 1)) (s col) "")
    with (nth 0 (skipn (Z.to_nat (row - 1)) (s col)) "")
    by (rewrite nth_skipn; f_equal; lia).
  destruct (skipn (Z.to_nat (row - 1)) (s col)) as [|c rest];
    cbn [firstn map drop_trailing nth]; [reflexivity|].
  destruct (shown R c) as [|a r]; reflexivity.
Qed.

(** An exception leaves a sequence from its first part, or from the
    second part run after the first has returned. *)
Lemma bind_raise_inv {A B} (c : M E A) (k : A -> M E B) (w : World E) (e : exn) :
  out (bind c k w) = Raise e ->
  out (c w) = Raise e
  \/ exists a, out (c w) = Return a /\ out (k a (after (c w))) = Raise e.
Proof.
  unfold bind. destruct (out (c w)) as [a|x|n]; cbn [out]; intros H.
  - right. exists a. split; [reflexivity|exact H].
  - left. injection H as H. now rewrite H.
  - discriminate H.
Qed.

Lemma first_cell_shown (sid : string) (w : World E) :
  out (first_cell (if Py.truthy sid then [[sid]] else []) w) = Return sid.
Proof. destruct sid; reflexivity. Qed.

Lemma name_and_upload_raises (row_num : Z) (folder content : string)
    (w : World E) (e : exn) :
  out (name_and_upload R args row_num folder content w) = Raise e ->
  out (values_get R {| rg_col := id_column args; rg_first := row_num;
                       rg_last := Some row_num |} w) = Raise e
  \/ (e = ValueError (shown R (cell (sheet w) (id_column args) row_num))
      /\ Py.int_of_string (shown R (cell (sheet w) (id_column args) row_num)) = None).
Proof.
  unfold name_and_upload. intros H.
  apply bind_raise_inv in H. destruct H as [H|(values & Hread & H)]; [now left|].
  right.
  pose proof (values_get_triple R (sheet w)
                {| rg_col := id_column args; rg_first := row_num;
                   rg_last := Some row_num |} w eq_refl) as Hget.
  cbv beta in Hget. rewrite Hread in Hget. destruct Hget as [_ [Hvalues Hrow]].
  cbn [rg_first] in Hrow. rewrite (one_cell_shown _ _ _ Hrow) in Hvalues.
  subst values.
  apply bind_raise_inv in H. destruct H as [H|(sid & Hsid & H)].
  { rewrite first_cell_shown in H. discriminate H. }
  rewrite first_cell_shown in Hsid. injection Hsid as Hsid. subst sid.
  destruct (negb (Py.truthy (Py.strip _))).
  { apply bind_raise_inv in H. destruct H as [H|(u & _ & H)]; discriminate H. }
  apply bind_raise_inv in H. destruct H as [H|(n & _ & H)].
  - unfold int in H.
    destruct (Py.int_of_string _) as [n|]; [discriminate H|].
    injection H as H. split; [now symmetry|reflexivity].
  - exfalso. revert H. apply upload_and_mark_safe.
Qed.


End RowExceptionsMain.


(** ** The columns a run leaves alone *)

Section Keeps.

Context {E : Type} (R : Remote E) (rel : Sheet -> Sheet -> Prop).
Hypothesis rel_refl : forall s, rel s s.
Hypothesis rel_trans : forall a b c, rel a b -> rel b c -> rel a c.

Lemma kp_ret {A} (a : A) : keeps rel (@ret E A a).
Proof. intros w. apply rel_refl. Qed.

Lemma kp_raise {A} (e : exn) : keeps rel (@raise E A e).
Proof. intros w. apply rel_refl. Qed.

Lemma kp_sys_exit {A} (code : Z) : keeps rel (@sys_exit E A code).
Proof. intros w. apply rel_refl. Qed.

Lemma kp_log (lvl : level) (r : log_record) : keeps rel (@log E lvl r).
Proof. intros w. apply rel_refl. Qed.

Lemma kp_sleep (d : Q) : keeps rel (@sleep E d).
Proof. intros w. apply rel_refl. Qed.

Lemma kp_bind {A B} (c : M E A) (k : A -> M E B) :
  keeps rel c -> (forall a, keeps rel (k a)) -> keeps rel (bind c k).
Proof.
  intros Hc Hk w. unfold bind. specialize (Hc w).
  destruct (out (c w)) as [a|e|code]; cbn [after]; auto.
  eapply rel_trans; [exact Hc|apply Hk].
Qed.

Lemma kp_try_except {A} (c : M E A) (h : exn -> M E A) :
  keeps rel c -> (forall e, keeps rel (h e)) -> keeps rel (try_except c h).
Proof.
  intros Hc Hh w. unfold try_except. specialize (Hc w).
  destruct (out (c w)) as [a|e|code]; cbn [after]; auto.
  eapply rel_trans; [exact Hc|apply Hh].
Qed.

Lemma kp_steady {A} (c : M E A) : steady rel c -> keeps rel c.
Proof. intros Hc w. apply Hc. Qed.

Lemma kp_log_all (lvl : level) (rs : list log_record) : keeps rel (@log_all E lvl rs).
Proof.
  induction rs as [|r rs IH]; cbn [log_all]; [apply kp_ret|].
  apply kp_bind; [apply kp_log|intros _; exact IH].
Qed.

End Keeps.

Lemma same_outside_refl (col : string) (s : Sheet) : same_outside col s s.
Proof. intros c _. reflexivity. Qed.

Lemma same_outside_trans (col : string) (a b c : Sheet) :
  same_outside col a b -> same_outside col b c -> same_outside col a c.
Proof. intros H1 H2 x Hx. now rewrite (H2 x Hx), (H1 x Hx). Qed.

Lemma same_outside_write (col : string) (s : Sheet) (row : Z) (vals : list string) :
  same_outside col s (write_column s col row vals).
Proof.
  intros c Hc. unfold write_column.
  destruct (String.eqb_spec c col); [contradiction|reflexivity].
Qed.

Section KeepsProgram.

Context {E : Type} (R : Remote E) (args : Args).

Abbreviation outside_markers := (same_outside (audio_link_column args)).

Lemma steady_outside {A} (c : M E A) : steady eq c -> keeps outside_markers c.
Proof. intros Hc w c' _. destruct (Hc w) as [<- _]. reflexivity. Qed.

Lemma values_update_outside (rg : Range) (vals : list string) :
  rg_col rg = audio_link_column args ->
  keeps outside_markers (values_update R rg vals).
Proof.
  intros Hcol w. unfold values_update.
  destruct (sheets_fault R (remote w)) as [[x|] e'];
    [|destruct (rg_first rg <? 1)]; cbn [after sheet];
    try apply same_outside_refl.
  rewrite Hcol. apply same_outside_write.
Qed.

Lemma process_rows_outside (texts : list string) (folder : string) (rows : list Z) :
  keeps outside_markers (process_rows R args texts folder rows).
Proof.
  intros w c Hc.
  destruct (process_rows_steady R args rows texts folder rows (incl_refl _) w)
    as [[Hother _] _].
  now apply Hother.
Qed.

Lemma main_outside : keeps outside_markers (main R args).
Proof.
  pose proof (same_outside_refl (audio_link_column args)) as Hrefl.
  pose proof (same_outside_trans (audio_link_column args)) as Htrans.
  pose proof (@eq_refl Sheet) as Heq. pose proof (@eq_trans Sheet) as Heqt.
  assert (Hvalidate : keeps outside_markers
            (validate_sheet_structure R (text_column args) (audio_link_column args)
               (id_column args))).
  { intros w c _.
    destruct (validate_sheet_structure_triple R args (sheet w) w eq_refl) as [-> _].
    reflexivity. }
  unfold main.
  apply kp_bind; [exact Htrans| |intros _].
  { unfold validate_input_parameters. destruct (Qle_bool _ _).
    - apply kp_bind; [exact Htrans|now apply kp_log|intros; now apply kp_sys_exit].
    - now apply kp_ret. }
  apply kp_bind; [exact Htrans| |intros _].
  { apply steady_outside. unfold get_google_services. steadily. }
  apply kp_bind; [exact Htrans|now apply kp_log|intros _].
  apply kp_bind; [exact Htrans| |intros _].
  { apply steady_outside. unfold test_google_services. steadily. }
  apply kp_bind; [exact Htrans| |intros title].
  { apply steady_outside. unfold get_spreadsheet_title. steadily. }
  apply kp_bind; [exact Htrans| |intros _].
  { unfold ensure_column_header. now apply values_update_outside. }
  apply kp_bind; [exact Htrans| |intros texts].
  { apply steady_outside. unfold read_sheet_column. steadily. }
  apply kp_bind; [exact Htrans| |intros audios].
  { apply steady_outside. unfold read_sheet_column. steadily. }
  unfold reconcile. destruct (negb _).
  { apply kp_bind; [exact Htrans|now apply kp_log|intros; now apply kp_sys_exit]. }
  apply kp_bind; [exact Htrans| |intros rows].
  { unfold find_rows.
    apply kp_bind; [exact Htrans|now apply kp_log_all|intros; now apply kp_ret]. }
  destruct rows as [|row rows].
  { apply kp_bind; [exact Htrans|now apply kp_log|intros; now apply kp_sys_exit]. }
  unfold process_gap.
  apply kp_bind; [exact Htrans|now apply kp_log|intros _].
  apply kp_bind; [exact Htrans| |intros folder].
  { apply steady_outside, create_or_get_audio_folder_steady. }
  apply kp_bind; [exact Htrans|now apply kp_log|intros _].
  apply kp_bind; [exact Htrans| |intros rows'].
  { destruct (max_rows args).
    - apply kp_bind; [exact Htrans|now apply kp_log|intros; now apply kp_ret].
    - now apply kp_ret. }
  apply kp_bind; [exact Htrans|exact Hvalidate|intros _].
  apply kp_bind; [exact Htrans|apply process_rows_outside|intros _].
  now apply kp_log.
Qed.

End KeepsProgram.

(** X9. However a run of [main] ends, by a return, an exception or an
    exit, it has changed no cell outside the marker column: the source
    column and the id column, when they are other columns, are what they
    were. *)
Theorem main_writes_the_marker_column_only {E : Type} (R : Remote E) (args : Args)
    (w : World E) (col : string) :
  col <> audio_link_column args ->
  sheet (after (main R args w)) col = sheet w col.
Proof. intros Hcol. now apply (main_outside R args w). Qed.

Lemma main_writes_the_marker_column_only_witness :
  sheet (after (main scripted demo_args demo_world)) "C" = sheet demo_world "C".
Proof.
  apply (main_writes_the_marker_column_only scripted demo_args demo_world "C").
  discriminate.
Defined.

(** ** The rows a run works on *)

Lemma rows_called_app (a b : list event) :
  rows_called (a ++ b) = rows_called a ++ rows_called b.
Proof.
  induction a as [|ev a IH]; cbn [app rows_called]; [reflexivity|].
  destruct ev as [| | | | | | | | |lvl r|]; try exact IH.
  destruct r; try exact IH; cbn [app]; now rewrite IH.
Qed.

Lemma rows_called_quiet (evs : list event) :
  Forall (fun ev => is_call ev = false) evs -> rows_called evs = [].
Proof.
  induction 1 as [|ev evs Hev _ IH]; [reflexivity|].
  destruct ev as [| | | | | | | | |lvl r|]; try exact IH.
  destruct r; try exact IH; discriminate Hev.
Qed.

Lemma quiet_no_warning (evs : list event) :
  Forall (fun ev => is_call ev = false) evs ->
  Forall (fun ev => is_empty_text_warning ev = false) evs.
Proof.
  apply Forall_impl. intros ev Hev.
  destruct ev as [| | | | | | | | |lvl r|]; try reflexivity.
  destruct r; try reflexivity. discriminate Hev.
Qed.

Lemma is_prefix_nil {A} (l : list A) : is_prefix [] l.
Proof. now exists l. Qed.

Lemma is_prefix_cons {A} (x : A) (p l : list A) :
  is_prefix p l -> is_prefix (x :: p) (x :: l).
Proof. intros [rest ->]. now exists rest. Qed.

Lemma is_prefix_trans {A} (a b c : list A) :
  is_prefix a b -> is_prefix b c -> is_prefix a c.
Proof. intros [r1 ->] [r2 ->]. exists (r1 ++ r2). now rewrite app_assoc. Qed.

Lemma is_prefix_firstn {A} (n : nat) (l : list A) : is_prefix (firstn n l) l.
Proof. exists (skipn n l). symmetry. apply firstn_skipn. Qed.

Lemma sorted_prefix (p l : list Z) :
  is_prefix p l -> StronglySorted Z.lt l -> StronglySorted Z.lt p.
Proof.
  intros [rest ->]. induction p as [|x p IH]; intros Hs; [constructor|].
  cbn [app] in Hs. inversion Hs as [|? ? Hs' Hall]; subst.
  constructor; [now apply IH|].
  apply Forall_app in Hall. tauto.
Qed.

Section RowsCalled.

Context {E : Type} (R : Remote E) (args : Args).

Abbreviation no_call := (fun ev => is_call ev = false).
Abbreviation no_warning := (fun ev => is_empty_text_warning ev = false).

(** What is observed of a run: the rows called satisfy [P], and no call
    met an empty text. *)
Definition observed (P : list Z -> Prop) (evs : list event) : Prop :=
  P (rows_called evs) /\ Forall no_warning evs.

Lemma observed_after_quiet {A B} (P : list Z -> Prop) (c : M E A) (k : A -> M E B) :
  P [] -> emits_only no_call c ->
  (forall a w', observed P (emitted (k a w'))) ->
  forall w, observed P (emitted (bind c k w)).
Proof.
  intros Hnil Hc Hk w. destruct (Hc w) as [Hq _]. unfold bind.
  destruct (out (c w)) as [a|e|n]; cbn [emitted].
  - destruct (Hk a (after (c w))) as [HP Hw]. split.
    + now rewrite rows_called_app, (rows_called_quiet _ Hq).
    + apply Forall_app. split; [now apply quiet_no_warning|exact Hw].
  - split; [now rewrite (rows_called_quiet _ Hq)|now apply quiet_no_warning].
  - split; [now rewrite (rows_called_quiet _ Hq)|now apply quiet_no_warning].
Qed.

Lemma observed_quiet {A} (P : list Z -> Prop) (c : M E A) :
  P [] -> emits_only no_call c -> forall w, observed P (emitted (c w)).
Proof.
  intros Hnil Hc w. destruct (Hc w) as [Hq _].
  split; [now rewrite (rows_called_quiet _ Hq)|now apply quiet_no_warning].
Qed.

Lemma observed_after_return {A B} (P : list Z -> Prop) (c : M E A) (k : A -> M E B)
    (w : World E) (a : A) :
  out (c w) = Return a -> Forall no_call (emitted (c w)) ->
  observed P (emitted (k a (after (c w)))) ->
  observed P (emitted (bind c k w)).
Proof.
  intros Ho Hq [Hp Hw]. rewrite (bind_return _ _ _ _ Ho). cbn [emitted]. split.
  - now rewrite rows_called_app, (rows_called_quiet _ Hq).
  - apply Forall_app. split; [now apply quiet_no_warning|exact Hw].
Qed.

Lemma observed_then_quiet {A B} (P : list Z -> Prop) (c : M E A) (k : A -> M E B)
    (w : World E) :
  observed P (emitted (c w)) -> (forall a, emits_only no_call (k a)) ->
  observed P (emitted (bind c k w)).
Proof.
  intros [Hp Hw] Hk. unfold bind.
  destruct (out (c w)) as [a|e|n]; cbn [emitted]; [|split; assumption|split; assumption].
  destruct (Hk a (after (c w))) as [Hq _]. split.
  - now rewrite rows_called_app, (rows_called_quiet _ Hq), app_nil_r.
  - apply Forall_app. split; [exact Hw|now apply quiet_no_warning].
Qed.

Lemma emitted_log_bind {B} (lvl : level) (r : log_record) (k : unit -> M E B)
    (w : World E) :
  emitted (bind (log lvl r) k w) = Logged lvl r :: emitted (k tt w).
Proof. reflexivity. Qed.

Lemma name_and_upload_calm (row_num : Z) (folder content : string) :
  emits_only no_call (name_and_upload R args row_num folder content).
Proof.
  unfold name_and_upload, upload_and_mark, upload_audio_file_with_retry,
    upload_audio_file, update_sheet_cells_with_retry.
  calm.
Qed.

Lemma synthesize_speech_with_retry_calm text voice rate enc :
  emits_only no_call (synthesize_speech_with_retry R text voice rate enc).
Proof. unfold synthesize_speech_with_retry, synthesize_speech. calm. Qed.

(** A call that logs the row and goes on without another call. *)
Lemma called_once {B} (lvl : level) (row_num : Z) (text : string) (rest : M E B)
    (w : World E) :
  emits_only no_call rest ->
  rows_called (emitted (bind (log lvl (Synthesizing row_num text)) (fun _ => rest) w))
  = [row_num]
  /\ Forall no_warning
       (emitted (bind (log lvl (Synthesizing row_num text)) (fun _ => rest) w)).
Proof.
  intros Hrest. destruct (Hrest w) as [Hq _].
  rewrite emitted_log_bind. split.
  - cbn [rows_called]. now rewrite (rows_called_quiet _ Hq).
  - constructor; [reflexivity|now apply quiet_no_warning].
Qed.

Lemma process_row_called (row_num : Z) (text folder : string) (w : World E) :
  Py.blank text = false ->
  rows_called (emitted (process_row R args row_num text folder w)) = [row_num]
  /\ Forall no_warning (emitted (process_row R args row_num text folder w)).
Proof.
  intros Htext. unfold process_row.
  destruct (negb (Py.truthy (Py.strip text))) eqn:Hguard.
  { rewrite strip_truthy, Htext in Hguard. discriminate Hguard. }
  apply called_once. apply eo_bind.
  - apply eo_try_except.
    + apply eo_bind; [apply synthesize_speech_with_retry_calm|].
      intros a. destruct (negb (present a)); apply eo_ret.
    + intros e. apply eo_bind; [apply eo_log; reflexivity|intros; apply eo_ret].
  - intros [content|]; [apply name_and_upload_calm|apply eo_ret].
Qed.

Lemma process_rows_called (texts : list string) (folder : string) (rows : list Z)
    (w : World E) :
  (forall row, In row rows ->
     exists text, Py.index texts (row - start_row args) = Some text
                  /\ Py.blank text = false) ->
  observed (fun called => is_prefix called rows)
           (emitted (process_rows R args texts folder rows w)).
Proof.
  revert w. induction rows as [|row rows IH]; intros w Htexts; cbn [process_rows].
  - split; [apply is_prefix_nil|constructor].
  - destruct (Htexts row (or_introl eq_refl)) as (text & Hidx & Hblank).
    rewrite Hidx. unfold bind at 1. cbn [ret out after emitted app].
    destruct (process_row_called row text folder w Hblank) as [Hcall Hwarn].
    unfold bind.
    destruct (out (process_row R args row text folder w)) as [u|e|n];
      cbn [emitted].
    + destruct (IH (after (process_row R args row text folder w))) as [Hp Hw].
      { intros r Hr. apply Htexts. now right. }
      split.
      * rewrite rows_called_app, Hcall. cbn [app]. now apply is_prefix_cons.
      * apply Forall_app. auto.
    + split; [|exact Hwarn]. rewrite Hcall. apply is_prefix_cons, is_prefix_nil.
    + split; [|exact Hwarn]. rewrite Hcall. apply is_prefix_cons, is_prefix_nil.
Qed.

(** The rows of a gap are rows with a text. *)
Lemma gap_row_text (audios texts : list string) (start row : Z) :
  In row (find_rows_needing_audio audios texts start) ->
  exists text, Py.index texts (row - start) = Some text /\ Py.blank text = false.
Proof.
  intros Hin. rewrite find_rows_needing_audio_gap_from in Hin.
  apply in_gap_from in Hin. destruct Hin as (i & Hi & -> & Hs & _).
  exists (nth i texts ""). split; [|exact Hs].
  unfold Py.index. destruct (Z.leb_spec 0 (start + 0 + Z.of_nat i - start)); [|lia].
  replace (Z.to_nat (start + 0 + Z.of_nat i - start)) with i by lia.
  apply nth_error_nth'. unfold common_length in Hi. lia.
Qed.

Lemma cap_run (rows : list Z) (w : World E) :
  let c := match max_rows args with
           | Some n => log Info (LimitingRows n) ;; ret (Py.slice_to rows n)
           | None => @ret E _ rows
           end in
  out (c w) = Return (capped args rows) /\ after (c w) = w
  /\ Forall no_call (emitted (c w)).
Proof.
  cbv zeta. unfold capped. destruct (max_rows args) as [n|].
  - split; [reflexivity|]. split; [reflexivity|]. repeat constructor.
  - split; [reflexivity|]. split; [reflexivity|]. constructor.
Qed.

Lemma process_gap_called (title : string) (audios texts : list string) (w : World E) :
  let gap := find_rows_needing_audio audios texts (start_row args) in
  observed (fun called => is_prefix called (capped args gap))
           (emitted (process_gap R args title texts gap w)).
Proof.
  cbv zeta. set (gap := find_rows_needing_audio audios texts (start_row args)).
  set (P := fun called => is_prefix called (capped args gap)).
  assert (Hnil : P []) by apply is_prefix_nil.
  revert w. unfold process_gap.
  apply observed_after_quiet; [exact Hnil|calm|intros _ w1; revert w1].
  apply observed_after_quiet;
    [exact Hnil|unfold create_or_get_audio_folder; calm|intros folder w1; revert w1].
  apply observed_after_quiet; [exact Hnil|calm|intros _ w1].
  destruct (cap_run gap w1) as (Ho & _ & Hq).
  apply (observed_after_return P _ _ w1 _ Ho Hq).
  generalize (after (match max_rows args with
                     | Some n => log Info (LimitingRows n) ;; ret (Py.slice_to gap n)
                     | None => ret gap
                     end w1)).
  apply observed_after_quiet;
    [exact Hnil|unfold validate_sheet_structure; calm|intros _ w2].
  apply observed_then_quiet; [|intros; calm].
  apply process_rows_called.
  intros row Hrow. apply (gap_row_text audios). fold gap.
  unfold capped in Hrow. destruct (max_rows args) as [n|]; [|exact Hrow].
  now apply (slice_to_incl gap n).
Qed.

Lemma find_rows_run (audios texts : list string) (start : Z) (w : World E) :
  out (find_rows audios texts start w)
  = Return (find_rows_needing_audio audios texts start)
  /\ after (find_rows audios texts start w) = w
  /\ Forall no_call (emitted (find_rows audios texts start w)).
Proof.
  assert (Hev : emits_only no_call (find_rows (E:=E) audios texts start)).
  { unfold find_rows. apply eo_bind; [|intros; apply eo_ret].
    apply eo_log_all. intros r Hin. apply in_map_iff in Hin.
    destruct Hin as ([row] & <- & _). reflexivity. }
  destruct (find_rows_triple (sheet w) audios texts start w eq_refl) as [_ Ho].
  split; [exact Ho|]. split; [|apply Hev].
  unfold find_rows.
  match goal with
  | |- context [bind (log_all ?lvl ?rs) ?k w] =>
      destruct (log_all_run lvl rs w) as [Hlo Hla];
      rewrite (bind_return _ k w tt Hlo); rewrite Hla
  end.
  reflexivity.
Qed.

Lemma reconcile_called (title : string) (texts audios : list string) (w : World E) :
  observed (fun called =>
              is_prefix called
                (capped args (find_rows_needing_audio audios texts (start_row args))))
           (emitted (reconcile R args title texts audios w)).
Proof.
  unfold reconcile. destruct (negb _).
  - apply observed_quiet; [apply is_prefix_nil|calm].
  - destruct (find_rows_run audios texts (start_row args) w) as (Ho & Ha & Hq).
    apply (observed_after_return _ _ _ w _ Ho Hq). rewrite Ha.
    destruct (find_rows_needing_audio audios texts (start_row args)) as [|r rs] eqn:Hg.
    + split; [apply is_prefix_nil|repeat constructor].
    + rewrite <- Hg. apply process_gap_called.
Qed.

Lemma main_called (w : World E) :
  observed (fun called =>
              exists texts audios,
                is_prefix called
                  (capped args (find_rows_needing_audio audios texts (start_row args))))
           (emitted (main R args w)).
Proof.
  set (P := fun called => exists texts audios,
              is_prefix called
                (capped args (find_rows_needing_audio audios texts (start_row args)))).
  assert (Hnil : P []) by (exists [], []; apply is_prefix_nil).
  revert w. unfold main.
  apply observed_after_quiet;
    [exact Hnil|unfold validate_input_parameters; calm|intros _ w; revert w].
  apply observed_after_quiet;
    [exact Hnil|unfold get_google_services; calm|intros _ w; revert w].
  apply observed_after_quiet; [exact Hnil|calm|intros _ w; revert w].
  apply observed_after_quiet;
    [exact Hnil|unfold test_google_services; calm|intros _ w; revert w].
  apply observed_after_quiet;
    [exact Hnil|unfold get_spreadsheet_title; calm|intros title w; revert w].
  apply observed_after_quiet;
    [exact Hnil|unfold ensure_column_header; calm|intros _ w; revert w].
  apply observed_after_quiet;
    [exact Hnil|unfold read_sheet_column; calm|intros texts w; revert w].
  apply observed_after_quiet;
    [exact Hnil|unfold read_sheet_column; calm|intros audios w].
  destruct (reconcile_called title texts audios w) as [Hp Hw].
  split; [exists texts, audios; exact Hp|exact Hw].
Qed.

End RowsCalled.

(** X10. In every run of [main] the rows [process_row] is called on are in
    strictly ascending order, none of them twice, each at or after
    [start_row]; with [max_rows = n >= 0] there are at most [n] of them; and
    none of the calls meets an empty text: the guard at the head of
    [process_row] never fires. *)
Theorem rows_are_processed_in_order {E : Type} (R : Remote E) (args : Args) (w : World E) :
  let evs := emitted (main R args w) in
  StronglySorted Z.lt (rows_called evs)
  /\ (forall row, In row (rows_called evs) -> start_row args <= row)
  /\ (forall n, max_rows args = Some n -> 0 <= n ->
                Z.of_nat (List.length (rows_called evs)) <= n)
  /\ Forall (fun ev => is_empty_text_warning ev = false) evs.
Proof.
  cbv zeta. destruct (main_called R args w) as [(texts & audios & Hp) Hw].
  set (gap := find_rows_needing_audio audios texts (start_row args)) in *.
  assert (Hcap : is_prefix (capped args gap) gap).
  { unfold capped, Py.slice_to. destruct (max_rows args) as [n|];
      [destruct (0 <=? n); apply is_prefix_firstn|exists []; now rewrite app_nil_r]. }
  assert (Hgap : is_prefix (rows_called (emitted (main R args w))) gap)
    by (eapply is_prefix_trans; eauto).
  assert (Hsorted : StronglySorted Z.lt gap).
  { unfold gap. rewrite find_rows_needing_audio_gap_from. apply gap_from_ascending. }
  repeat split.
  - exact (sorted_prefix _ _ Hgap Hsorted).
  - intros row Hin. destruct Hgap as [rest Hrest].
    assert (Hrow : In row gap) by (rewrite Hrest; apply in_or_app; now left).
    unfold gap in Hrow. rewrite find_rows_needing_audio_gap_from in Hrow.
    apply gap_from_sorted in Hrow. lia.
  - intros n Hmax Hn. destruct Hp as [rest Hrest].
    apply (f_equal (@List.length Z)) in Hrest. rewrite length_app in Hrest.
    unfold capped, Py.slice_to in Hrest. rewrite Hmax in Hrest.
    destruct (Z.leb_spec 0 n); [|lia]. rewrite length_firstn in Hrest. lia.
  - exact Hw.
Qed.

(** ** The header check *)

Section HeaderCheck.

Context {E : Type} (R : Remote E) (args : Args).

Lemma out_bind_return {A B} (c : M E A) (k : A -> M E B) (w : World E) (a : A) :
  out (c w) = Return a -> out (bind c k w) = out (k a (after (c w))).
Proof. intros H. now rewrite (bind_return _ _ _ _ H). Qed.

Lemma out_bind_raise {A B} (c : M E A) (k : A -> M E B) (w : World E) (e : exn) :
  out (c w) = Raise e -> out (bind c k w) = Raise e.
Proof. intros H. now rewrite (bind_raise _ _ _ _ H). Qed.

(** The answer to the read of a header cell has a first cell, or is empty:
    taking the header out of it never fails. *)
Lemma first_cell_header (s : Sheet) (col : string) (w : World E) :
  out (first_cell (range_values R s (header_range col)) w) = Return (header_value R s col)
  /\ after (first_cell (range_values R s (header_range col)) w) = w.
Proof.
  unfold header_value, header_range.
  destruct (one_cell_values R s col 1) as [H|[v H]]; rewrite H; split; reflexivity.
Qed.

(** A header read raises, or returns what the sheet shows; the sheet stays. *)
Lemma header_read_cases (col : string) (w : World E) :
  sheet (after (values_get R (header_range col) w)) = sheet w
  /\ ((exists e, out (values_get R (header_range col) w) = Raise e)
      \/ out (values_get R (header_range col) w)
         = Return (range_values R (sheet w) (header_range col))).
Proof.
  pose proof (values_get_triple R (sheet w) (header_range col) w eq_refl) as H.
  cbv beta in H. destruct H as [Hs H]. split; [exact Hs|].
  destruct (out (values_get R (header_range col) w)) as [values|e|n].
  - right. destruct H as [-> _]. reflexivity.
  - left. now exists e.
  - destruct H.
Qed.

(** X11. [validate_sheet_structure] decides the headers.  It returns only if
    the three headers are not blank and are, letter case apart, translation,
    audio_file and sentence_id; it ends the process, with status 1, only if
    they are not; and an exception that leaves it is one that a read of one
    of the three header cells raised: taking the header out of an answer
    never fails. *)
Theorem header_check_decides (w : World E) :
  match out (validate_sheet_structure R (text_column args) (audio_link_column args)
               (id_column args) w) with
  | Return _ => headers_ok R (sheet w) args
  | Exit n => n = 1 /\ ~ headers_ok R (sheet w) args
  | Raise e =>
      exists col w',
        In col [text_column args; audio_link_column args; id_column args]
        /\ sheet w' = sheet w
        /\ out (values_get R (header_range col) w') = Raise e
  end.
Proof.
  unfold validate_sheet_structure.
  destruct (header_read_cases (text_column args) w) as [Hs1 [[e Ho]|Ho]].
  { rewrite (out_bind_raise _ _ _ _ Ho).
    exists (text_column args), w. cbn [In]. auto. }
  rewrite (out_bind_return _ _ _ _ Ho). clear Ho.
  set (w1 := after (values_get R (header_range (text_column args)) w)) in *.
  clearbody w1.
  destruct (header_read_cases (audio_link_column args) w1) as [Hs2 [[e Ho]|Ho]].
  { rewrite (out_bind_raise _ _ _ _ Ho).
    exists (audio_link_column args), w1. cbn [In]. auto. }
  rewrite (out_bind_return _ _ _ _ Ho). clear Ho.
  set (w2 := after (values_get R (header_range (audio_link_column args)) w1)) in *.
  clearbody w2. rewrite Hs1 in *.
  destruct (header_read_cases (id_column args) w2) as [Hs3 [[e Ho]|Ho]].
  { rewrite (out_bind_raise _ _ _ _ Ho).
    exists (id_column args), w2. cbn [In]. auto. }
  rewrite (out_bind_return _ _ _ _ Ho). clear Ho.
  set (w3 := after (values_get R (header_range (id_column args)) w2)) in *.
  clearbody w3. rewrite Hs2 in *. clear Hs1 Hs2 Hs3 w1 w2.
  destruct (first_cell_header (sheet w) (text_column args) w3) as [Hf Ha].
  rewrite (out_bind_return _ _ _ _ Hf), Ha. clear Hf Ha.
  destruct (first_cell_header (sheet w) (audio_link_column args) w3) as [Hf Ha].
  rewrite (out_bind_return _ _ _ _ Hf), Ha. clear Hf Ha.
  destruct (first_cell_header (sheet w) (id_column args) w3) as [Hf Ha].
  rewrite (out_bind_return _ _ _ _ Hf), Ha. clear Hf Ha.
  rewrite !not_stripped_empty. unfold headers_ok.
  destruct (Py.blank (header_value R (sheet w) (text_column args))) eqn:H1.
  { split; [reflexivity|]. intros (H & _). discriminate H. }
  destruct (Py.blank (header_value R (sheet w) (audio_link_column args))) eqn:H2.
  { split; [reflexivity|]. intros (_ & H & _). discriminate H. }
  destruct (Py.blank (header_value R (sheet w) (id_column args))) eqn:H3.
  { split; [reflexivity|]. intros (_ & _ & H & _). discriminate H. }
  destruct (String.eqb_spec (Py.lower (header_value R (sheet w) (text_column args)))
              "translation") as [H4|H4]; cbn [negb].
  2:{ split; [reflexivity|]. intros (_ & _ & _ & H & _). contradiction. }
  destruct (String.eqb_spec (Py.lower (header_value R (sheet w) (audio_link_column args)))
              "audio_file") as [H5|H5]; cbn [negb].
  2:{ split; [reflexivity|]. intros (_ & _ & _ & _ & H & _). contradiction. }
  destruct (String.eqb_spec (Py.lower (header_value R (sheet w) (id_column args)))
              "sentence_id") as [H6|H6]; cbn [negb].
  2:{ split; [reflexivity|]. intros (_ & _ & _ & _ & _ & H). contradiction. }
  cbn [log emit out]. repeat split; assumption.
Qed.

End HeaderCheck.

(** ** File names *)

Lemma all_chars_app (p : ascii -> bool) (a b : string) :
  all_chars p (a ++ b) = all_chars p a && all_chars p b.
Proof.
  induction a as [|c a IH]; cbn [append all_chars]; [reflexivity|].
  now rewrite IH, andb_assoc.
Qed.

Lemma digit_not_space (c : ascii) : is_digit c = true -> Py.is_int_space c = false.
Proof.
  destruct c as [[] [] [] [] [] [] [] []]; intros H; try discriminate H; reflexivity.
Qed.

Lemma int_rstrip_fixed (s : string) :
  all_chars (fun c => negb (Py.is_int_space c)) s = true -> Py.int_rstrip s = s.
Proof.
  induction s as [|c s IH]; cbn [all_chars Py.int_rstrip]; [reflexivity|].
  intros H. apply andb_prop in H. destruct H as [Hc Hs].
  rewrite (IH Hs). apply negb_true_iff in Hc. rewrite Hc. now destruct s.
Qed.

(** [int] drops nothing from a text without whitespace. *)
Lemma strip_fixed (s : string) :
  all_chars (fun c => negb (Py.is_int_space c)) s = true ->
  Py.int_rstrip (Py.int_lstrip s) = s.
Proof.
  intros H.
  assert (Hl : Py.int_lstrip s = s).
  { destruct s as [|c s]; [reflexivity|]. cbn [all_chars] in H.
    apply andb_prop in H. destruct H as [Hc _]. apply negb_true_iff in Hc.
    cbn [Py.int_lstrip]. now rewrite Hc. }
  rewrite Hl. now apply int_rstrip_fixed.
Qed.

Lemma all_chars_weaken (p q : ascii -> bool) (s : string) :
  (forall c, p c = true -> q c = true) -> all_chars p s = true -> all_chars q s = true.
Proof.
  intros Hpq. induction s as [|c s IH]; cbn [all_chars]; [reflexivity|].
  intros H. apply andb_prop in H. destruct H as [Hc Hs].
  now rewrite (Hpq c Hc), (IH Hs).
Qed.

(** The digits that Rocq's printer gives are digits. *)
Lemma string_of_uint_digits (u : Decimal.uint) :
  all_chars is_digit (NilEmpty.string_of_uint u) = true.
Proof. induction u; cbn [NilEmpty.string_of_uint all_chars]; auto. Qed.

Lemma parse_uint_acc (u : Decimal.uint) (acc : positive) :
  Py.parse_digits (NilEmpty.string_of_uint u) (Z.pos acc) true
  = Some (Z.pos (Pos.of_uint_acc u acc)).
Proof.
  revert acc.
  induction u as [|u IH|u IH|u IH|u IH|u IH|u IH|u IH|u IH|u IH|u IH]; intros acc;
    cbn [NilEmpty.string_of_uint Py.parse_digits Pos.of_uint_acc]; [reflexivity|..];
    match goal with
    | |- context [Ascii.eqb ?c "_"] =>
        change (Ascii.eqb c "_") with false; cbv iota;
        let d := eval cbv in (Py.digit_of c) in change (Py.digit_of c) with d; cbv iota
    end;
    rewrite <- IH; f_equal; lia.
Qed.

Lemma parse_uint (u : Decimal.uint) (after_digit : bool) :
  u <> Decimal.Nil \/ after_digit = true ->
  Py.parse_digits (NilEmpty.string_of_uint u) 0 after_digit
  = Some (Z.of_N (Pos.of_uint u)).
Proof.
  revert after_digit.
  induction u as [|u IH|u IH|u IH|u IH|u IH|u IH|u IH|u IH|u IH|u IH];
    intros after_digit H;
    cbn [NilEmpty.string_of_uint Py.parse_digits Pos.of_uint].
  - destruct H as [H|H]; [contradiction|now subst after_digit].
  - change (Ascii.eqb "0" "_") with false. cbv iota.
    change (Py.digit_of "0") with (Some 0). cbv iota.
    change (10 * 0 + 0) with 0. apply IH. now right.
  - exact (parse_uint_acc u 1).
  - exact (parse_uint_acc u 2).
  - exact (parse_uint_acc u 3).
  - exact (parse_uint_acc u 4).
  - exact (parse_uint_acc u 5).
  - exact (parse_uint_acc u 6).
  - exact (parse_uint_acc u 7).
  - exact (parse_uint_acc u 8).
  - exact (parse_uint_acc u 9).
Qed.

Lemma to_uint_nonnil (n : N) : N.to_uint n <> Decimal.Nil.
Proof.
  destruct n as [|p]; [discriminate|]. apply DecimalPos.Unsigned.to_uint_nonnil.
Qed.

Lemma digits_of_N (n : N) :
  NilZero.string_of_uint (N.to_uint n) = NilEmpty.string_of_uint (N.to_uint n).
Proof.
  pose proof (to_uint_nonnil n) as H. now destruct (N.to_uint n).
Qed.

Lemma zeros_digits (k : nat) :
  all_chars is_digit (string_of_list_ascii (repeat "0"%char k)) = true.
Proof. induction k as [|k IH]; [reflexivity|exact IH]. Qed.

Lemma parse_zeros (k : nat) (s : string) (after_digit : bool) :
  Py.parse_digits (string_of_list_ascii (repeat "0"%char k) ++ s) 0 after_digit
  = Py.parse_digits s 0 (match k with O => after_digit | S _ => true end).
Proof.
  revert after_digit. induction k as [|k IH]; intros after_digit; [reflexivity|].
  cbn [repeat string_of_list_ascii append Py.parse_digits].
  change (Ascii.eqb "0" "_") with false. cbv iota.
  change (Py.digit_of "0") with (Some 0). cbv iota.
  change (10 * 0 + 0) with 0. rewrite IH. now destruct k.
Qed.

(** Padding with zeros does not change the number read back. *)
Lemma parse_zero_pad (width : nat) (n : N) :
  Py.parse_digits (Py.zero_pad width (NilZero.string_of_uint (N.to_uint n))) 0 false
  = Some (Z.of_N n).
Proof.
  unfold Py.zero_pad. rewrite parse_zeros, digits_of_N, parse_uint.
  - now rewrite <- (DecimalN.Unsigned.of_to n) at 2.
  - left. apply to_uint_nonnil.
Qed.

Lemma zero_pad_digits (width : nat) (n : N) :
  all_chars is_digit (Py.zero_pad width (NilZero.string_of_uint (N.to_uint n))) = true.
Proof.
  unfold Py.zero_pad. rewrite all_chars_app, zeros_digits, digits_of_N.
  apply string_of_uint_digits.
Qed.

Lemma zero_pad_nonempty (width : nat) (n : N) :
  Py.zero_pad width (NilZero.string_of_uint (N.to_uint n)) <> EmptyString.
Proof.
  intros H. pose proof (parse_zero_pad width n) as Hp. rewrite H in Hp. discriminate Hp.
Qed.

Lemma append_length (a b : string) :
  String.length (a ++ b) = (String.length a + String.length b)%nat.
Proof. induction a as [|c a IH]; cbn; [reflexivity|now rewrite IH]. Qed.

Lemma append_cancel_r (a b c : string) : (a ++ c)%string = (b ++ c)%string -> a = b.
Proof.
  revert b. induction a as [|x a IH]; intros [|y b] H.
  - reflexivity.
  - apply (f_equal String.length) in H. cbn [append] in H.
    cbn [String.length] in H. rewrite append_length in H. lia.
  - apply (f_equal String.length) in H. cbn [append] in H.
    cbn [String.length] in H. rewrite append_length in H. lia.
  - cbn [append] in H. injection H as -> H. f_equal. now apply IH.
Qed.

Lemma int_of_format_06 (n : Z) : Py.int_of_string (Py.format_06 n) = Some n.
Proof.
  unfold Py.format_06, Py.int_of_string.
  pose proof (zero_pad_digits 5 (Z.abs_N n)) as Hd5.
  pose proof (zero_pad_digits 6 (Z.abs_N n)) as Hd6.
  assert (Hns : forall c, is_digit c = true -> negb (Py.is_int_space c) = true).
  { intros c Hc. now rewrite (digit_not_space c Hc). }
  destruct (Z.ltb_spec n 0) as [Hn|Hn].
  - rewrite strip_fixed.
    + cbn [append]. rewrite parse_zero_pad. cbn [option_map]. f_equal. lia.
    + cbn [append all_chars]. apply (all_chars_weaken _ _ _ Hns Hd5).
  - rewrite strip_fixed; [|apply (all_chars_weaken _ _ _ Hns Hd6)].
    pose proof (parse_zero_pad 6 (Z.abs_N n)) as Hp.
    pose proof (zero_pad_nonempty 6 (Z.abs_N n)) as Hne.
    destruct (Py.zero_pad 6 (NilZero.string_of_uint (N.to_uint (Z.abs_N n))))
      as [|c r]; [contradiction|].
    cbn [all_chars] in Hd6. apply andb_prop in Hd6. destruct Hd6 as [Hc _].
    destruct c as [[] [] [] [] [] [] [] []]; try discriminate Hc;
      match type of Hp with ?lhs = _ => change (lhs = Some n) end;
      rewrite Hp; f_equal; lia.
Qed.

(** X12. The file name of a row tells its sentence id: [int] reads the
    number back from the six-digit form, negative numbers included, so two
    rows get the same file name exactly if their ids are the same number. *)
Theorem file_name_tells_the_id (n m : Z) :
  Py.int_of_string (Py.format_06 n) = Some n
  /\ (("sentence_" ++ Py.format_06 n ++ ".mp3")%string
      = ("sentence_" ++ Py.format_06 m ++ ".mp3")%string
      <-> n = m).
Proof.
  split; [apply int_of_format_06|]. split; [|now intros ->].
  intros H. cbn [append] in H.
  repeat (injection H as H). apply append_cancel_r in H.
  apply (f_equal Py.int_of_string) in H. rewrite !int_of_format_06 in H.
  now injection H.
Qed.

(** ** The language code of a voice *)

Lemma split_nonempty (sep : ascii) (s : string) : Py.split sep s <> [].
Proof.
  destruct s as [|c r]; cbn [Py.split]; [discriminate|].
  destruct (Ascii.eqb c sep); [discriminate|].
  destruct (Py.split sep r); discriminate.
Qed.

Lemma join_cons (sep w : string) (ws : list string) :
  ws <> [] -> Py.join sep (w :: ws) = (w ++ sep ++ Py.join sep ws)%string.
Proof. destruct ws; [contradiction|reflexivity]. Qed.

Lemma join_head (sep : string) (c : ascii) (w : string) (ws : list string) :
  Py.join sep (String c w :: ws) = String c (Py.join sep (w :: ws)).
Proof. destruct ws; reflexivity. Qed.

(** Joining the pieces with the separator gives the string back. *)
Lemma join_split (sep : ascii) (s : string) :
  Py.join (String sep EmptyString) (Py.split sep s) = s.
Proof.
  induction s as [|c r IH]; cbn [Py.split]; [reflexivity|].
  destruct (Ascii.eqb_spec c sep) as [->|Hc].
  - rewrite join_cons by apply split_nonempty. rewrite IH. reflexivity.
  - pose proof (split_nonempty sep r) as Hne.
    destruct (Py.split sep r) as [|w ws]; [contradiction|].
    rewrite join_head, IH. reflexivity.
Qed.

(** No piece holds the separator. *)
Lemma split_pieces (sep : ascii) (s : string) :
  Forall (fun w => count_char sep w = O) (Py.split sep s).
Proof.
  induction s as [|c r IH]; cbn [Py.split]; [repeat constructor|].
  destruct (Ascii.eqb_spec c sep) as [->|Hc].
  - constructor; [reflexivity|exact IH].
  - pose proof (split_nonempty sep r) as Hne.
    destruct (Py.split sep r) as [|w ws]; [contradiction|].
    inversion IH as [|? ? Hw Hws]; subst. constructor; [|exact Hws].
    cbn [count_char]. destruct (Ascii.eqb_spec c sep); [contradiction|exact Hw].
Qed.

Lemma count_char_app (c : ascii) (a b : string) :
  count_char c (a ++ b) = (count_char c a + count_char c b)%nat.
Proof.
  induction a as [|x a IH]; cbn [append count_char]; [reflexivity|].
  rewrite IH. lia.
Qed.

Lemma append_assoc (a b c : string) : ((a ++ b) ++ c = a ++ b ++ c)%string.
Proof. induction a as [|x a IH]; cbn [append]; [reflexivity|now rewrite IH]. Qed.

Lemma append_empty_r (a : string) : (a ++ "")%string = a.
Proof. induction a as [|x a IH]; cbn [append]; [reflexivity|now rewrite IH]. Qed.

(** X13. The language code [synthesize_speech] sends is the voice name cut
    before its second hyphen: it is a prefix of the voice name with at most
    one hyphen in it, and what is cut off is nothing, or begins with a
    hyphen after a code that holds one.  So a voice name with fewer than two
    hyphens is sent whole as the language code. *)
Theorem language_code_is_cut_at_second_hyphen {E : Type} (R : Remote E)
    (text voice_name : string) (speaking_rate : Q) (audio_encoding : encoding)
    (w : World E) :
  (exists rq,
     emitted (synthesize_speech R text voice_name speaking_rate audio_encoding w)
     = [TtsSynthesize rq]
     /\ tts_voice rq = voice_name
     /\ tts_language rq = language_code voice_name)
  /\ (count_char "-" (language_code voice_name) <= 1)%nat
  /\ exists rest,
       voice_name = (language_code voice_name ++ rest)%string
       /\ (rest = ""
           \/ ((exists r, rest = String "-" r)
               /\ count_char "-" (language_code voice_name) = 1%nat)).
Proof.
  split.
  { unfold synthesize_speech, remote_call.
    match goal with
    | |- context [tts_synthesize R ?rq (remote w)] =>
        exists rq; destruct (tts_synthesize R rq (remote w))
    end.
    repeat split. }
  unfold language_code.
  pose proof (join_split "-" voice_name) as Hjoin.
  pose proof (split_pieces "-" voice_name) as Hpieces.
  pose proof (split_nonempty "-" voice_name) as Hne.
  destruct (Py.split "-" voice_name) as [|w0 [|w1 [|w2 ws]]]; [contradiction| | |].
  - cbn [firstn Py.join] in *. inversion Hpieces as [|? ? H0 _]; subst.
    split; [rewrite H0; lia|]. exists "". rewrite append_empty_r. auto.
  - cbn [firstn].
    inversion Hpieces as [|? ? H0 H']; subst. inversion H' as [|? ? H1 _]; subst.
    assert (Hc : count_char "-" (Py.join "-" [w0; w1]) = 1%nat).
    { cbn [Py.join]. rewrite !count_char_app, H0, H1. reflexivity. }
    split; [rewrite Hc; lia|].
    exists "". rewrite append_empty_r. auto.
  - cbn [firstn].
    inversion Hpieces as [|? ? H0 H']; subst. inversion H' as [|? ? H1 _]; subst.
    assert (Hc : count_char "-" (Py.join "-" [w0; w1]) = 1%nat).
    { cbn [Py.join]. rewrite !count_char_app, H0, H1. reflexivity. }
    split; [rewrite Hc; lia|].
    exists ("-" ++ Py.join "-" (w2 :: ws))%string. split.
    + rewrite (join_cons "-" w0 (w1 :: w2 :: ws)) by discriminate.
      rewrite (join_cons "-" w1 (w2 :: ws)) by discriminate.
      cbn [Py.join]. now rewrite !append_assoc.
    + right. split; [now exists (Py.join "-" (w2 :: ws))|exact Hc].
Qed.

(** ** The test of the services *)

Section ServicesTest.

Context {E : Type} (R : Remote E).

Lemma bind_run_return {A B} (c : M E A) (k : A -> M E B) (w w' : World E) (a : A)
    (evs : list event) :
  c w = Run (Return a) w' evs ->
  bind c k w = Run (out (k a w')) (after (k a w')) (evs ++ emitted (k a w')).
Proof. intros H. unfold bind. now rewrite H. Qed.

Lemma bind_run_raise {A B} (c : M E A) (k : A -> M E B) (w w' : World E) (x : exn)
    (evs : list event) :
  c w = Run (Raise x) w' evs -> bind c k w = Run (Raise x) w' evs.
Proof. intros H. unfold bind. now rewrite H. Qed.

Lemma bind_log {B} (lvl : level) (r : log_record) (k : unit -> M E B) (w : World E) :
  bind (log lvl r) k w
  = Run (out (k tt w)) (after (k tt w)) (Logged lvl r :: emitted (k tt w)).
Proof. reflexivity. Qed.

(** A request is answered or fails; the sheet stays. *)
Lemma remote_call_cases {A} (ev : event) (f : E -> reply A * E) (w : World E) :
  exists w', sheet w' = sheet w
             /\ ((exists a, remote_call ev f w = Run (Return a) w' [ev])
                 \/ (exists x, remote_call ev f w = Run (Raise x) w' [ev])).
Proof.
  unfold remote_call. destruct (f (remote w)) as [[a|x] e'].
  - eexists. split; [|left; exists a; reflexivity]. reflexivity.
  - eexists. split; [|right; exists x; reflexivity]. reflexivity.
Qed.

Lemma spreadsheet_get_cases (w : World E) :
  exists w', sheet w' = sheet w
             /\ ((exists t, spreadsheet_get R w = Run (Return t) w' [SheetsMetadata])
                 \/ (exists x, spreadsheet_get R w = Run (Raise x) w' [SheetsMetadata])).
Proof.
  unfold spreadsheet_get. destruct (sheets_fault R (remote w)) as [[x|] e'].
  - eexists. split; [|right; exists x; reflexivity]. reflexivity.
  - eexists. split; [|left; eexists; reflexivity]. reflexivity.
Qed.

(** X14. [test_google_services] never stops a run.  Whatever the three
    services answer it returns, with the sheet as it was: either the three
    requests were made and answered, or the trace ends with the error record
    of the first request that failed, and the requests after that one were
    not made. *)
Theorem services_test_never_stops_the_run (w : World E) :
  let r := test_google_services R w in
  out r = Return tt
  /\ sheet (after r) = sheet w
  /\ ((exists rq,
         emitted r = [SheetsMetadata; Logged Info SheetsApiWorking;
                      DriveList None; Logged Info DriveApiWorking;
                      TtsSynthesize rq; Logged Info TtsApiWorking])
      \/ (exists e failed,
            In failed [[SheetsMetadata];
                       [SheetsMetadata; Logged Info SheetsApiWorking; DriveList None]]
            /\ emitted r = failed ++ [Logged Error (ServicesTestFailed e)])
      \/ (exists e rq,
            emitted r = [SheetsMetadata; Logged Info SheetsApiWorking;
                         DriveList None; Logged Info DriveApiWorking;
                         TtsSynthesize rq; Logged Error (ServicesTestFailed e)])).
Proof.
  cbv zeta. unfold test_google_services.
  match goal with
  | |- context [try_except ?c ?h] => set (body := c); set (handler := h)
  end.
  assert (Hbody : exists w',
            sheet w' = sheet w
            /\ ((exists rq,
                   body w = Run (Return tt) w'
                              [SheetsMetadata; Logged Info SheetsApiWorking;
                               DriveList None; Logged Info DriveApiWorking;
                               TtsSynthesize rq; Logged Info TtsApiWorking])
                \/ (exists x, body w = Run (Raise x) w' [SheetsMetadata])
                \/ (exists x,
                      body w = Run (Raise x) w'
                                 [SheetsMetadata; Logged Info SheetsApiWorking;
                                  DriveList None])
                \/ (exists x rq,
                      body w = Run (Raise x) w'
                                 [SheetsMetadata; Logged Info SheetsApiWorking;
                                  DriveList None; Logged Info DriveApiWorking;
                                  TtsSynthesize rq]))).
  { unfold body.
    destruct (spreadsheet_get_cases w) as (w1 & Hs1 & [(t & H1)|(x & H1)]).
    2:{ exists w1. split; [exact Hs1|]. right. left. exists x.
        apply (bind_run_raise _ _ _ _ _ _ H1). }
    rewrite (bind_run_return _ _ _ _ _ _ H1). rewrite bind_log.
    cbn [out after emitted].
    destruct (remote_call_cases (DriveList None) (drive_list R None) w1)
      as (w2 & Hs2 & [(files & H2)|(x & H2)]).
    2:{ exists w2. split; [congruence|]. right. right. left. exists x.
        rewrite (bind_run_raise _ _ _ _ _ _ H2). reflexivity. }
    rewrite (bind_run_return _ _ _ _ _ _ H2). rewrite bind_log.
    cbn [out after emitted].
    match goal with
    | |- context [remote_call (TtsSynthesize ?rq) ?f] =>
        destruct (remote_call_cases (TtsSynthesize rq) f w2)
          as (w3 & Hs3 & [(audio & H3)|(x & H3)]);
        exists w3; (split; [congruence|])
    end.
    - left. eexists. rewrite (bind_run_return _ _ _ _ _ _ H3). reflexivity.
    - right. right. right. exists x. eexists.
      rewrite (bind_run_raise _ _ _ _ _ _ H3). reflexivity. }
  clearbody body.
  destruct Hbody as (w' & Hs & [(rq & H)|[(x & H)|[(x & H)|(x & rq & H)]]]).
  - rewrite (try_except_return body handler w tt) by now rewrite H.
    rewrite H. cbn [out after emitted]. split; [reflexivity|]. split; [exact Hs|].
    left. now exists rq.
  - rewrite (try_except_raise body handler w x) by now rewrite H.
    rewrite H. unfold handler. cbn [out after emitted log emit app].
    split; [reflexivity|]. split; [exact Hs|]. right. left.
    exists x, [SheetsMetadata]. cbn [In app]. auto.
  - rewrite (try_except_raise body handler w x) by now rewrite H.
    rewrite H. unfold handler. cbn [out after emitted log emit app].
    split; [reflexivity|]. split; [exact Hs|]. right. left.
    exists x, [SheetsMetadata; Logged Info SheetsApiWorking; DriveList None].
    cbn [In app]. auto.
  - rewrite (try_except_raise body handler w x) by now rewrite H.
    rewrite H. unfold handler. cbn [out after emitted log emit app].
    split; [reflexivity|]. split; [exact Hs|]. right. right. now exists x, rq.
Qed.

End ServicesTest.

(** ** The sentences taken from the notes *)

Lemma rstrip_idempotent (s : string) : Py.rstrip (Py.rstrip s) = Py.rstrip s.
Proof.
  induction s as [|c r IH]; [reflexivity|]. cbn [Py.rstrip].
  destruct (Py.rstrip r) as [|c' r'] eqn:Hr.
  - destruct (Py.is_space c) eqn:Hc; [reflexivity|].
    cbn [Py.rstrip]. now rewrite Hc.
  - cbn [Py.rstrip]. cbn [Py.rstrip] in IH. now rewrite IH.
Qed.

Lemma lstrip_head (s : string) :
  Py.lstrip s = EmptyString
  \/ exists c r, Py.lstrip s = String c r /\ Py.is_space c = false.
Proof.
  induction s as [|c r IH]; [now left|]. cbn [Py.lstrip].
  destruct (Py.is_space c) eqn:Hc; [exact IH|]. right. now exists c, r.
Qed.

Lemma rstrip_head (c : ascii) (r : string) :
  Py.is_space c = false -> exists r', Py.rstrip (String c r) = String c r'.
Proof.
  intros Hc. cbn [Py.rstrip]. rewrite Hc.
  destruct (Py.rstrip r) as [|c' r']; eauto.
Qed.

(** [strip] changes nothing in what it has given. *)
Lemma strip_idempotent (s : string) : Py.strip (Py.strip s) = Py.strip s.
Proof.
  unfold Py.strip. destruct (lstrip_head s) as [H|(c & r & H & Hc)]; rewrite H.
  - reflexivity.
  - destruct (rstrip_head c r Hc) as [r' Hr]. rewrite Hr at 1.
    cbn [Py.lstrip]. rewrite Hc, <- Hr. apply rstrip_idempotent.
Qed.

Lemma stripped_not_blank (s : string) :
  Py.truthy (Py.strip s) = true -> Py.blank (Py.strip s) = false.
Proof.
  intros H. rewrite <- strip_idempotent in H. rewrite strip_truthy in H.
  now apply negb_true_iff in H.
Qed.

Lemma extract_step_app (field_name : string) (sentences : list string) (note : Anki.Note) :
  Anki.extract_step field_name sentences note
  = sentences ++ Anki.extract_step field_name [] note.
Proof.
  unfold Anki.extract_step.
  destruct (Anki.get _ field_name) as [f|]; [|now rewrite app_nil_r].
  destruct (Py.truthy _); [reflexivity|now rewrite app_nil_r].
Qed.

Lemma extract_fold (field_name : string) (notes : list Anki.Note) (sentences : list string) :
  fold_left (Anki.extract_step field_name) notes sentences
  = sentences ++ flat_map (Anki.extract_step field_name []) notes.
Proof.
  revert sentences. induction notes as [|note notes IH]; intros sentences;
    cbn [fold_left flat_map]; [now rewrite app_nil_r|].
  rewrite IH, extract_step_app. now rewrite <- app_assoc.
Qed.

Lemma extract_step_clean (field_name : string) (note : Anki.Note) :
  Forall (fun s => Py.blank s = false /\ Py.strip s = s)
         (Anki.extract_step field_name [] note)
  /\ (List.length (Anki.extract_step field_name [] note) <= 1)%nat.
Proof.
  unfold Anki.extract_step.
  destruct (Anki.get _ field_name) as [f|]; [|split; [constructor|cbn; lia]].
  destruct (Py.truthy _) eqn:Ht; [|split; [constructor|cbn; lia]].
  split; [|cbn; lia]. constructor; [|constructor].
  split; [now apply stripped_not_blank|apply strip_idempotent].
Qed.

(** X15. The sentences [extract_sentences] collects are clean: none is
    empty or made of whitespace only, none begins or ends with whitespace
    ([strip] leaves it as it is), and there is at most one for each note.
    Each note adds its own sentence or nothing, whatever was collected
    before it, so the sentences come in the order of the notes; a note
    without fields, without the field asked for, or with a field that has no
    text adds nothing and raises nothing. *)
Theorem extracted_sentences_are_clean (field_name : string) (notes : list Anki.Note) :
  Forall (fun s => Py.blank s = false /\ Py.strip s = s)
         (Anki.extract_loop field_name notes)
  /\ (List.length (Anki.extract_loop field_name notes) <= List.length notes)%nat
  /\ Anki.extract_loop field_name notes
     = flat_map (Anki.extract_step field_name []) notes.
Proof.
  assert (Heq : Anki.extract_loop field_name notes
                = flat_map (Anki.extract_step field_name []) notes).
  { unfold Anki.extract_loop. now rewrite extract_fold. }
  rewrite Heq. split; [|split; [|reflexivity]].
  - induction notes as [|note notes IH]; cbn [flat_map]; [constructor|].
    apply Forall_app. split; [apply extract_step_clean|].
    apply IH. unfold Anki.extract_loop. now rewrite extract_fold.
  - clear Heq. induction notes as [|note notes IH]; cbn [flat_map List.length]; [lia|].
    rewrite length_app. pose proof (extract_step_clean field_name note) as [_ H]. lia.
Qed.

(** ** The file of sentences *)

Lemma written_from (sentences : list string) (f : string) :
  fold_left Anki.write_line sentences f = (f ++ Anki.written sentences)%string.
Proof.
  unfold Anki.written. revert f.
  induction sentences as [|s rest IH]; intros f; cbn [fold_left].
  - now rewrite append_empty_r.
  - rewrite IH, (IH (Anki.write_line "" s)). unfold Anki.write_line.
    cbn [append]. now rewrite !append_assoc.
Qed.

Lemma written_cons (s : string) (rest : list string) :
  Anki.written (s :: rest) = (s ++ String Anki.LF (Anki.written rest))%string.
Proof.
  unfold Anki.written at 1. cbn [fold_left]. rewrite written_from.
  unfold Anki.write_line. cbn [append]. now rewrite append_assoc.
Qed.

Lemma split_line (s rest : string) :
  count_char Anki.LF s = O ->
  Py.split Anki.LF (s ++ String Anki.LF rest) = s :: Py.split Anki.LF rest.
Proof.
  induction s as [|c r IH]; cbn [append count_char Py.split].
  - intros _. now rewrite Ascii.eqb_refl.
  - destruct (Ascii.eqb c Anki.LF); [discriminate|]. cbn [Nat.add].
    intros H. now rewrite (IH H).
Qed.

(** X16. [write_sentences] ends every sentence with one line feed and adds
    nothing else: the file has as many line feeds as there are sentences,
    and the line feeds that are inside sentences.  A sentence that holds a
    line feed, which [strip] does not take out, is on more than one line. *)
Theorem written_file_line_feeds (sentences : list string) :
  count_char Anki.LF (Anki.written sentences)
  = (List.length sentences + Anki.inner_line_feeds sentences)%nat.
Proof.
  induction sentences as [|s rest IH]; [reflexivity|].
  rewrite written_cons, count_char_app. cbn [count_char Anki.inner_line_feeds List.length].
  rewrite Ascii.eqb_refl, IH. lia.
Qed.

(** X17. When no sentence holds a line feed the file has one sentence on
    each line: cut at its line feeds it gives the sentences back, in order,
    and the empty text after the last line feed. *)
Theorem one_sentence_on_each_line (sentences : list string) :
  Forall (fun s => count_char Anki.LF s = O) sentences ->
  Py.split Anki.LF (Anki.written sentences) = sentences ++ [EmptyString].
Proof.
  induction 1 as [|s rest Hs _ IH]; [reflexivity|].
  rewrite written_cons, (split_line _ _ Hs), IH. reflexivity.
Qed.

Lemma one_sentence_on_each_line_witness :
  Py.split Anki.LF (Anki.written ["The cat sleeps."; "It rains."])
  = ["The cat sleeps."; "It rains."] ++ [EmptyString].
Proof.
  apply (one_sentence_on_each_line ["The cat sleeps."; "It rains."]).
  repeat constructor.
Defined.

(** ** The rows of the translation sheet *)

(** The row built for the sentence numbered [i]. *)
Lemma rows_loop_spec (target_lang : string) (english_sentences : list (list string))
    (i : Z) (rows : list (list Translate.cellv)) :
  match Translate.rows_loop target_lang (Py.enumerate_from i english_sentences) rows with
  | Return rows' =>
      ~ In [] english_sentences
      /\ rows' = rows ++ map (fun item =>
                                [Translate.Num (fst item); Translate.Text (hd "" (snd item));
                                 Translate.Text (Translate.formula target_lang (fst item))])
                             (Py.enumerate_from i english_sentences)
  | Raise e => e = IndexError /\ In [] english_sentences
  | Exit _ => False
  end.
Proof.
  revert i rows. induction english_sentences as [|row rest IH]; intros i rows.
  - cbn. split; [tauto|now rewrite app_nil_r].
  - cbn [Py.enumerate_from Translate.rows_loop].
    destruct row as [|english more].
    + cbn. split; [reflexivity|now left].
    + cbn [Py.index Z.leb Z.compare Z.to_nat nth_error].
      specialize (IH (i + 1)
                     (rows ++ [[Translate.Num i; Translate.Text english;
                                Translate.Text (Translate.formula target_lang i)]])).
      destruct (Translate.rows_loop target_lang _ _) as [rows'|e|n].
      * destruct IH as [Hno ->]. split.
        -- intros [H|H]; [discriminate H|contradiction].
        -- cbn [map fst snd hd]. now rewrite <- app_assoc.
      * destruct IH as [-> Hin]. split; [reflexivity|now right].
      * exact IH.
Qed.

Lemma nth_error_enumerate_from {A} (l : list A) (i : Z) (k : nat) :
  nth_error (Py.enumerate_from i l) k
  = option_map (fun x => (i + Z.of_nat k, x)) (nth_error l k).
Proof.
  revert i k. induction l as [|x l IH]; intros i [|k]; cbn [Py.enumerate_from nth_error];
    try reflexivity.
  - cbn [option_map]. do 2 f_equal. lia.
  - rewrite IH. destruct (nth_error l k); cbn [option_map]; [|reflexivity].
    do 2 f_equal. lia.
Qed.

Lemma enumerate_from_length {A} (l : list A) (i : Z) :
  List.length (Py.enumerate_from i l) = List.length l.
Proof. revert i. induction l as [|x l IH]; intros i; cbn; [reflexivity|now rewrite IH]. Qed.

(** X18. The rows [main] builds for the translation sheet.  A row of the
    source answer that is empty, as the row of an empty cell between two
    sentences is, makes the loop raise [IndexError]; otherwise there is one
    row for each sentence, and the row at position [k], counted from 0, holds
    the number [k + 1], the first cell of the source row and a formula that
    reads cell B of row [k + 2]: the row of the sheet where the update at A2
    puts it. *)
Theorem translation_rows (target_lang : string) (english_sentences : list (list string)) :
  match Translate.build_rows target_lang english_sentences with
  | Return rows =>
      ~ In [] english_sentences
      /\ List.length rows = List.length english_sentences
      /\ forall k row,
           nth_error english_sentences k = Some row ->
           nth_error rows k
           = Some [Translate.Num (Z.of_nat k + 1);
                   Translate.Text (hd "" row);
                   Translate.Text ("=GOOGLETRANSLATE(B"
                                   ++ Translate.str_int (Z.of_nat k + 2)
                                   ++ ", " ++ dquote ++ "en" ++ dquote ++ ", "
                                   ++ dquote ++ target_lang ++ dquote ++ ")")]
  | Raise e => e = IndexError /\ In [] english_sentences
  | Exit _ => False
  end.
Proof.
  unfold Translate.build_rows.
  pose proof (rows_loop_spec target_lang english_sentences 1 []) as H.
  destruct (Translate.rows_loop target_lang _ _) as [rows|e|n]; [|exact H|exact H].
  destruct H as [Hno ->]. cbn [app]. split; [exact Hno|]. split.
  - now rewrite length_map, enumerate_from_length.
  - intros k row Hk. rewrite nth_error_map, nth_error_enumerate_from, Hk.
    cbn [option_map fst snd]. unfold Translate.formula.
    replace (1 + Z.of_nat k) with (Z.of_nat k + 1) by lia.
    replace (Z.of_nat k + 1 + 1) with (Z.of_nat k + 2) by lia.
    reflexivity.
Qed.
